(** * Agent service for code review: tool layer and review workflow

    A shallow embedding of
      - [src/tools/grep_tool.py]  (the filesystem search toolset),
      - [src/tools/bash_tool.py]  (the allowlisted command tools),
      - [src/agent/agent.py]      (the review workflow),
      - [src/resolve_issue/agent.py] (the workflow that resolves an issue),
    followed by the properties established about them.

    Conventions.  A Python [str] is a list of code points ([N]); [bytes] is
    a list of byte values.  Text is written with [lit "..."].  Exceptions
    are explicit results.  Library functions the code calls ([fnmatch],
    [urlparse], [int], [repr], [bytes.decode]) are given executable models
    of their CPython behaviour on a POSIX host; what depends on the Unicode
    character database is read from a table that is a parameter.  The
    file system is a tree of directories and files without symbolic links,
    and its encoding is UTF-8 with [surrogateescape]; resolving a path
    raises [ValueError] for a path that cannot be encoded or holds a NUL
    character.  The language-model collaborator and [json.loads] are
    parameters of the workflow; constants of [patched_adk.config] are
    parameters of the tools.  [Event] of the agent framework is a
    validated model: built from a dictionary and without an author, as
    the review workflow builds it, it raises [ValidationError], whose
    text is a parameter.  Starting a child process may raise any
    exception the operating system interface has.  Logging is left
    out. *)

From Stdlib Require Import String Ascii DecimalString.
From Stdlib Require Import ZArith NArith Lia Bool List.
Import ListNotations.

Local Open Scope N_scope.
Local Open Scope list_scope.

(* ================================================================== *)
(** * Python strings *)
(* ================================================================== *)

Module PyStr.

Definition str := list N.

Definition lit (s : string) : str :=
  map N_of_ascii (list_ascii_of_string s).

Fixpoint str_eqb (a b : str) : bool :=
  match a, b with
  | [], [] => true
  | x :: a', y :: b' => (x =? y) && str_eqb a' b'
  | _, _ => false
  end.

(** [c in s] for a one-character [c]. *)
Definition has_char (c : N) (s : str) : bool := existsb (N.eqb c) s.

Fixpoint startswith (s p : str) : bool :=
  match p, s with
  | [], _ => true
  | y :: p', x :: s' => (x =? y) && startswith s' p'
  | _ :: _, [] => false
  end.

(** [p in s] for strings: substring test. *)
Fixpoint has_sub (p s : str) : bool :=
  startswith s p || match s with [] => false | _ :: s' => has_sub p s' end.

(** [sep.join(l)]. *)
Fixpoint join (sep : str) (l : list str) : str :=
  match l with
  | [] => []
  | [x] => x
  | x :: l' => x ++ sep ++ join sep l'
  end.

(** [s.split(c)] for a one-character separator: never the empty list. *)
Fixpoint split (c : N) (s : str) : list str :=
  match s with
  | [] => [[]]
  | x :: s' =>
      if x =? c then [] :: split c s'
      else match split c s' with
           | [] => [[x]]
           | w :: ws => (x :: w) :: ws
           end
  end.

Fixpoint lstrip (drop : N -> bool) (s : str) : str :=
  match s with
  | [] => []
  | x :: s' => if drop x then lstrip drop s' else s
  end.

Definition rstrip (drop : N -> bool) (s : str) : str :=
  rev (lstrip drop (rev s)).

Definition strip (drop : N -> bool) (s : str) : str :=
  rstrip drop (lstrip drop s).

(** [len(s)] as a Python integer. *)
Definition len (s : str) : Z := Z.of_nat (length s).

(** [s[:b]] with Python's reading of a negative bound. *)
Definition slice_to (s : str) (b : Z) : str :=
  if (b <? 0)%Z then firstn (Z.to_nat (len s + b)) s
  else firstn (Z.to_nat b) s.

(** [str(z)] for an integer. *)
Definition of_Z (z : Z) : str := lit (NilZero.string_of_int (Z.to_int z)).
Definition of_nat (n : nat) : str := of_Z (Z.of_nat n).

(** Index of the first occurrence of [c]. *)
Fixpoint index_of (c : N) (s : str) : option nat :=
  match s with
  | [] => None
  | x :: s' => if x =? c then Some O
               else match index_of c s' with
                    | Some k => Some (S k)
                    | None => None
                    end
  end.

(** [x] occurs inside [s]. *)
Definition contains (s x : str) : Prop := exists pre post, s = pre ++ x ++ post.

End PyStr.
Import PyStr.

(** The part of the Unicode character database the interpreter consults for
    code points above 127. The models below decide ASCII themselves. *)
Record unicode_db := {
  u_isspace : N -> bool;          (* [str.isspace] *)
  u_decimal : N -> option N;      (* decimal digit value, if any *)
  u_isprintable : N -> bool;      (* [str.isprintable] *)
  u_identifier : str -> bool      (* a non-ASCII name is an identifier
                                     equal to its normal form *)
}.

(* ================================================================== *)
(** * [fnmatch] *)
(* ================================================================== *)

Module Fnmatch.

(** What [fnmatch.translate] turns a pattern into, piece by piece. *)
Inductive tok :=
| TStar                                   (* [*]  : any run of characters *)
| TAny                                    (* [?]  : one character *)
| TLit (c : N)                            (* a literal character *)
| TClass (neg : bool) (items : list (N * N))  (* [[seq]] and [[!seq]] *)
| TNever.                                 (* the empty class *)

(** Position of the bracket that closes a class whose body starts [rest]. *)
Definition close_bracket (rest : str) : option nat :=
  let j1 := match rest with 33 :: _ => 1%nat | _ => 0%nat end in
  let j2 := match skipn j1 rest with 93 :: _ => S j1 | _ => j1 end in
  match index_of 93 (skipn j2 rest) with
  | Some k => Some (j2 + k)%nat
  | None => None
  end.

(** Members of a class body, left to right: [x-y] is a range, and a range
    whose ends are out of order is dropped. *)
Fixpoint class_items (s : str) : list (N * N) :=
  match s with
  | [] => []
  | x :: t =>
      match t with
      | d :: y :: t' =>
          if d =? 45
          then (if x <=? y then [(x, y)] else []) ++ class_items t'
          else (x, x) :: class_items t
      | _ => (x, x) :: class_items t
      end
  end.

Definition class_tok (stuff : str) : tok :=
  let '(neg, body) :=
    match stuff with
    | 33 :: b => (true, b)
    | _ => (false, stuff)
    end in
  match class_items body, neg with
  | [], false => TNever
  | [], true => TAny
  | items, _ => TClass neg items
  end.

(** [translate]: [skip] characters are still to be passed over (the body
    of a class just read), [after_star] says the last piece was [TStar]
    (consecutive stars are one). *)
Fixpoint translate_from (skip : nat) (after_star : bool) (pat : str) : list tok :=
  match pat with
  | [] => []
  | c :: rest =>
      match skip with
      | S k => translate_from k false rest
      | O =>
          if c =? 42 then
            if after_star then translate_from 0 true rest
            else TStar :: translate_from 0 true rest
          else if c =? 63 then TAny :: translate_from 0 false rest
          else if c =? 91 then
            match close_bracket rest with
            | None => TLit 91 :: translate_from 0 false rest
            | Some j => class_tok (firstn j rest) :: translate_from (S j) false rest
            end
          else TLit c :: translate_from 0 false rest
      end
  end.

Definition translate (pat : str) : list tok := translate_from 0 false pat.

Definition in_items (c : N) (items : list (N * N)) : bool :=
  existsb (fun r => (fst r <=? c) && (c <=? snd r)) items.

(** The compiled pattern must match the whole name. *)
Fixpoint re_match (ts : list tok) (s : str) : bool :=
  match ts with
  | [] => match s with [] => true | _ => false end
  | TStar :: ts' =>
      (fix star (s : str) : bool :=
         re_match ts' s ||
         match s with [] => false | _ :: s' => star s' end) s
  | TAny :: ts' =>
      match s with _ :: s' => re_match ts' s' | [] => false end
  | TLit c :: ts' =>
      match s with d :: s' => (c =? d) && re_match ts' s' | [] => false end
  | TClass neg items :: ts' =>
      match s with
      | d :: s' => xorb neg (in_items d items) && re_match ts' s'
      | [] => false
      end
  | TNever :: _ => false
  end.

Definition fnmatchcase (name pat : str) : bool := re_match (translate pat) name.

(** [os.path.normcase] on POSIX returns its argument. *)
Definition normcase (s : str) : str := s.

Definition fnmatch (name pat : str) : bool :=
  fnmatchcase (normcase name) (normcase pat).

End Fnmatch.
Import Fnmatch.

(* ================================================================== *)
(** * [repr] of strings, lists and keyword dictionaries *)
(* ================================================================== *)

Module PyRepr.
Section WithUnicode.
Variable U : unicode_db.

Definition hex_digit (d : N) : N := if d <? 10 then 48 + d else 87 + d.

(** [n] lowercase hexadecimal digits of [c], most significant first. *)
Fixpoint hex (n : nat) (c : N) : str :=
  match n with
  | O => []
  | S k => hex k (c / 16) ++ [hex_digit (c mod 16)]
  end.

Definition escape_char (quote c : N) : str :=
  if (c =? quote) || (c =? 92) then [92; c]
  else if c =? 9 then lit "\t"
  else if c =? 10 then lit "\n"
  else if c =? 13 then lit "\r"
  else if (c <? 32) || (c =? 127) then lit "\x" ++ hex 2 c
  else if c <? 127 then [c]
  else if u_isprintable U c then [c]
  else if c <? 256 then lit "\x" ++ hex 2 c
  else if c <? 65536 then lit "\u" ++ hex 4 c
  else lit "\U" ++ hex 8 c.

(** [repr(s)]: single quotes unless the text has one and no double quote. *)
Definition repr_str (s : str) : str :=
  let quote := if has_char 39 s && negb (has_char 34 s) then 34 else 39 in
  [quote] ++ flat_map (escape_char quote) s ++ [quote].

(** [repr] of a list of strings. *)
Definition repr_list (l : list str) : str :=
  lit "[" ++ join (lit ", ") (map repr_str l) ++ lit "]".

(** [repr] of a keyword dictionary; each value comes with its own [repr]. *)
Definition repr_kwargs (kw : list (str * str)) : str :=
  lit "{" ++ join (lit ", ") (map (fun kv => repr_str (fst kv) ++ lit ": " ++ snd kv) kw)
  ++ lit "}".

(** [str.isspace] for one character. *)
Definition isspace (c : N) : bool :=
  if c <? 128
  then ((9 <=? c) && (c <=? 13)) || ((28 <=? c) && (c <=? 32))
  else u_isspace U c.

End WithUnicode.
End PyRepr.
Import PyRepr.

(* ================================================================== *)
(** * [src/tools/grep_tool.py] *)
(* ================================================================== *)

Module GrepTool.

Local Open Scope string_scope.

(** Common directories and files to skip. *)
Definition BLACKLIST_PATTERNS : list str := map lit [
    ".git/*"; "node_modules/*"; ".next/*"; ".turbo/*";
    "*.wasm"; "*.woff2"; "*.pack"; "*.pack.gz"; "*.tar.zst"; "*.pyc";
    "__pycache__/*";
    "*.so"; "*.dll"; "*.dylib"; "*.exe"; "*.bin"; "*.dat"; "*.db";
    "*.sqlite"; "*.sqlite3"; "*.log"; "*.cache"; "*.tmp"; "*.temp";
    "*.swp"; "*.swo"; "*.bak"; "*.backup"; "*.orig"; "*.rej"; "*.patch";
    "*.diff"; "*.tar"; "*.gz"; "*.zip"; "*.rar"; "*.7z"; "*.bz2"; "*.xz";
    "*.lzma"; "*.lz4"; "*.zst"; "*.tgz"; "*.tbz2"; "*.txz"; "*.tlz";
    "*.tlz4"; "*.tzst";
    "*.pdf"; "*.docx"; "*.doc"; "*.xls"; "*.xlsx"; "*.ppt"; "*.pptx";
    "*.png"; "*.jpg"; "*.jpeg"; "*.gif"; "*.bmp"; "*.tiff"; "*.ico" ].

Local Close Scope string_scope.

(** File reading constants. *)
Definition FILE_READ_CHAR_LIMIT : Z := 5000.
Definition FILE_READ_TRUNCATED_TEXT : str := lit "<TRUNCATED>".

(** ** Paths

    An absolute POSIX path is the list of its components below the root.
    Two paths are equal when their components are. *)
Definition path := list str.

Definition path_str (p : path) : str := 47 :: join [47] p.

(** [str] of a relative path. *)
Definition rel_str (r : list str) : str :=
  match r with
  | [] => lit "."
  | _ => join [47] r
  end.

Fixpoint path_eqb (a b : path) : bool :=
  match a, b with
  | [], [] => true
  | x :: a', y :: b' => str_eqb x y && path_eqb a' b'
  | _, _ => false
  end.

(** [a] is [b] or one of [b.parents]. *)
Fixpoint is_prefix (a b : path) : bool :=
  match a, b with
  | [], _ => true
  | x :: a', y :: b' => str_eqb x y && is_prefix a' b'
  | _ :: _, [] => false
  end.

(** [a in b.parents]: a proper ancestor. *)
Definition in_parents (a b : path) : bool := is_prefix a b && negb (path_eqb a b).

(** What [Path(s).resolve()] returns where the file system has no
    symbolic links: the path is made absolute against the current
    directory, empty and [.] components vanish and [..] steps up (staying
    at the root).  When it raises instead is said by [fs_encodable]
    below. *)
Definition resolve_step (acc : path) (part : str) : path :=
  if str_eqb part [] || str_eqb part (lit ".") then acc
  else if str_eqb part (lit "..") then removelast acc
  else acc ++ [part].

Definition resolve (cwd : path) (s : str) : path :=
  fold_left resolve_step (split 47 s) (if startswith s [47] then [] else cwd).

(** ** The file system *)

Inductive read_result :=
| Text (t : str)          (* what text-mode reading returns *)
| ReadError (msg : str).  (* opening or decoding raises *)

#[local] Set Warnings "-register-all".
Inductive node :=
| File (r : read_result)
| Dir (entries : list (str * node)).   (* in the order the system lists them *)

Record host := {
  cwd : path;        (* the process's current directory *)
  fsroot : node      (* the directory [/] *)
}.

Fixpoint find_entry (name : str) (es : list (str * node)) : option node :=
  match es with
  | [] => None
  | (n, c) :: es' => if str_eqb n name then Some c else find_entry name es'
  end.

Fixpoint lookup (n : node) (p : path) : option node :=
  match p with
  | [] => Some n
  | x :: p' =>
      match n with
      | Dir es => match find_entry x es with
                  | Some c => lookup c p'
                  | None => None
                  end
      | File _ => None
      end
  end.

Definition is_dir_node (n : node) : bool :=
  match n with Dir _ => true | File _ => false end.

Definition dir_names (es : list (str * node)) : list str :=
  map fst (filter (fun e => is_dir_node (snd e)) es).

Definition file_names (es : list (str * node)) : list str :=
  map fst (filter (fun e => negb (is_dir_node (snd e))) es).

(** The file-system calls a tool makes, in order.  Resolving a path reads
    the links on the way to it; the other calls look at the resolved
    path.  What a walk or a listing does entry by entry is part of
    [OpWalk], [OpRglob] and [OpIterdir]. *)
Inductive fs_op :=
| OpResolve (s : str)
| OpExists (p : path)
| OpIsFile (p : path)
| OpWalk (p : path)
| OpRglob (p : path)
| OpIterdir (p : path)
| OpOpen (p : path).

(** [os.walk(top)], top down.  The caller may prune the directory list of
    a triple before the walk goes on; both callers here only filter it,
    which [keep] records.  A triple is (directory relative to [top], its
    sub-directories, its other entries). *)
Fixpoint os_walk (keep : list str -> str -> bool) (rel : list str) (n : node)
  : list (list str * list str * list str) :=
  match n with
  | File _ => []
  | Dir es =>
      (rel, dir_names es, file_names es) ::
      (fix sub (es : list (str * node)) :=
         match es with
         | [] => []
         | (name, child) :: es' =>
             (if is_dir_node child && keep rel name
              then os_walk keep (rel ++ [name]) child
              else [])
             ++ sub es'
         end) es
  end.

(** [Path.rglob("*")]: the entries of the directory, then those of each
    sub-directory in turn. *)
Fixpoint rglob (rel : list str) (n : node) : list (list str * node) :=
  match n with
  | File _ => []
  | Dir es =>
      map (fun e => (rel ++ [fst e], snd e)) es ++
      (fix sub (es : list (str * node)) :=
         match es with
         | [] => []
         | (name, child) :: es' => rglob (rel ++ [name]) child ++ sub es'
         end) es
  end.

(** ** [should_skip_path] *)

(** Check if a path should be skipped based on blacklist patterns. *)
Definition should_skip_path (p : path) : bool :=
  existsb (fnmatch (path_str p)) BLACKLIST_PATTERNS.

(** The implicit widening both search tools apply to their pattern. *)
Definition widen_pattern (unix_pattern : str) : str :=
  if negb (has_char 42 unix_pattern)
  then lit "*" ++ unix_pattern ++ lit "*"
  else unix_pattern.

Definition matcher (is_case_sensitive : bool) : str -> str -> bool :=
  if is_case_sensitive then fnmatchcase else fnmatch.

Definition dot_part (parts : list str) : bool :=
  existsb (fun part => startswith part (lit ".")) parts.

Record GrepTools := { working_dir : path }.

Definition confined (self : GrepTools) (resolved_path : path) : bool :=
  in_parents (working_dir self) resolved_path
  || path_eqb (working_dir self) resolved_path.

Definition confinement_error (self : GrepTools) (resolved_path : path) : str :=
  lit "Error: " ++ path_str resolved_path ++ lit " is not a subdirectory of "
  ++ path_str (working_dir self)
  ++ lit ". Please provide a relative path, or a subdirectory of "
  ++ path_str (working_dir self) ++ lit ".".

(** ** The three tools

    A call returns the file-system calls it made and the text it answers.
    Keyword arguments the signature does not name arrive as [kwargs], each
    value with its [repr].  The three definitions that follow are the
    tools on a path that [Path.resolve] accepts; how a call begins on any
    path, raising included, is [enter_find_files],
    [enter_find_text_in_files] and [enter_read_file] further down. *)

Section Tools.
Variable U : unicode_db.
(** [patched_adk.config.find_text_char_limit]; the module is not part of
    the sources. *)
Variable find_text_char_limit : Z.
Variable H : host.
Variable self : GrepTools.

(** One entry of a walked directory: [Some (is_file, listed)] when the
    entry is reported. *)
Definition find_files_entry (resolved_path : path) (is_case_sensitive : bool)
    (unix_pattern : str) (rel : list str) (entry : str * bool) : option (bool * str) :=
  let '(file, is_file) := entry in
  let file_path := resolved_path ++ rel ++ [file] in
  if should_skip_path file_path then None
  else if dot_part (rel ++ [file]) then None
  else if matcher is_case_sensitive (path_str file_path) unix_pattern
       then Some (is_file, rel_str (rel ++ [file]))
       else None.

(** The body of the loop over [os.walk] for one triple. *)
Definition find_files_visit (resolved_path : path) (depth : Z) (is_case_sensitive : bool)
    (unix_pattern : str) (triple : list str * list str * list str) : list (bool * str) :=
  let '(rel, dirs, files) := triple in
  if (Z.of_nat (length rel) >? depth)%Z then []
  else
    let dirs := filter (fun d => negb (should_skip_path (resolved_path ++ rel ++ [d]))) dirs in
    flat_map (fun e =>
                match find_files_entry resolved_path is_case_sensitive unix_pattern rel e with
                | Some hit => [hit]
                | None => []
                end)
             (map (fun d => (d, false)) dirs ++ map (fun f => (f, true)) files).

(** What the loop leaves in [dirs] for the walk to descend into. *)
Definition find_files_keep (resolved_path : path) (depth : Z)
    (rel : list str) (d : str) : bool :=
  if (Z.of_nat (length rel) >? depth)%Z then true
  else negb (should_skip_path (resolved_path ++ rel ++ [d])).

Definition find_files_hits (resolved_path : path) (depth : Z) (is_case_sensitive : bool)
    (unix_pattern : str) (top : node) : list (bool * str) :=
  flat_map (find_files_visit resolved_path depth is_case_sensitive unix_pattern)
           (os_walk (find_files_keep resolved_path depth) [] top).

Definition file_matches (hits : list (bool * str)) : list str :=
  map snd (filter (fun h => fst h) hits).

Definition dir_matches (hits : list (bool * str)) : list str :=
  map snd (filter (fun h => negb (fst h)) hits).

Definition delim : str := [10] ++ lit "  * ".

Definition find_files_render (hits : list (bool * str)) : str :=
  let files_part :=
    match file_matches hits with
    | [] => [10] ++ lit "  No files found"
    | l => delim ++ join delim l
    end in
  let dirs_part :=
    match dir_matches hits with
    | [] => [10] ++ lit "  No directories found"
    | l => delim ++ join delim l
    end in
  lit "    Files:" ++ files_part ++ [10; 10] ++ lit "    Directories:" ++ dirs_part
  ++ [10; 10] ++ lit "    ".

Definition find_files (path unix_pattern : str) (depth : Z) (is_case_sensitive : bool)
    (kwargs : list (str * str)) : list fs_op * str :=
  match kwargs with
  | _ :: _ =>
      ([], lit "Error: Unexpected arguments: " ++ repr_kwargs U kwargs ++ [10]
           ++ lit "Supported args: path, pattern, depth, is_case_sensitive")
  | [] =>
      let resolved_path := resolve (cwd H) path in
      let unix_pattern := widen_pattern unix_pattern in
      if negb (confined self resolved_path) then
        ([OpResolve path], confinement_error self resolved_path)
      else
        match lookup (fsroot H) resolved_path with
        | None =>
            ([OpResolve path; OpExists resolved_path],
             lit "Error: " ++ path_str resolved_path ++ lit " does not exist")
        | Some (File _) =>
            ([OpResolve path; OpExists resolved_path; OpIsFile resolved_path],
             lit "Error: " ++ path_str resolved_path ++ lit " is a file, not a directory")
        | Some top =>
            ([OpResolve path; OpExists resolved_path; OpIsFile resolved_path;
              OpWalk resolved_path],
             find_files_render
               (find_files_hits resolved_path depth is_case_sensitive unix_pattern top))
        end
  end.

(** Lines of a text, each with its line end. *)
Fixpoint lines_of (s : str) : list str :=
  match s with
  | [] => []
  | x :: s' =>
      if x =? 10 then [10] :: lines_of s'
      else match lines_of s' with
           | [] => [[x]]
           | l :: ls => (x :: l) :: ls
           end
  end.

(** [enumerate(lines, start)]. *)
Fixpoint enumerate {A} (start : Z) (l : list A) : list (Z * A) :=
  match l with
  | [] => []
  | x :: l' => (start, x) :: enumerate (start + 1)%Z l'
  end.

Definition matches_in_text (is_case_sensitive : bool) (unix_pattern : str) (t : str)
  : list str :=
  flat_map (fun il =>
              let '(i, line) := il in
              if matcher is_case_sensitive line unix_pattern then
                if (len line >? find_text_char_limit)%Z
                then [lit "Line " ++ of_Z (i + 1) ++ lit ": <Too many characters>"]
                else [lit "Line " ++ of_Z (i + 1) ++ lit ": " ++ strip (isspace U) line]
              else [])
           (enumerate 0%Z (lines_of t)).

(** [d[k] = v] on a dictionary kept in insertion order. *)
Fixpoint dict_set (d : list (str * list str)) (k : str) (v : list str) :=
  match d with
  | [] => [(k, v)]
  | (k', v') :: d' =>
      if str_eqb k' k then (k, v) :: d' else (k', v') :: dict_set d' k v
  end.

(** The files searched, each with its path relative to the resolved one. *)
Definition find_text_paths (resolved_path : path) (recursive : bool) (n : node)
  : list (list str * read_result) :=
  match n with
  | File r => [([], r)]
  | Dir es =>
      if recursive then
        flat_map (fun p =>
                    match snd p with
                    | File r =>
                        if dot_part (fst p) then []
                        else if should_skip_path (resolved_path ++ fst p) then []
                        else [(fst p, r)]
                    | Dir _ => []
                    end)
                 (rglob [] n)
      else
        flat_map (fun e =>
                    match snd e with
                    | File r =>
                        if should_skip_path (resolved_path ++ [fst e]) then []
                        else [([fst e], r)]
                    | Dir _ => []
                    end) es
  end.

(** The search proper, once the arguments are accepted and the path found:
    [unix_pattern] is the pattern the lines are matched against.  A file
    with matches is entered under its path relative to [path], resolved
    once more. *)
Definition find_text_search (path : str) (resolved_path : list str)
    (recursive is_case_sensitive : bool) (unix_pattern : str) (n : node)
  : list fs_op * str :=
  let paths := find_text_paths resolved_path recursive n in
  let listing :=
    match n with
    | File _ => []
    | Dir _ => if recursive then [OpRglob resolved_path]
               else [OpIterdir resolved_path]
    end in
  let '(reads, file_matches) :=
    fold_left (fun (acc : list fs_op * list (str * list str)) p =>
                 let '(ops, d) := acc in
                 let opened := ops ++ [OpOpen (resolved_path ++ fst p)] in
                 match snd p with
                 | ReadError _ => (opened, d)
                 | Text t =>
                     match matches_in_text is_case_sensitive unix_pattern t with
                     | [] => (opened, d)
                     | ms => (opened ++ [OpResolve path], dict_set d (rel_str (fst p)) ms)
                     end
                 end) paths ([], []) in
  let ops :=
    [OpResolve path; OpExists resolved_path; OpIsFile resolved_path] ++ listing ++ reads in
  let total_file_matches :=
    flat_map (fun kv =>
                [10] ++ lit "Pattern matches found in '" ++ fst kv ++ lit "':"
                ++ [10] ++ join [10] (snd kv)) file_matches in
  match total_file_matches with
  | [] => (ops, lit "Error: No matches found.")
  | _ => (ops, total_file_matches)
  end.

Definition find_text_in_files (unix_pattern path : str) (recursive is_case_sensitive : bool)
    (kwargs : list (str * str)) : list fs_op * str :=
  match kwargs with
  | _ :: _ =>
      ([], lit "Error: Unexpected arguments: " ++ repr_kwargs U kwargs ++ [10]
           ++ lit "Supported args: path, pattern, recursive, is_case_sensitive")
  | [] =>
      (* Check for wildcard pattern *)
      if str_eqb unix_pattern (lit "*") then
        ([], lit "Error: pattern * is too broad. Please provide a more specific pattern")
      else
        let unix_pattern := widen_pattern unix_pattern in
        let resolved_path := resolve (cwd H) path in
        if negb (confined self resolved_path) then
          ([OpResolve path], confinement_error self resolved_path)
        else
          match lookup (fsroot H) resolved_path with
          | None =>
              ([OpResolve path; OpExists resolved_path],
               lit "Error: " ++ path_str resolved_path ++ lit " does not exist")
          | Some n =>
              find_text_search path resolved_path recursive is_case_sensitive
                unix_pattern n
          end
  end.

Definition truncate_read (content : str) : str :=
  if (len content >? FILE_READ_CHAR_LIMIT)%Z
  then slice_to content FILE_READ_CHAR_LIMIT ++ [10] ++ FILE_READ_TRUNCATED_TEXT
  else content.

(** The loop over the numbered lines of [read_file]. *)
Fixpoint read_lines (start_line end_line : option Z) (ls : list (Z * str)) : list str :=
  match ls with
  | [] => []
  | (i, line) :: ls' =>
      if match start_line with Some s => (i <? s)%Z | None => false end
      then read_lines start_line end_line ls'
      else if match end_line with Some e => (i >? e)%Z | None => false end
      then []
      else line :: read_lines start_line end_line ls'
  end.

Definition read_file (path : str) (start_line end_line : option Z) : list fs_op * str :=
  let resolved_path := resolve (cwd H) path in
  if negb (confined self resolved_path) then
    ([OpResolve path], confinement_error self resolved_path)
  else
    match lookup (fsroot H) resolved_path with
    | Some (File r) =>
        ([OpResolve path; OpIsFile resolved_path; OpOpen resolved_path],
         match r with
         | ReadError e =>
             lit "Error reading file " ++ path_str resolved_path ++ lit ": " ++ e
         | Text content =>
             match start_line, end_line with
             | None, None => truncate_read content
             | _, _ =>
                 truncate_read
                   (concat (read_lines start_line end_line (enumerate 1%Z (lines_of content))))
             end
         end)
    | _ =>
        ([OpResolve path; OpIsFile resolved_path],
         lit "Error: " ++ path_str resolved_path ++ lit " is not a file")
    end.

(** ** How a call begins

    [Path(path).resolve()] stands outside every [try].  It raises
    [ValueError] when the path cannot be handed to the operating system:
    when it holds a NUL character ("embedded null byte"), or a surrogate
    that the file-system encoding, UTF-8 with [surrogateescape], cannot
    encode, which is every surrogate outside U+DC80 to U+DCFF
    ([UnicodeEncodeError] is a [ValueError]).  A name that is too long or
    does not exist does not make it raise. *)
Definition fs_char (c : N) : bool :=
  negb (c =? 0)
  && negb ((55296 <=? c) && (c <=? 57343) && negb ((56448 <=? c) && (c <=? 56575))).

Definition fs_encodable (s : str) : bool := forallb fs_char s.

(** A call up to its confinement check: it returns [text] at once, having
    made the calls [ops]; or it raises; or it goes on with the resolved
    path, which is inside the working root. *)
Inductive start :=
| Answers (ops : list fs_op) (text : str)
| RaisesValueError (ops : list fs_op)
| Passes (resolved_path : path).

Definition enter_find_files (path : str) (kwargs : list (str * str)) : start :=
  match kwargs with
  | _ :: _ =>
      Answers [] (lit "Error: Unexpected arguments: " ++ repr_kwargs U kwargs ++ [10]
                  ++ lit "Supported args: path, pattern, depth, is_case_sensitive")
  | [] =>
      if negb (fs_encodable path) then RaisesValueError [OpResolve path]
      else
        let resolved_path := resolve (cwd H) path in
        if negb (confined self resolved_path) then
          Answers [OpResolve path] (confinement_error self resolved_path)
        else Passes resolved_path
  end.

Definition enter_find_text_in_files (unix_pattern path : str) (kwargs : list (str * str))
  : start :=
  match kwargs with
  | _ :: _ =>
      Answers [] (lit "Error: Unexpected arguments: " ++ repr_kwargs U kwargs ++ [10]
                  ++ lit "Supported args: path, pattern, recursive, is_case_sensitive")
  | [] =>
      (* Check for wildcard pattern *)
      if str_eqb unix_pattern (lit "*") then
        Answers [] (lit "Error: pattern * is too broad. Please provide a more specific pattern")
      else if negb (fs_encodable path) then RaisesValueError [OpResolve path]
      else
        let resolved_path := resolve (cwd H) path in
        if negb (confined self resolved_path) then
          Answers [OpResolve path] (confinement_error self resolved_path)
        else Passes resolved_path
  end.

Definition enter_read_file (path : str) : start :=
  if negb (fs_encodable path) then RaisesValueError [OpResolve path]
  else
    let resolved_path := resolve (cwd H) path in
    if negb (confined self resolved_path) then
      Answers [OpResolve path] (confinement_error self resolved_path)
    else Passes resolved_path.

End Tools.

End GrepTool.

(* ================================================================== *)
(** * [src/tools/bash_tool.py] *)
(* ================================================================== *)

Module BashTool.

(** ** [bytes.decode("utf-8")], strict *)

Definition cont (b : N) : bool := (128 <=? b) && (b <=? 191).

Definition cbits (b : N) : N := b - 128.

(** [None] is [UnicodeDecodeError]. *)
Fixpoint decode_utf8 (bs : list N) : option str :=
  match bs with
  | [] => Some []
  | b0 :: r0 =>
      if b0 <? 128 then option_map (cons b0) (decode_utf8 r0)
      else if (194 <=? b0) && (b0 <=? 223) then
        match r0 with
        | b1 :: r1 =>
            if cont b1
            then option_map (cons ((b0 - 192) * 64 + cbits b1)) (decode_utf8 r1)
            else None
        | _ => None
        end
      else if (224 <=? b0) && (b0 <=? 239) then
        match r0 with
        | b1 :: b2 :: r2 =>
            if cont b1 && cont b2
               && (negb (b0 =? 224) || (160 <=? b1))
               && (negb (b0 =? 237) || (b1 <=? 159))
            then option_map (cons ((b0 - 224) * 4096 + cbits b1 * 64 + cbits b2))
                            (decode_utf8 r2)
            else None
        | _ => None
        end
      else if (240 <=? b0) && (b0 <=? 244) then
        match r0 with
        | b1 :: b2 :: b3 :: r3 =>
            if cont b1 && cont b2 && cont b3
               && (negb (b0 =? 240) || (144 <=? b1))
               && (negb (b0 =? 244) || (b1 <=? 143))
            then option_map
                   (cons ((b0 - 240) * 262144 + cbits b1 * 4096 + cbits b2 * 64 + cbits b3))
                   (decode_utf8 r3)
            else None
        | _ => None
        end
      else None
  end.

(** ** Results and exceptions *)

Inductive exn :=
| TypeError (msg : str)
| SyntaxError
| UnicodeDecodeError
| ValueError (msg : str)
| OSError (msg : str).

Inductive result (A : Type) :=
| Returned (a : A)
| Raised (e : exn).
Arguments Returned {A} a.
Arguments Raised {A} e.

(** How starting [program] with [args] ends.  When no process comes to
    be, [asyncio.create_subprocess_exec] raises: an [OSError] when the
    program cannot be run, a [ValueError] when the program or an argument
    holds a NUL character or cannot be encoded. *)
Inductive child :=
| SpawnFails (e : exn)
| Exits (returncode : Z) (stdout stderr : list N).

Section Tools.
Variable U : unicode_db.
(** [patched_adk.config.truncate_str]; the module is not part of the
    sources. *)
Variable truncate_str : str.
(** The operating system: what running a program with arguments gives. *)
Variable subprocess_exec : str -> list str -> child.

(** A tool made by [create_runtime_cli_tool]: the function whose source
    text was generated with [command] and [truncate_length] written in. *)
Record cli_tool := {
  command : str;
  truncate_length : option Z
}.

Definition ascii_letter (c : N) : bool :=
  ((65 <=? c) && (c <=? 90)) || ((97 <=? c) && (c <=? 122)).
Definition ascii_digit (c : N) : bool := (48 <=? c) && (c <=? 57).

(** [name] can stand after [def] and is the key the definition is stored
    under. *)
Definition is_identifier (name : str) : bool :=
  if forallb (fun c => c <? 128) name then
    match name with
    | [] => false
    | c :: rest =>
        (ascii_letter c || (c =? 95))
        && forallb (fun c => ascii_letter c || ascii_digit c || (c =? 95)) rest
    end
  else u_identifier U name.

(** The generated source compiles and defines [func_name] when that name
    is an identifier; the command then contains nothing that could end the
    literals it is written into. *)
Definition create_runtime_cli_tool (command : str) (truncate_length : option Z)
  : result cli_tool :=
  let func_name := command ++ lit "_cli" in
  if is_identifier func_name
  then Returned {| command := command; truncate_length := truncate_length |}
  else Raised SyntaxError.

(** The body of the generated function. *)
Definition cli_call (tool : cli_tool) (args : list str) : result str :=
  match subprocess_exec (command tool) args with
  | SpawnFails e => Raised e
  | Exits returncode stdout stderr =>
      if negb (returncode =? 0)%Z then
        match decode_utf8 stderr with
        | None => Raised UnicodeDecodeError
        | Some err_msg =>
            let err_str :=
              lit "Command " ++ command tool ++ lit " " ++ repr_list U args
              ++ lit " failed with return code " ++ of_Z returncode
              ++ lit " and stderr: " ++ err_msg in
            Returned (lit "Error: " ++ err_str)
        end
      else
        match decode_utf8 stdout with
        | None => Raised UnicodeDecodeError
        | Some output =>
            Returned
              (match truncate_length tool with
               | Some b =>
                   if negb (b =? 0)%Z && (len output >? b)%Z
                   then slice_to output b ++ truncate_str
                   else output
               | None => output
               end)
        end
  end.

(** The list comprehension of [get_bash_tool]. *)
Fixpoint create_all (commands : list str) (truncate_length : option Z)
  : result (list cli_tool) :=
  match commands with
  | [] => Returned []
  | c :: rest =>
      match create_runtime_cli_tool c truncate_length with
      | Raised e => Raised e
      | Returned t =>
          match create_all rest truncate_length with
          | Raised e => Raised e
          | Returned ts => Returned (t :: ts)
          end
      end
  end.

Definition get_bash_tool (allowed_commands : option (list str))
    (truncate_length : option Z) : result (list cli_tool) :=
  match allowed_commands with
  | None => Raised (TypeError (lit "'NoneType' object is not iterable"))
  | Some commands => create_all commands truncate_length
  end.

End Tools.

End BashTool.

(* ================================================================== *)
(** * [src/agent/agent.py] *)
(* ================================================================== *)

Module Agent.

(** ** Values kept in the session state *)

#[local] Set Warnings "-register-all".
Inductive json :=
| JNull
| JBool (b : bool)
| JInt (z : Z)
| JFloat (bits : N)                 (* the 64 bits of the double *)
| JStr (s : str)
| JList (l : list json)
| JDict (d : list (str * json)).

(** Truth value of an object in a condition. *)
Definition truthy (v : json) : bool :=
  match v with
  | JNull => false
  | JBool b => b
  | JInt z => negb (z =? 0)%Z
  | JFloat bits => negb ((bits =? 0) || (bits =? 2 ^ 63))
  | JStr s => match s with [] => false | _ => true end
  | JList l => match l with [] => false | _ => true end
  | JDict d => match d with [] => false | _ => true end
  end.

Definition type_name (v : json) : str :=
  match v with
  | JNull => lit "NoneType"
  | JBool _ => lit "bool"
  | JInt _ => lit "int"
  | JFloat _ => lit "float"
  | JStr _ => lit "str"
  | JList _ => lit "list"
  | JDict _ => lit "dict"
  end.

Definition state := list (str * json).

Fixpoint dict_get (d : list (str * json)) (k : str) : option json :=
  match d with
  | [] => None
  | (k', v) :: d' => if str_eqb k' k then Some v else dict_get d' k
  end.

(** [state.get(key)]: [None] when the key is absent. *)
Definition state_get (st : state) (key : str) : json :=
  match dict_get st key with
  | Some v => v
  | None => JNull
  end.

(** ** [urllib.parse.urlparse] *)

Record ParseResult := {
  scheme : str;
  netloc : str;
  path : str;
  params : str;
  query : str;
  fragment : str
}.

Definition ascii_letter (c : N) : bool :=
  ((65 <=? c) && (c <=? 90)) || ((97 <=? c) && (c <=? 122)).
Definition ascii_digit (c : N) : bool := (48 <=? c) && (c <=? 57).

Definition scheme_char (c : N) : bool :=
  ascii_letter c || ascii_digit c || (c =? 43) || (c =? 45) || (c =? 46).

Definition lower (c : N) : N :=
  if (65 <=? c) && (c <=? 90) then c + 32 else c.

(** [s.split(c, 1)] where [c] occurs in [s]; [s] and the empty string
    otherwise. *)
Definition cut (c : N) (s : str) : str * str :=
  match index_of c s with
  | Some i => (firstn i s, skipn (S i) s)
  | None => (s, [])
  end.

(** Index of the first character of [s] satisfying [p]. *)
Fixpoint index_where (p : N -> bool) (s : str) : option nat :=
  match s with
  | [] => None
  | x :: s' => if p x then Some O
               else match index_where p s' with
                    | Some k => Some (S k)
                    | None => None
                    end
  end.

Definition splitnetloc (url : str) : str * str :=
  let rest := skipn 2 url in
  match index_where (fun c => (c =? 47) || (c =? 63) || (c =? 35)) rest with
  | Some d => (firstn d rest, skipn d rest)
  | None => (rest, [])
  end.

Definition uses_params : list str :=
  map lit [EmptyString; "ftp"; "hdl"; "prospero"; "http"; "imap"; "https"; "shttp";
           "rtsp"; "rtspu"; "sip"; "sips"; "mms"; "sftp"; "tel"]%string.

(** Index of the last occurrence of [c]. *)
Definition rindex_of (c : N) (s : str) : option nat :=
  match index_of c (rev s) with
  | Some k => Some (length s - 1 - k)%nat
  | None => None
  end.

Definition splitparams (url : str) : str * str :=
  match rindex_of 47 url with
  | Some r =>
      match index_of 59 (skipn r url) with
      | Some k => (firstn (r + k) url, skipn (S (r + k)) url)
      | None => (url, [])
      end
  | None => cut 59 url
  end.

(** [urlparse(url)] for a string; [None] is [ValueError].  Of the checks
    on the network location only the pairing of brackets is kept: the
    others (the form of a bracketed host, the normal form of a non-ASCII
    host) can only raise for a location that has a bracket or a non-ASCII
    character. *)
Definition urlparse (url : str) : option ParseResult :=
  let url := lstrip (fun c => c <=? 32) url in
  let url := filter (fun c => negb ((c =? 9) || (c =? 13) || (c =? 10))) url in
  let '(scheme, url) :=
    match index_of 58 url, url with
    | Some (S i), c0 :: _ =>
        if ascii_letter c0 && forallb scheme_char (firstn (S i) url)
        then (map lower (firstn (S i) url), skipn (S (S i)) url)
        else ([], url)
    | _, _ => ([], url)
    end in
  let '(netloc, url) :=
    if startswith url (lit "//") then splitnetloc url else ([], url) in
  if xorb (has_char 91 netloc) (has_char 93 netloc) then None
  else
    let '(url, fragment) := if has_char 35 url then cut 35 url else (url, []) in
    let '(url, query) := if has_char 63 url then cut 63 url else (url, []) in
    let '(url, params) :=
      if existsb (str_eqb scheme) uses_params && has_char 59 url
      then splitparams url else (url, []) in
    Some {| scheme := scheme; netloc := netloc; path := url;
            params := params; query := query; fragment := fragment |}.

(** ** [int(text)] *)

Section WithUnicode.
Variable U : unicode_db.

(** Spaces and decimal digits beyond ASCII become their ASCII form. *)
Fixpoint to_ascii_number (s : str) : option str :=
  match s with
  | [] => Some []
  | c :: s' =>
      if c <? 127 then option_map (cons c) (to_ascii_number s')
      else if c =? 127 then None
      else if u_isspace U c then option_map (cons 32) (to_ascii_number s')
      else match u_decimal U c with
           | Some d => option_map (cons (48 + d)) (to_ascii_number s')
           | None => None
           end
  end.

(** Digits, single underscores only between digits. *)
Fixpoint digits_tail (after_digit : bool) (s : str) : bool :=
  match s with
  | [] => after_digit
  | c :: s' =>
      if ascii_digit c then digits_tail true s'
      else if c =? 95 then after_digit && digits_tail false s'
      else false
  end.

(** [sys.get_int_max_str_digits()]. *)
Definition int_max_str_digits : nat := 4300.

(** [int(s)] does not raise [ValueError]. *)
Definition int_ok (s : str) : bool :=
  match to_ascii_number s with
  | None => false
  | Some a =>
      let a := strip (fun c => ((9 <=? c) && (c <=? 13)) || (c =? 32)) a in
      let a := match a with
               | c :: r => if (c =? 43) || (c =? 45) then r else a
               | [] => a
               end in
      digits_tail false a
      && (length (filter ascii_digit a) <=? int_max_str_digits)%nat
  end.

(** ** [CodeReviewAgent._validate_pr_url] *)

(** Validate PR URL format. *)
Definition validate_pr_url_str (pr_url : str) : bool :=
  match pr_url with
  | [] => false
  | _ =>
      match urlparse pr_url with
      | None => false
      | Some parsed =>
          if negb (str_eqb (netloc parsed) (lit "github.com")) then false
          else
            (* Check if path matches /owner/repo/pull/number pattern *)
            let path_parts := split 47 (strip (N.eqb 47) (path parsed)) in
            match path_parts with
            | [_; _; p2; p3] =>
                if negb (str_eqb p2 (lit "pull")) then false
                else int_ok p3   (* Check if PR number is valid *)
            | _ => false
            end
      end
  end.

(** An argument that is not a string makes [urlparse] raise, which the
    validator catches. *)
Definition _validate_pr_url (pr_url : json) : bool :=
  if negb (truthy pr_url) then false
  else match pr_url with
       | JStr s => validate_pr_url_str s
       | _ => false
       end.

(** ** Run results *)

Record run_result := {
  success : bool;
  error : option str;
  clusters : option json;
  reviews : option (list json);
  summary : option json
}.

(** Create standardized error response. *)
Definition _create_error_response (error_message : str) : run_result :=
  {| success := false;
     error := Some error_message;
     clusters := None;
     reviews := None;
     summary := None |}.

(** ** Exceptions *)

Inductive exn :=
| Error (msg : str)                         (* raised by a stage or by the
                                               interpreter; [str(e)] is [msg] *)
| ValidationError (content : run_result).   (* raised by [Event(content=content)] *)

(** ** The workflow *)

(** One invocation of the language-model collaborator, with the data the
    workflow writes into its instruction. *)
Inductive stage :=
| FetchCluster (pr_url : json)
| ReviewCluster (i : nat) (cluster : json)
| FilterReviews (all_reviews : list json)
| PostComment (pr_url : json) (filtered_review : json).

Definition output_key (s : stage) : str :=
  match s with
  | FetchCluster _ => lit "base_clusters"
  | ReviewCluster i _ => lit "review_" ++ of_nat i
  | FilterReviews _ => lit "reviewed_review"
  | PostComment _ _ => lit "output"
  end.

Section Workflow.
(** Events of the agent framework. *)
Variable ev : Type.

(** How [agent.run_async(ctx)] ends: the events it yielded and the session
    state it left, and the message of the exception if it raised. *)
Inductive outcome :=
| Completed (evs : list ev) (st : state)
| Raises (evs : list ev) (st : state) (msg : str).

(** The collaborator: any behaviour at all. *)
Variable run_async : stage -> state -> outcome.
(** [json.loads]; [None] is [JSONDecodeError]. *)
Variable json_loads : str -> option json.
(** [str(e)] for the error the framework raises when it refuses the
    fields of an event; the wording is the library's. *)
Variable validation_error_text : run_result -> str.

Definition str_of_exn (e : exn) : str :=
  match e with
  | Error msg => msg
  | ValidationError content => validation_error_text content
  end.

Inductive event :=
| Forwarded (e : ev)
| Emitted (content : run_result).    (* an event of the workflow's own *)

(** What a run has done so far. *)
Record ctx := {
  events : list event;               (* yielded, oldest first *)
  calls : list (stage * outcome);    (* collaborator invocations *)
  built : list run_result;           (* results handed to [Event], oldest first *)
  session : state
}.

Inductive flow (A : Type) :=
| Next (a : A) (c : ctx)
| Return (c : ctx)                   (* [return] *)
| Raise (e : exn) (c : ctx).         (* an exception on its way up *)
Arguments Next {A} a c.
Arguments Return {A} c.
Arguments Raise {A} e c.

Definition M (A : Type) := ctx -> flow A.

Definition ret {A} (a : A) : M A := fun c => Next a c.

Definition bind {A B} (m : M A) (k : A -> M B) : M B :=
  fun c => match m c with
           | Next a c' => k a c'
           | Return c' => Return c'
           | Raise e c' => Raise e c'
           end.

Notation "x <- m ;; k" := (bind m (fun x => k))
  (at level 61, m at next level, right associativity).
Notation "m ;;; k" := (bind m (fun _ => k))
  (at level 61, right associativity).

Definition raise {A} (msg : str) : M A := fun c => Raise (Error msg) c.

(** [return]. *)
Definition finish {A} : M A := fun c => Return c.

(** [yield Event(content=content)].  [Event] is the event model of the
    agent framework: its field [author] is required, and [content] is to
    be a [types.Content] (the workflow that resolves an issue gives both).
    Here the call gives a dictionary and no author, so building the event
    raises [pydantic.ValidationError] and nothing is yielded. *)
Definition emit (content : run_result) : M unit :=
  fun c => Raise (ValidationError content)
                 {| events := events c; calls := calls c;
                    built := built c ++ [content]; session := session c |}.

(** [yield Event(content=self._create_error_response(msg)); return]. *)
Definition fail {A} (error_message : str) : M A :=
  emit (_create_error_response error_message) ;;; finish.

Definition get (key : str) : M json := fun c => Next (state_get (session c) key) c.

(** [async for event in agent.run_async(ctx): yield event]. *)
Definition run_stage (s : stage) : M unit :=
  fun c =>
    let o := run_async s (session c) in
    match o with
    | Completed evs st' =>
        Next tt {| events := events c ++ map Forwarded evs;
                   calls := calls c ++ [(s, o)];
                   built := built c; session := st' |}
    | Raises evs st' msg =>
        Raise (Error msg)
              {| events := events c ++ map Forwarded evs;
                 calls := calls c ++ [(s, o)];
                 built := built c; session := st' |}
    end.

(** [json.loads(x) if isinstance(x, str) else x]. *)
Definition decode (v : json) : option json :=
  match v with
  | JStr s => json_loads s
  | _ => Some v
  end.

(** ["clusters" in clusters_data]; [None] is [TypeError]. *)
Definition has_clusters (clusters_data : json) : option bool :=
  match clusters_data with
  | JDict d => Some (match dict_get d (lit "clusters") with Some _ => true | None => false end)
  | JList l => Some (existsb (fun v => match v with
                                       | JStr s => str_eqb s (lit "clusters")
                                       | _ => false
                                       end) l)
  | JStr s => Some (has_sub (lit "clusters") s)
  | _ => None
  end.

(** [clusters_data["clusters"]]; [None] is [TypeError]. *)
Definition clusters_of (clusters_data : json) : option json :=
  match clusters_data with
  | JDict d => dict_get d (lit "clusters")
  | _ => None
  end.

(** Parse clusters from the response: the decoded data and its clusters,
    or "No clusters found". *)
Definition parse_clusters (base_clusters : json) : option (json * json) :=
  match decode base_clusters with
  | None => None
  | Some clusters_data =>
      match has_clusters clusters_data with
      | None => None
      | Some false => None
      | Some true =>
          match clusters_of clusters_data with
          | Some clusters => Some (clusters_data, clusters)
          | None => None
          end
      end
  end.

(** The items [enumerate(clusters)] goes through: the elements of a
    list, the keys of a dictionary, the characters of a string. *)
Definition items_of (v : json) : option (list json) :=
  match v with
  | JList l => Some l
  | JDict d => Some (map (fun kv => JStr (fst kv)) d)
  | JStr s => Some (map (fun c => JStr [c]) s)
  | _ => None
  end.

Definition iterate (v : json) : M (list json) :=
  match items_of v with
  | Some items => ret items
  | None => raise (lit "'" ++ type_name v ++ lit "' object is not iterable")
  end.

(** Building the review agent reads [cluster.get(...)]. *)
Definition make_review_agent (i : nat) (cluster : json) : M stage :=
  match cluster with
  | JDict _ => ret (ReviewCluster i cluster)
  | _ => raise (lit "'" ++ type_name cluster ++ lit "' object has no attribute 'get'")
  end.

(** Step 2: Review each diff cluster. *)
Fixpoint review_loop (i : nat) (clusters : list json) (all_reviews : list json)
  : M (list json) :=
  match clusters with
  | [] => ret all_reviews
  | cluster :: rest =>
      review_agent <- make_review_agent i cluster ;;
      run_stage review_agent ;;;
      (* Collect the review *)
      review_result <- get (lit "review_" ++ of_nat i) ;;
      if truthy review_result then
        match decode review_result with
        | Some review_data => review_loop (S i) rest (all_reviews ++ [review_data])
        | None => fail (lit "Review failed for cluster " ++ of_nat i)
        end
      else fail (lit "Review failed for cluster " ++ of_nat i)
  end.

Definition workflow : M unit :=
  (* Get PR URL from request *)
  pr_url <- get (lit "pr_url") ;;
  if negb (truthy pr_url) then fail (lit "No pr_url provided")
  else
  (* Validate PR URL *)
  if negb (_validate_pr_url pr_url) then fail (lit "Invalid pr_url format")
  else
  (* Step 1: Fetch and cluster PR diffs *)
  run_stage (FetchCluster pr_url) ;;;
  base_clusters <- get (lit "base_clusters") ;;
  if negb (truthy base_clusters) then fail (lit "No base_clusters found")
  else
  match parse_clusters base_clusters with
  | None => fail (lit "No clusters found")
  | Some (clusters_data, clusters) =>
      items <- iterate clusters ;;
      all_reviews <- review_loop 0 items [] ;;
      (* Step 3: Filter reviews *)
      run_stage (FilterReviews all_reviews) ;;;
      filtered_review <- get (lit "reviewed_review") ;;
      if negb (truthy filtered_review) then fail (lit "Review filtering failed")
      else
      (* Step 4: Post summary comment *)
      run_stage (PostComment pr_url filtered_review) ;;;
      post_output <- get (lit "output") ;;
      if negb (truthy post_output) then fail (lit "Comment posting failed")
      else
      (* Create success response *)
      emit {| success := true;
              clusters := Some clusters_data;
              reviews := Some all_reviews;
              summary := Some filtered_review;
              error := None |}
  end.

(** How the generator ends: it is exhausted, or an exception leaves it. *)
Inductive ending :=
| Finished (c : ctx)
| Raised (e : exn) (c : ctx).

Definition ended (r : ending) : ctx :=
  match r with
  | Finished c => c
  | Raised _ c => c
  end.

(** [_run_async_impl]: the body inside [try], and the handler of
    [except Exception], whose own [Event] is built outside any [try]. *)
Definition _run_async_impl (st : state) : ending :=
  match workflow {| events := []; calls := []; built := []; session := st |} with
  | Next _ c => Finished c
  | Return c => Finished c
  | Raise e c =>
      match emit (_create_error_response (lit "Unexpected error: " ++ str_of_exn e)) c with
      | Next _ c' => Finished c'
      | Return c' => Finished c'
      | Raise e' c' => Raised e' c'
      end
  end.

End Workflow.
End WithUnicode.

Arguments Completed {ev} evs st.
Arguments Raises {ev} evs st msg.
Arguments Forwarded {ev} e.
Arguments Emitted {ev} content.
Arguments Build_ctx {ev} events calls built session.
Arguments events {ev} c.
Arguments calls {ev} c.
Arguments built {ev} c.
Arguments session {ev} c.
Arguments Next {ev A} a c.
Arguments Return {ev A} c.
Arguments Raise {ev A} e c.
Arguments ret {ev A} a _.
Arguments bind {ev A B} m k _.
Arguments raise {ev A} msg _.
Arguments finish {ev A} _.
Arguments emit {ev} content _.
Arguments fail {ev A} error_message _.
Arguments get {ev} key _.
Arguments run_stage {ev} run_async s _.
Arguments iterate {ev} v _.
Arguments make_review_agent {ev} i cluster _.
Arguments review_loop {ev} run_async json_loads i clusters all_reviews _.
Arguments workflow U {ev} run_async json_loads _.
Arguments Finished {ev} c.
Arguments Raised {ev} e c.
Arguments ended {ev} r.
Arguments _run_async_impl U {ev} run_async json_loads validation_error_text st.

End Agent.

(* ================================================================== *)
(** * Concrete hosts used in the examples *)
(* ================================================================== *)

(** A character table with nothing beyond ASCII. *)
Definition ascii_only : unicode_db :=
  {| u_isspace := fun _ => false;
     u_decimal := fun _ => None;
     u_isprintable := fun _ => false;
     u_identifier := fun _ => false |}.

Module Sample.
Import GrepTool.

(** [/w] holds a repository checkout that so far has only artifacts:
    version-control metadata, two build caches and an image. *)
Definition artifacts_only : node :=
  Dir [ (lit "w",
         Dir [ (lit ".git", Dir [ (lit "HEAD", File (Text (lit "ref: refs/heads/main"))) ]);
               (lit "__pycache__", Dir [ (lit "m.pyc", File (ReadError (lit "binary"))) ]);
               (lit "node_modules", Dir [ (lit "index.js", File (Text (lit "exports = {}"))) ]);
               (lit "logo.png", File (ReadError (lit "binary"))) ]);
        (lit "etc", Dir [ (lit "passwd", File (Text (lit "root:x:0:0"))) ]) ].

Definition host_w : host := {| cwd := [lit "w"]; fsroot := artifacts_only |}.
Definition tools_w : GrepTools := {| working_dir := [lit "w"] |}.

(** [/srv/app] holds two sources and a package. *)
Definition small_project : node :=
  Dir [ (lit "srv",
         Dir [ (lit "app",
                Dir [ (lit "pkg", Dir [ (lit "mod1.py", File (Text (lit "x = 1"))) ]);
                      (lit "main.py", File (Text (lit "import pkg")));
                      (lit "notes", File (Text (lit "todo"))) ]) ]) ].

Definition host_app : host := {| cwd := [lit "srv"; lit "app"]; fsroot := small_project |}.
Definition tools_app : GrepTools := {| working_dir := [lit "srv"; lit "app"] |}.

End Sample.

Module BashSample.
Import BashTool.

(** The program [gh] printing eleven characters, cut at five. *)
Definition gh_prints (_ : str) (_ : list str) : child :=
  Exits 0 (lit "hello world") [].

(** The program fails with status 1 and a message. *)
Definition gh_fails (_ : str) (_ : list str) : child :=
  Exits 1 [] (lit "no such pull request").

(** The program fails and writes a byte that is not UTF-8. *)
Definition gh_fails_binary (_ : str) (_ : list str) : child :=
  Exits 1 [] [255].

End BashSample.

(* ================================================================== *)
(** * Vocabulary of the properties *)
(* ================================================================== *)

Module GrepSpec.
Import GrepTool.

(** The calls made, if any, only resolve [path]. *)
Definition only_resolves (path : str) (ops : list fs_op) : Prop :=
  forall op, In op ops -> op = OpResolve path.

(** A text that reports an error. *)
Definition is_error_text (text : str) : Prop :=
  exists rest, text = lit "Error: " ++ rest.

(** A pattern has a wildcard of the shell style: [*], [?] or [[]. *)
Definition has_wildcard (unix_pattern : str) : bool :=
  has_char 42 unix_pattern || has_char 63 unix_pattern || has_char 91 unix_pattern.

Definition literal_char (c : N) : bool :=
  negb ((c =? 42) || (c =? 63) || (c =? 91)).

(** [entry_at top p child]: [child] is the entry of [top] reached by the
    names [p]. *)
Inductive entry_at : node -> list str -> node -> Prop :=
| entry_here es name child :
    In (name, child) es -> entry_at (Dir es) [name] child
| entry_below es name d p child :
    In (name, d) es -> entry_at d p child -> entry_at (Dir es) (name :: p) child.

(** The directory holding the entry is at most [depth] levels down. *)
Definition within_depth (depth : Z) (p : list str) : Prop :=
  (Z.of_nat (length p) - 1 <= depth)%Z.

(** Neither the entry nor a directory on the way to it is deny-listed. *)
Definition not_deny_listed (resolved_path : path) (p : list str) : Prop :=
  forall k, (1 <= k <= length p)%nat ->
    should_skip_path (resolved_path ++ firstn k p) = false.

(** The patterns of the deny list that name a directory. *)
Definition directory_patterns : list str :=
  map lit [".git/*"; "node_modules/*"; ".next/*"; ".turbo/*"; "__pycache__/*"]%string.

(** The name of a file matches a pattern of the deny list. *)
Definition deny_listed_name (name : str) : bool :=
  existsb (fnmatch name) BLACKLIST_PATTERNS.

(** The literal characters a compiled pattern starts with. *)
Fixpoint literal_prefix (ts : list tok) : str :=
  match ts with
  | TLit c :: ts' => c :: literal_prefix ts'
  | _ => []
  end.

End GrepSpec.

Module AgentSpec.
Import Agent.

Section Shape.
Variable U : unicode_db.

(** The URL parses, its network location is [github.com], and its path,
    slashes at both ends aside, is [owner/repo/pull/number] with a number
    that [int] accepts.  Nothing is asked of the scheme. *)
Definition pr_url_shape (pr_url : str) : Prop :=
  exists parsed owner repo number,
    urlparse pr_url = Some parsed
    /\ netloc parsed = lit "github.com"
    /\ strip (N.eqb 47) (path parsed) = owner ++ lit "/" ++ repo ++ lit "/pull/" ++ number
    /\ ~ In 47 owner /\ ~ In 47 repo /\ ~ In 47 number
    /\ int_ok U number = true.

End Shape.

Section Runs.
Variable ev : Type.
Variable json_loads : str -> option json.

(** The shape of a result: a failure holds its message and nothing else;
    a success holds no message, the decoded cluster data with its
    [clusters] entry, one review for each cluster, and a summary that is
    not empty. *)
Definition result_shape (r : run_result) : Prop :=
  (success r = false ->
   clusters r = None /\ reviews r = None /\ summary r = None
   /\ exists msg, error r = Some msg)
  /\ (success r = true ->
      error r = None
      /\ (exists cd cl items revs,
            clusters r = Some cd /\ clusters_of cd = Some cl
            /\ items_of cl = Some items
            /\ reviews r = Some revs /\ length revs = length items)
      /\ (exists sm, summary r = Some sm /\ truthy sm = true)).

(** After the review of cluster [i] the key [review_i] is absent, or it
    holds a text that does not decode. *)
Definition review_failed (st' : state) (i : nat) : Prop :=
  dict_get st' (lit "review_" ++ of_nat i) = None
  \/ exists s, dict_get st' (lit "review_" ++ of_nat i) = Some (JStr s)
               /\ json_loads s = None.

(** A recorded invocation: the review of cluster [i] completed and left
    the state so. *)
Definition failing_call (e : stage * outcome ev) (i : nat) : Prop :=
  exists cluster evs st',
    e = (ReviewCluster i cluster, Completed evs st') /\ review_failed st' i.

Definition ctx_of {A} (f : flow ev A) : ctx ev :=
  match f with
  | Next _ c => c
  | Return c => c
  | Raise _ c => c
  end.

(** The failure for cluster [i], field by field. *)
Definition review_failure (i : nat) : run_result :=
  {| success := false;
     error := Some (lit "Review failed for cluster " ++ of_nat i);
     clusters := None;
     reviews := None;
     summary := None |}.

(** The failure the handler of [except Exception] builds, field by
    field. *)
Definition unexpected (what : str) : run_result :=
  {| success := false;
     error := Some (lit "Unexpected error: " ++ what);
     clusters := None;
     reviews := None;
     summary := None |}.

(** [f] stops where the failure for cluster [i] is handed to [Event]. *)
Definition reports_failure (i : nat) {A} (f : flow ev A) : Prop :=
  exists c, f = Raise (ValidationError (review_failure i)) c.

(** The invocations [f] added to those of [c0] hold a failing review only
    as the last one, and then [f] stops with the failure for it. *)
Definition aborts_on_failure (c0 : ctx ev) {A} (f : flow ev A) : Prop :=
  exists new,
    calls (ctx_of f) = calls c0 ++ new
    /\ forall pre e post i,
         new = pre ++ e :: post -> failing_call e i ->
         post = [] /\ reports_failure i f.

(** Every invocation [f] added to those of [c0] satisfies [P]. *)
Definition calls_satisfy (P : stage * outcome ev -> Prop) (c0 : ctx ev)
    {A} (f : flow ev A) : Prop :=
  exists new, calls (ctx_of f) = calls c0 ++ new /\ Forall P new.

(** An invocation that reviews a cluster carries the index the cluster
    has in [items]. *)
Definition indexed_from (i0 : nat) (items : list json) (e : stage * outcome ev) : Prop :=
  forall i cluster, fst e = ReviewCluster i cluster ->
    exists k, i = (i0 + k)%nat /\ nth_error items k = Some cluster.

End Runs.

Arguments calls_satisfy {ev} P c0 {A} f.
Arguments indexed_from {ev} i0 items e.
Arguments failing_call {ev} json_loads e i.
Arguments ctx_of {ev A} f.
Arguments reports_failure {ev} i {A} f.
Arguments aborts_on_failure {ev} json_loads c0 {A} f.

(** The text of the library's error in the examples. *)
Definition pydantic_says (content : run_result) : str :=
  lit "validation errors for Event".

(** *** Collaborators and states of the examples *)

(** A collaborator that does nothing. *)
Definition idle (s : stage) (st : state) : outcome unit := Completed [] st.

Definition no_json (s : str) : option json := None.

Definition pr_42 : json := JStr (lit "https://github.com/acme/widgets/pull/42").

Definition two_clusters : json :=
  JDict [(lit "clusters",
          JList [JDict [(lit "name", JStr (lit "core"))];
                 JDict [(lit "name", JStr (lit "docs"))]])].

Definition review_of (name : string) : json :=
  JDict [(lit "cluster_name", JStr (lit name));
         (lit "reviews", JList [JDict [(lit "severity", JStr (lit "high"))]])].

(** Each stage yields one event and writes its key; the second review
    writes text that is not JSON when [garbled] is set. *)
Definition scripted (garbled : bool) (s : stage) (st : state) : outcome nat :=
  match s with
  | FetchCluster _ => Completed [1%nat] ((output_key s, two_clusters) :: st)
  | ReviewCluster 0 _ => Completed [2%nat] ((output_key s, review_of "core") :: st)
  | ReviewCluster _ _ =>
      Completed [3%nat]
        ((output_key s, if garbled then JStr (lit "<<not json>>") else review_of "docs")
           :: st)
  | FilterReviews _ => Completed [4%nat] ((output_key s, JStr (lit "## Code Review Summary")) :: st)
  | PostComment _ _ => Completed [5%nat] ((output_key s, JStr (lit "gh pr comment 42")) :: st)
  end.

Definition st0 : state := [(lit "pr_url", pr_42)].
Definition st1 : state := (lit "base_clusters", two_clusters) :: st0.
Definition st2 : state := (lit "review_0", review_of "core") :: st1.
Definition st3 : state := (lit "review_1", JStr (lit "<<not json>>")) :: st2.

End AgentSpec.

(* ================================================================== *)
(** * [GrepTools.__init__] *)
(* ================================================================== *)

Module GrepToolsInit.
Import GrepTool.

(** Without a working directory the tools are confined to the current
    directory of the process. *)
Definition __init__ (H : host) (working_dir : option path) : GrepTools :=
  {| working_dir := match working_dir with
                    | None => cwd H
                    | Some d => d
                    end |}.

End GrepToolsInit.

(* ================================================================== *)
(** * Vocabulary of the further properties *)
(* ================================================================== *)

Module MoreSpec.
Import GrepTool.

(** A file-system call stays where the tool may go: it resolves the path
    the caller gave, or it looks at a path that is the working root or
    lies below it. *)
Definition op_within (path : str) (self : GrepTools) (op : fs_op) : Prop :=
  match op with
  | OpResolve s => s = path
  | OpExists p | OpIsFile p | OpWalk p | OpRglob p | OpIterdir p | OpOpen p =>
      is_prefix (working_dir self) p = true
  end.

(** [s.endswith(suffix)]. *)
Definition endswith (s suffix : str) : bool := startswith (rev s) (rev suffix).

(** What follows the [*] of a pattern that starts with one. *)
Definition suffix_of (pat : str) : list str :=
  match pat with
  | c :: suffix => if c =? 42 then [suffix] else []
  | [] => []
  end.

(** The endings the deny list asks for. *)
Definition skipped_suffixes : list str := flat_map suffix_of BLACKLIST_PATTERNS.

(** A pattern of the kind the deny list holds: a [*] before literal
    characters without a slash, or one that starts with a literal
    character other than the slash. *)
Definition plain_pattern (pat : str) : bool :=
  match pat with
  | [] => false
  | c :: rest =>
      if c =? 42 then forallb GrepSpec.literal_char rest && negb (has_char 47 rest)
      else GrepSpec.literal_char c && negb (c =? 47)
  end.


End MoreSpec.

(** ** Pull-request URLs as they are written *)

Module UrlSpec.
Import Agent.

(** A character of an owner or repository name: a letter, a digit, a
    hyphen, an underscore or a dot. *)
Definition name_char (c : N) : bool :=
  ascii_letter c || ascii_digit c || (c =? 45) || (c =? 95) || (c =? 46).

Definition plain_name (s : str) : bool :=
  match s with
  | [] => false
  | _ => forallb name_char s
  end.

(** A number in decimal digits. *)
Definition decimal (s : str) : bool :=
  match s with
  | [] => false
  | _ => forallb ascii_digit s
  end.

(** [https://github.com/<owner>/<repo>/pull/<number>]. *)
Definition pr_url_of (owner repo number : str) : str :=
  lit "https://github.com/" ++ owner ++ lit "/" ++ repo ++ lit "/pull/" ++ number.

End UrlSpec.

(** ** Vocabulary of the further properties of a run *)

Module RunSpec.
Import Agent.

Section Runs.
Variable ev : Type.
Variable run_async : stage -> state -> outcome ev.
Variable json_loads : str -> option json.

(** The events an invocation yielded, and the session state it left. *)
Definition yielded (o : outcome ev) : list ev :=
  match o with
  | Completed evs _ => evs
  | Raises evs _ _ => evs
  end.

Definition state_after (o : outcome ev) : state :=
  match o with
  | Completed _ st => st
  | Raises _ st _ => st
  end.

Definition completed (o : outcome ev) : bool :=
  match o with
  | Completed _ _ => true
  | Raises _ _ _ => false
  end.

(** What the invocations yielded, each event forwarded, in order. *)
Definition forwarded (cs : list (stage * outcome ev)) : list (event ev) :=
  flat_map (fun call => map Forwarded (yielded (snd call))) cs.

(** Each invocation is what the collaborator does for its stage on the
    state the invocation before it left, the first one on [st]. *)
Fixpoint chained (st : state) (cs : list (stage * outcome ev)) : Prop :=
  match cs with
  | [] => True
  | (s, o) :: cs' => o = run_async s st /\ chained (state_after o) cs'
  end.

(** The state the last invocation left; [st] when there was none. *)
Definition final_state (st : state) (cs : list (stage * outcome ev)) : state :=
  fold_left (fun _ call => state_after (snd call)) cs st.

(** No invocation raised. *)
Definition quiet (cs : list (stage * outcome ev)) : Prop :=
  Forall (fun call => completed (snd call) = true) cs.

(** The last invocation raised with [msg], none before it raised. *)
Definition raised_last (msg : str) (cs : list (stage * outcome ev)) : Prop :=
  exists pre s evs st', cs = pre ++ [(s, Raises evs st' msg)] /\ quiet pre.

(** The run goes on: the invocations so far are chained from [st], the
    session holds the state the last one left, the events are those they
    yielded, none raised, and no result has been built. *)
Definition going (st : state) (c : ctx ev) : Prop :=
  chained st (calls c)
  /\ session c = final_state st (calls c)
  /\ events c = forwarded (calls c)
  /\ quiet (calls c)
  /\ built c = [].

(** What holds of a computation according to how it ends. *)
Definition post {A} (N : A -> ctx ev -> Prop) (R : ctx ev -> Prop)
    (E : exn -> ctx ev -> Prop) (f : flow ev A) : Prop :=
  match f with
  | Next a c => N a c
  | Return c => R c
  | Raise e c => E e c
  end.

(** The review stages for [items], numbered from [i]. *)
Fixpoint review_stages (i : nat) (items : list json) : list stage :=
  match items with
  | [] => []
  | cluster :: items' => ReviewCluster i cluster :: review_stages (S i) items'
  end.

(** [revs] are the reviews the invocations [os] left, the one for
    cluster [i + k] under the key [review_(i+k)], each one not empty and
    decoded when it is a text. *)
Fixpoint collected (i : nat) (os : list (outcome ev)) (revs : list json) : Prop :=
  match os, revs with
  | [], [] => True
  | o :: os', review_data :: revs' =>
      truthy (state_get (state_after o) (lit "review_" ++ of_nat i)) = true
      /\ decode json_loads (state_get (state_after o) (lit "review_" ++ of_nat i))
         = Some review_data
      /\ collected (S i) os' revs'
  | _, _ => False
  end.

(** The stage a failure message blames: the invocations made end with
    it, or there are none. *)
Definition blames (msg : str) (cs : list (stage * outcome ev)) : Prop :=
  ((msg = lit "No pr_url provided" \/ msg = lit "Invalid pr_url format") /\ cs = [])
  \/ ((msg = lit "No base_clusters found" \/ msg = lit "No clusters found")
      /\ exists pr_url o, cs = [(FetchCluster pr_url, o)])
  \/ (exists i cluster o pre,
        msg = lit "Review failed for cluster " ++ of_nat i
        /\ cs = pre ++ [(ReviewCluster i cluster, o)])
  \/ (msg = lit "Review filtering failed"
      /\ exists all_reviews o pre, cs = pre ++ [(FilterReviews all_reviews, o)])
  \/ (msg = lit "Comment posting failed"
      /\ exists pr_url filtered_review o pre,
           cs = pre ++ [(PostComment pr_url filtered_review, o)]).

(** The invocations [cs] are a whole pipeline for [pr_url], and [r] is
    the success it delivers: the clusters are fetched, each is reviewed in
    turn, the reviews are filtered and the comment is posted, no
    invocation raising; [r] holds the cluster data decoded from
    [base_clusters], the reviews collected, and the summary left under
    [reviewed_review]. *)
Definition pipeline (pr_url : json) (r : run_result)
    (cs : list (stage * outcome ev)) : Prop :=
  exists o1 cd cl items os revs o3 sm o4,
    cs = (FetchCluster pr_url, o1)
         :: combine (review_stages 0 items) os
         ++ [(FilterReviews revs, o3); (PostComment pr_url sm, o4)]
    /\ length os = length items
    /\ forallb completed (o1 :: os ++ [o3; o4]) = true
    /\ truthy (state_get (state_after o1) (lit "base_clusters")) = true
    /\ parse_clusters json_loads (state_get (state_after o1) (lit "base_clusters"))
       = Some (cd, cl)
    /\ items_of cl = Some items
    /\ collected 0 os revs
    /\ sm = state_get (state_after o3) (lit "reviewed_review")
    /\ truthy sm = true
    /\ truthy (state_get (state_after o4) (lit "output")) = true
    /\ r = {| success := true; clusters := Some cd; reviews := Some revs;
              summary := Some sm; error := None |}.

(** What a result handed to [Event] tells of the invocations made: a
    failure blames the last one, a success comes from a whole pipeline. *)
Definition told (pr_url : json) (r : run_result)
    (cs : list (stage * outcome ev)) : Prop :=
  (exists msg, r = _create_error_response msg /\ blames msg cs)
  \/ pipeline pr_url r cs.

(** The body of the workflow has stopped with the exception [e]: an
    error of a stage or of the interpreter, before any result was built,
    or the refusal of the one result built. *)
Definition stops (st : state) (e : exn) (c : ctx ev) : Prop :=
  chained st (calls c)
  /\ session c = final_state st (calls c)
  /\ events c = forwarded (calls c)
  /\ match e with
     | Error msg => built c = [] /\ (quiet (calls c) \/ raised_last msg (calls c))
     | ValidationError r =>
         built c = [r] /\ quiet (calls c)
         /\ told (state_get st (lit "pr_url")) r (calls c)
     end.

End Runs.

Arguments yielded {ev} o.
Arguments state_after {ev} o.
Arguments completed {ev} o.
Arguments forwarded {ev} cs.
Arguments chained {ev} run_async st cs.
Arguments final_state {ev} st cs.
Arguments quiet {ev} cs.
Arguments raised_last {ev} msg cs.
Arguments post {ev A} N R E f.
Arguments going {ev} run_async st c.
Arguments collected {ev} json_loads i os revs.
Arguments blames {ev} msg cs.
Arguments pipeline {ev} json_loads pr_url r cs.
Arguments told {ev} json_loads pr_url r cs.
Arguments stops {ev} run_async json_loads st e c.


End RunSpec.

(* ================================================================== *)
(** * [src/resolve_issue/agent.py] *)
(* ================================================================== *)

Module ResolveIssue.
Import Agent.

(** The workflow builds four agents and runs them one after the other.
    Building an agent (with its tools, which come from [patched_adk],
    a package that is not part of the sources) is taken to succeed; what
    an agent does when run is a parameter.  Values of the session state
    are as in the review workflow. *)

(** The four agents the workflow builds, in the order it runs them. *)
Inductive stage :=
| GetIssueDetails
| AnalyzeIssue
| ImplementChanges
| CreatePr.

Definition name (s : stage) : str :=
  match s with
  | GetIssueDetails => lit "get_issue_details"
  | AnalyzeIssue => lit "analyze_issue"
  | ImplementChanges => lit "implement_changes"
  | CreatePr => lit "create_pr"
  end.

(** [output_key]: the agent that implements the changes has none. *)
Definition output_key (s : stage) : option str :=
  match s with
  | GetIssueDetails => Some (lit "issue_details")
  | AnalyzeIssue => Some (lit "analysis")
  | ImplementChanges => None
  | CreatePr => Some (lit "pr_output")
  end.

(** [key in ctx.session.state]. *)
Definition has_key (st : state) (key : str) : bool :=
  match dict_get st key with
  | Some _ => true
  | None => false
  end.

Section Workflow.
Variable ev : Type.
(** The collaborator: what [agent.run_async(ctx)] does on a session
    state. *)
Variable run_async : stage -> state -> outcome ev.
(** [types.Part(text=v)] for a value taken from the state: the message
    of the error when the library refuses [v] as a text. *)
Variable part_refuses : json -> option str.

Inductive event :=
| Forwarded (e : ev)
| Said (role : str) (text : json).    (* an event of the workflow's own *)

Record ctx := {
  events : list event;               (* yielded, oldest first *)
  calls : list (stage * outcome ev); (* collaborator invocations *)
  branch : option str;               (* [ctx.branch] *)
  session : state
}.

(** The generator is exhausted, or an exception leaves it. *)
Inductive ending :=
| Finished (c : ctx)
| Raised (msg : str) (c : ctx).

Definition ctx_of (e : ending) : ctx :=
  match e with
  | Finished c => c
  | Raised _ c => c
  end.

(** [yield Event(content=types.Content(role=role, parts=[types.Part(text=text)]))]
    for a text written in the source. *)
Definition say (role text : str) (c : ctx) : ctx :=
  {| events := events c ++ [Said role (JStr text)];
     calls := calls c; branch := branch c; session := session c |}.

(** [ctx.branch = agent.name] and
    [async for event in agent.run_async(ctx): yield event], then the rest
    of the body. *)
Definition invoke (s : stage) (c : ctx) (rest : ctx -> ending) : ending :=
  let o := run_async s (session c) in
  match o with
  | Completed evs st' =>
      rest {| events := events c ++ map Forwarded evs;
              calls := calls c ++ [(s, o)];
              branch := Some (name s); session := st' |}
  | Raises evs st' msg =>
      Raised msg {| events := events c ++ map Forwarded evs;
                    calls := calls c ++ [(s, o)];
                    branch := Some (name s); session := st' |}
  end.

Definition _run_async_impl (c : ctx) : ending :=
  if negb (truthy (state_get (session c) (lit "issue_url"))) then
    Finished (say (lit "system") (lit "No issue_url found in the session state") c)
  else
  (* First get the issue details *)
  invoke GetIssueDetails c (fun c =>
  if negb (has_key (session c) (lit "issue_details")) then
    Finished (say (lit "system") (lit "No issue_details found in the session state") c)
  else
  (* Analyze the issue and identify files to change *)
  invoke AnalyzeIssue c (fun c =>
  if negb (has_key (session c) (lit "analysis")) then
    Finished (say (lit "system") (lit "No analysis found in the session state") c)
  else
  (* Implement the changes *)
  invoke ImplementChanges c (fun c =>
  (* Create PR *)
  invoke CreatePr c (fun c =>
  match dict_get (session c) (lit "pr_output") with
  | Some pr_output =>
      match part_refuses pr_output with
      | None =>
          Finished {| events := events c ++ [Said (lit "user") pr_output];
                      calls := calls c; branch := branch c; session := session c |}
      | Some msg => Raised msg c
      end
  | None => Finished c
  end)))).

(** A run on a fresh invocation context. *)
Definition run (b : option str) (st : state) : ending :=
  _run_async_impl {| events := []; calls := []; branch := b; session := st |}.

End Workflow.

Arguments Forwarded {ev} e.
Arguments Said {ev} role text.
Arguments Build_ctx {ev} events calls branch session.
Arguments events {ev} c.
Arguments calls {ev} c.
Arguments branch {ev} c.
Arguments session {ev} c.
Arguments Finished {ev} c.
Arguments Raised {ev} msg c.
Arguments ctx_of {ev} e.
Arguments say {ev} role text c.
Arguments invoke {ev} run_async s c rest.
Arguments _run_async_impl {ev} run_async part_refuses c.
Arguments run {ev} run_async part_refuses b st.

End ResolveIssue.

Module ResolveIssueSpec.
Import Agent ResolveIssue.

Definition pipeline_stages : list stage :=
  [GetIssueDetails; AnalyzeIssue; ImplementChanges; CreatePr].

(** The stages whose output the workflow looks for before it goes on. *)
Definition checked_key (s : stage) : option str :=
  match s with
  | GetIssueDetails => Some (lit "issue_details")
  | AnalyzeIssue => Some (lit "analysis")
  | _ => None
  end.

(** The stage the workflow builds next. *)
Definition successor (s : stage) : option stage :=
  match s with
  | GetIssueDetails => Some AnalyzeIssue
  | AnalyzeIssue => Some ImplementChanges
  | ImplementChanges => Some CreatePr
  | CreatePr => None
  end.

(** What the invocations yielded, each event forwarded, in order. *)
Definition forwarded {ev} (cs : list (stage * outcome ev)) : list (event ev) :=
  flat_map (fun call => map Forwarded (RunSpec.yielded (snd call))) cs.

(** The library takes a text or null ([Part.text] is optional) and
    refuses every other value. *)
Definition texts_only (v : json) : option str :=
  match v with
  | JStr _ | JNull => None
  | _ => Some (lit "Input should be a valid string")
  end.

(** Each agent yields one event; the first two store null under their
    key, the last one a text; the one that implements stores nothing. *)
Definition terse (s : stage) (st : state) : outcome nat :=
  match s with
  | GetIssueDetails => Completed [1%nat] ((lit "issue_details", JNull) :: st)
  | AnalyzeIssue => Completed [2%nat] ((lit "analysis", JNull) :: st)
  | ImplementChanges => Completed [3%nat] st
  | CreatePr => Completed [4%nat] ((lit "pr_output", JStr (lit "opened #7")) :: st)
  end.

(** No agent stores anything. *)
Definition mute (s : stage) (st : state) : outcome nat := Completed [1%nat] st.

(** The second agent raises. *)
Definition analysis_breaks (s : stage) (st : state) : outcome nat :=
  match s with
  | AnalyzeIssue => Raises [2%nat] st (lit "model overloaded")
  | _ => terse s st
  end.

Definition issue_7 : state :=
  [(lit "issue_url", JStr (lit "https://github.com/acme/widgets/issues/7"))].

End ResolveIssueSpec.

(* ================================================================== *)
(** * Properties: strings *)
(* ================================================================== *)

Module PyStrFacts.

Lemma str_eqb_eq (a b : str) : str_eqb a b = true <-> a = b.
Proof.
  revert b; induction a as [|x a IH]; intros [|y b]; simpl; split; intro E;
    try reflexivity; try discriminate.
  - apply andb_true_iff in E as [E1 E2].
    apply N.eqb_eq in E1. apply IH in E2. now subst.
  - injection E as -> ->. rewrite N.eqb_refl. simpl. now apply IH.
Qed.

Lemma str_eqb_refl (a : str) : str_eqb a a = true.
Proof. now apply str_eqb_eq. Qed.

Lemma str_eqb_neq (a b : str) : str_eqb a b = false <-> a <> b.
Proof.
  split.
  - intros E ->. rewrite str_eqb_refl in E. discriminate.
  - intro NE. destruct (str_eqb a b) eqn:E; [|reflexivity].
    apply str_eqb_eq in E. contradiction.
Qed.

Lemma has_char_In (c : N) (s : str) : has_char c s = true <-> In c s.
Proof.
  unfold has_char. rewrite existsb_exists. split.
  - intros (x & Hx & E). apply N.eqb_eq in E. now subst.
  - intro Hc. exists c. split; [assumption | apply N.eqb_refl].
Qed.

Lemma has_char_false (c : N) (s : str) : has_char c s = false <-> ~ In c s.
Proof.
  rewrite <- has_char_In. destruct (has_char c s); split; intro E;
    try discriminate; try reflexivity.
  now elim E.
Qed.

Lemma contains_refl (s : str) : contains s s.
Proof. exists [], []. now rewrite app_nil_r. Qed.

Lemma contains_app_l (s t x : str) : contains s x -> contains (s ++ t) x.
Proof.
  intros (pre & post & ->). exists pre, (post ++ t).
  now rewrite <- !app_assoc.
Qed.

Lemma contains_app_r (s t x : str) : contains t x -> contains (s ++ t) x.
Proof.
  intros (pre & post & ->). exists (s ++ pre), post.
  now rewrite <- !app_assoc.
Qed.

Lemma contains_cons (c : N) (t x : str) : contains t x -> contains (c :: t) x.
Proof. intro Hc. now apply (contains_app_r [c]). Qed.

(** [contains] for goals that spell the text out as a chain of appends. *)
Ltac find_part :=
  solve [ apply contains_refl
        | apply contains_app_l; apply contains_refl
        | apply contains_app_r; find_part
        | apply contains_cons; find_part ].

End PyStrFacts.
Import PyStrFacts.

(* ================================================================== *)
(** * Properties: the allowlisted command tools *)
(* ================================================================== *)

Module BashToolFacts.
Import BashTool BashSample.

Section Facts.
Variable U : unicode_db.
Variable truncate_str : str.
Variable subprocess_exec : str -> list str -> child.

Lemma create_all_members (commands : list str) (b : option Z) (tools : list cli_tool) :
  create_all U commands b = Returned tools ->
  forall tool, In tool tools ->
    truncate_length tool = b /\ In (command tool) commands.
Proof.
  revert tools; induction commands as [|c rest IH]; simpl; intros tools E tool Hin.
  - injection E as <-. contradiction.
  - unfold create_runtime_cli_tool in E.
    destruct (is_identifier U (c ++ lit "_cli")); [|discriminate].
    destruct (create_all U rest b) as [ts|] eqn:Er; [|discriminate].
    injection E as <-. destruct Hin as [<- | Hin].
    + simpl. auto.
    + destruct (IH ts eq_refl tool Hin). auto.
Qed.

Lemma create_all_length (commands : list str) (b : option Z) (tools : list cli_tool) :
  create_all U commands b = Returned tools -> length tools = length commands.
Proof.
  revert tools; induction commands as [|c rest IH]; simpl; intros tools E.
  - now injection E as <-.
  - destruct (create_runtime_cli_tool U c b); [|discriminate].
    destruct (create_all U rest b) as [ts|]; [|discriminate].
    injection E as <-. simpl. f_equal. now apply IH.
Qed.

(** C3.  A tool made for budget [b], whose program exits with status zero
    and standard output decoding to [s], returns [s[:b]] followed by the
    marker when [b] is set, is not zero and [len(s) > b]; it returns [s]
    as it is when [len(s) <= b], and also, whatever the length, when [b]
    is zero or not set. *)
Theorem successful_output_truncation
    (commands : list str) (b : option Z) (tools : list cli_tool) (tool : cli_tool)
    (args : list str) (stdout stderr : list N) (s : str) :
  get_bash_tool U (Some commands) b = Returned tools ->
  In tool tools ->
  subprocess_exec (command tool) args = Exits 0 stdout stderr ->
  decode_utf8 stdout = Some s ->
  (forall n, b = Some n -> n <> 0%Z -> (len s > n)%Z ->
     cli_call U truncate_str subprocess_exec tool args
     = Returned (slice_to s n ++ truncate_str))
  /\ (forall n, b = Some n -> (len s <= n)%Z ->
        cli_call U truncate_str subprocess_exec tool args = Returned s)
  /\ (b = None \/ b = Some 0%Z ->
        cli_call U truncate_str subprocess_exec tool args = Returned s).
Proof.
  intros Hmk Hin Hrun Hdec.
  destruct (create_all_members commands b tools Hmk tool Hin) as [Hb _].
  unfold cli_call. rewrite Hrun, Hdec, Hb. simpl.
  split; [|split].
  - intros n -> Hn Hlen.
    destruct (Z.eqb_spec n 0); [contradiction|]. simpl.
    destruct (Z.gtb_spec (len s) n); [reflexivity | lia].
  - intros n -> Hlen.
    destruct (Z.gtb_spec (len s) n); [lia|].
    now rewrite andb_false_r.
  - intros [-> | ->]; reflexivity.
Qed.

(** C4, as amended.  When the program of a tool exits with a status other
    than zero and its standard error is valid UTF-8, the call returns (it
    does not raise) the text
    [Error: Command <program> <args> failed with return code <status> and stderr: <stderr>],
    which holds the program name, the [repr] of the argument list, the
    status and the decoded standard error. *)
Theorem nonzero_exit_is_reported_as_text
    (tool : cli_tool) (args : list str) (returncode : Z)
    (stdout stderr : list N) (err_msg : str) :
  subprocess_exec (command tool) args = Exits returncode stdout stderr ->
  returncode <> 0%Z ->
  decode_utf8 stderr = Some err_msg ->
  exists text,
    cli_call U truncate_str subprocess_exec tool args = Returned text
    /\ text = lit "Error: Command " ++ command tool ++ lit " " ++ repr_list U args
              ++ lit " failed with return code " ++ of_Z returncode
              ++ lit " and stderr: " ++ err_msg
    /\ contains text (command tool)
    /\ contains text (repr_list U args)
    /\ contains text (of_Z returncode)
    /\ contains text err_msg.
Proof.
  intros Hrun Hrc Hdec.
  eexists. split; [|split; [reflexivity|]].
  - unfold cli_call. rewrite Hrun.
    destruct (Z.eqb_spec returncode 0); [contradiction|]. simpl.
    rewrite Hdec. reflexivity.
  - repeat split; find_part.
Qed.

(** C10.  With [allowed_commands] left at [None] the call raises
    [TypeError]; the empty tool list is returned exactly for the empty
    sequence of commands. *)
Theorem get_bash_tool_without_commands (b : option Z) :
  get_bash_tool U None b = Raised (TypeError (lit "'NoneType' object is not iterable"))
  /\ forall allowed_commands,
       get_bash_tool U allowed_commands b = Returned [] <-> allowed_commands = Some [].
Proof.
  split; [reflexivity|].
  intros [commands|]; simpl; split; intro E; try discriminate.
  - apply create_all_length in E. destruct commands; [reflexivity | discriminate].
  - injection E as ->. reflexivity.
Qed.

End Facts.

Lemma successful_output_truncation_witness :
  cli_call ascii_only (lit "...") gh_prints
    {| command := lit "gh"; truncate_length := Some 5%Z |} [lit "pr"; lit "diff"]
  = Returned (lit "hello...").
Proof.
  refine (proj1 (successful_output_truncation ascii_only (lit "...") gh_prints
                   [lit "gh"] (Some 5%Z) _ _ [lit "pr"; lit "diff"]
                   (lit "hello world") [] (lit "hello world") _ _ _ _)
                5%Z eq_refl _ _).
  - reflexivity.
  - left; reflexivity.
  - reflexivity.
  - reflexivity.
  - discriminate.
  - reflexivity.
Defined.

Lemma nonzero_exit_is_reported_as_text_witness :
  exists text,
    cli_call ascii_only (lit "...") gh_fails
      {| command := lit "gh"; truncate_length := Some 5%Z |} [lit "pr"; lit "view"]
    = Returned text
    /\ text = lit "Error: Command gh ['pr', 'view'] failed with return code 1 and stderr: no such pull request".
Proof.
  destruct (nonzero_exit_is_reported_as_text ascii_only (lit "...") gh_fails
              {| command := lit "gh"; truncate_length := Some 5%Z |}
              [lit "pr"; lit "view"] 1%Z [] (lit "no such pull request")
              (lit "no such pull request") eq_refl ltac:(discriminate) eq_refl)
    as (text & Hcall & Htext & _).
  exists text. split; [exact Hcall | exact Htext].
Defined.

(** C4 as stated does not hold: the call raises. *)
Lemma nonzero_exit_can_raise :
  cli_call ascii_only (lit "...") gh_fails_binary
    {| command := lit "gh"; truncate_length := Some 5%Z |} [lit "pr"; lit "view"]
  = Raised UnicodeDecodeError.
Proof. reflexivity. Qed.

End BashToolFacts.

(* ================================================================== *)
(** * Properties: the file-system search tools *)
(* ================================================================== *)

Module GrepToolFacts.
Import GrepTool Sample GrepSpec.

Section Facts.
Variable U : unicode_db.
Variable find_text_char_limit : Z.
Variable H : host.
Variable self : GrepTools.

(** The start of a call and the tool agree: what a call answers at once is
    what the tool returns. *)
Lemma enter_find_files_answers (path unix_pattern : str) (depth : Z)
    (is_case_sensitive : bool) (kwargs : list (str * str)) (ops : list fs_op) (text : str) :
  enter_find_files U H self path kwargs = Answers ops text ->
  find_files U H self path unix_pattern depth is_case_sensitive kwargs = (ops, text).
Proof.
  unfold enter_find_files, find_files. destruct kwargs as [|kv kw].
  - destruct (fs_encodable path); simpl; [|discriminate].
    destruct (confined self (resolve (cwd H) path)); simpl; [discriminate|].
    intro E. now injection E as <- <-.
  - intro E. now injection E as <- <-.
Qed.

Lemma enter_find_text_in_files_answers (unix_pattern path : str)
    (recursive is_case_sensitive : bool) (kwargs : list (str * str))
    (ops : list fs_op) (text : str) :
  enter_find_text_in_files U H self unix_pattern path kwargs = Answers ops text ->
  find_text_in_files U find_text_char_limit H self
    unix_pattern path recursive is_case_sensitive kwargs = (ops, text).
Proof.
  unfold enter_find_text_in_files, find_text_in_files. destruct kwargs as [|kv kw].
  - destruct (str_eqb unix_pattern (lit "*")).
    + intro E. now injection E as <- <-.
    + destruct (fs_encodable path); simpl; [|discriminate].
      destruct (confined self (resolve (cwd H) path)); simpl; [discriminate|].
      intro E. now injection E as <- <-.
  - intro E. now injection E as <- <-.
Qed.

Lemma enter_read_file_answers (path : str) (start_line end_line : option Z)
    (ops : list fs_op) (text : str) :
  enter_read_file H self path = Answers ops text ->
  read_file H self path start_line end_line = (ops, text).
Proof.
  unfold enter_read_file, read_file.
  destruct (fs_encodable path); simpl; [|discriminate].
  destruct (confined self (resolve (cwd H) path)); simpl; [discriminate|].
  intro E. now injection E as <- <-.
Qed.

(** C1, as amended.  For a path that can be resolved (no NUL character,
    no surrogate the file-system encoding refuses) and whose resolved
    form is neither the working root nor below it, each of the three
    tools returns an error text at once and does not raise, and the only
    file-system call it may make is the resolution of the path.  For
    [read_file] the text is the confinement error; for [find_files] it is
    the confinement error unless keyword arguments it does not know are
    passed; for [find_text_in_files] it is the confinement error unless
    such arguments are passed or the pattern is the bare [*].  For a path
    that cannot be resolved the call raises [ValueError] where it
    resolves the path, before it checks the confinement. *)
Theorem outside_root_is_refused (path : str) :
  (fs_encodable path = true ->
   confined self (resolve (cwd H) path) = false ->
   (forall kwargs,
       exists ops text,
         enter_find_files U H self path kwargs = Answers ops text
         /\ only_resolves path ops /\ is_error_text text
         /\ (kwargs = [] -> text = confinement_error self (resolve (cwd H) path)))
   /\ (forall unix_pattern kwargs,
         exists ops text,
           enter_find_text_in_files U H self unix_pattern path kwargs = Answers ops text
           /\ only_resolves path ops /\ is_error_text text
           /\ (kwargs = [] -> unix_pattern <> lit "*" ->
               text = confinement_error self (resolve (cwd H) path)))
   /\ enter_read_file H self path
      = Answers [OpResolve path] (confinement_error self (resolve (cwd H) path)))
  /\ (fs_encodable path = false ->
      enter_find_files U H self path [] = RaisesValueError [OpResolve path]
      /\ (forall unix_pattern,
            unix_pattern <> lit "*" ->
            enter_find_text_in_files U H self unix_pattern path []
            = RaisesValueError [OpResolve path])
      /\ enter_read_file H self path = RaisesValueError [OpResolve path]).
Proof.
  assert (Hnone : only_resolves path []) by (intros op []).
  assert (Hone : only_resolves path [OpResolve path]).
  { intros op [<-|[]]. reflexivity. }
  assert (Hkw : forall kwargs tail,
             is_error_text (lit "Error: Unexpected arguments: " ++ repr_kwargs U kwargs
                            ++ [10] ++ tail)).
  { intros kwargs tail. eexists.
    change (lit "Error: Unexpected arguments: ")
      with (lit "Error: " ++ lit "Unexpected arguments: ").
    rewrite <- app_assoc. reflexivity. }
  assert (Hconf : is_error_text (confinement_error self (resolve (cwd H) path))).
  { eexists. unfold confinement_error. reflexivity. }
  split.
  - intros Henc Hout. split; [|split].
    + intros [|kv kw]; unfold enter_find_files.
      * rewrite Henc, Hout. simpl. do 2 eexists. split; [reflexivity|]. now repeat split.
      * do 2 eexists. split; [reflexivity|].
        repeat split; [exact Hnone | apply Hkw | discriminate].
    + intros pat [|kv kw]; unfold enter_find_text_in_files.
      * destruct (str_eqb pat (lit "*")) eqn:Estar.
        -- do 2 eexists. split; [reflexivity|]. repeat split; [exact Hnone | |].
           ++ eexists.
              change (lit "Error: pattern * is too broad. Please provide a more specific pattern")
                with (lit "Error: "
                      ++ lit "pattern * is too broad. Please provide a more specific pattern").
              reflexivity.
           ++ intros _ Hne. apply str_eqb_eq in Estar. contradiction.
        -- rewrite Henc, Hout. simpl. do 2 eexists. split; [reflexivity|].
           now repeat split.
      * do 2 eexists. split; [reflexivity|].
        repeat split; [exact Hnone | apply Hkw | discriminate].
    + unfold enter_read_file. now rewrite Henc, Hout.
  - intro Henc. split; [|split].
    + unfold enter_find_files. now rewrite Henc.
    + intros pat Hne. unfold enter_find_text_in_files.
      apply str_eqb_neq in Hne. now rewrite Hne, Henc.
    + unfold enter_read_file. now rewrite Henc.
Qed.

Lemma widen_pattern_idem (p : str) : widen_pattern (widen_pattern p) = widen_pattern p.
Proof.
  unfold widen_pattern. destruct (has_char 42 p) eqn:E; simpl.
  - now rewrite E.
  - reflexivity.
Qed.


End Facts.

Lemma outside_root_is_refused_witness :
  enter_read_file host_app tools_app (lit "../../etc/passwd")
  = Answers [OpResolve (lit "../../etc/passwd")]
      (lit "Error: /etc/passwd is not a subdirectory of /srv/app. Please provide a relative path, or a subdirectory of /srv/app.").
Proof.
  exact (proj2 (proj2 (proj1 (outside_root_is_refused ascii_only host_app tools_app
                                (lit "../../etc/passwd"))
                             eq_refl eq_refl))).
Defined.

(** C1 as stated does not hold.  For a path outside the root,
    [find_text_in_files] with the pattern [*] answers that the pattern is
    too broad, not that the path is outside.  And a path that leads
    outside the root and holds a NUL character makes [read_file] raise
    [ValueError]: no text is returned. *)
Lemma outside_root_other_error :
  (confined tools_app (resolve (cwd host_app) (lit "/etc")) = false
   /\ enter_find_text_in_files ascii_only host_app tools_app (lit "*") (lit "/etc") []
      = Answers [] (lit "Error: pattern * is too broad. Please provide a more specific pattern")
   /\ find_text_in_files ascii_only 100%Z host_app tools_app (lit "*") (lit "/etc") true false []
      = ([], lit "Error: pattern * is too broad. Please provide a more specific pattern")
   /\ lit "Error: pattern * is too broad. Please provide a more specific pattern"
      <> confinement_error tools_app (resolve (cwd host_app) (lit "/etc")))
  /\ (confined tools_app
        (resolve (cwd host_app) (lit "../../etc/pass" ++ [0] ++ lit "wd")) = false
      /\ enter_read_file host_app tools_app (lit "../../etc/pass" ++ [0] ++ lit "wd")
         = RaisesValueError [OpResolve (lit "../../etc/pass" ++ [0] ++ lit "wd")]).
Proof.
  split; [|split; reflexivity].
  split; [reflexivity | split; [reflexivity | split; [reflexivity|]]].
  vm_compute. discriminate.
Qed.



(** ** Matching with literal patterns *)

Lemma has_wildcard_false (p : str) :
  has_wildcard p = false -> forallb literal_char p = true.
Proof.
  unfold has_wildcard. intro Hw.
  apply orb_false_iff in Hw as [Hw H91]. apply orb_false_iff in Hw as [H42 H63].
  apply has_char_false in H42, H63, H91.
  apply forallb_forall. intros c Hc. unfold literal_char.
  destruct (N.eqb_spec c 42) as [->|_]; [contradiction|].
  destruct (N.eqb_spec c 63) as [->|_]; [contradiction|].
  destruct (N.eqb_spec c 91) as [->|_]; [contradiction|].
  reflexivity.
Qed.

Lemma translate_literals (p tail : str) (b : bool) :
  forallb literal_char p = true ->
  translate_from 0 b (p ++ tail)
  = map TLit p ++ translate_from 0 (match p with [] => b | _ => false end) tail.
Proof.
  revert b; induction p as [|c p IH]; intros b Hl; [reflexivity|].
  simpl in Hl. apply andb_true_iff in Hl as [Hc Hl].
  unfold literal_char in Hc. apply negb_true_iff in Hc.
  apply orb_false_iff in Hc as [Hc H91]. apply orb_false_iff in Hc as [H42 H63].
  simpl. rewrite H42, H63, H91. rewrite (IH false Hl). f_equal.
  destruct p; reflexivity.
Qed.

Lemma re_match_star (ts : list tok) (s : str) :
  re_match (TStar :: ts) s
  = re_match ts s || match s with [] => false | _ :: s' => re_match (TStar :: ts) s' end.
Proof. destruct s; reflexivity. Qed.

Lemma re_match_star_all (s : str) : re_match [TStar] s = true.
Proof.
  induction s as [|c s IH]; [reflexivity|].
  rewrite re_match_star. rewrite IH. apply orb_true_r.
Qed.

Lemma re_match_star_skip (ts : list tok) (pre s : str) :
  re_match ts s = true -> re_match (TStar :: ts) (pre ++ s) = true.
Proof.
  intro Hm. induction pre as [|c pre IH].
  - simpl app. rewrite re_match_star, Hm. reflexivity.
  - simpl app. rewrite re_match_star, IH. apply orb_true_r.
Qed.

Lemma re_match_literals (p : str) (ts : list tok) (s : str) :
  re_match (map TLit p ++ ts) (p ++ s) = re_match ts s.
Proof.
  induction p as [|c p IH]; [reflexivity|].
  simpl. now rewrite N.eqb_refl.
Qed.

(** A pattern without wildcards, once wrapped, matches every text it
    occurs in. *)
Lemma widened_literal_matches (p s : str) :
  has_wildcard p = false -> contains s p ->
  fnmatchcase s (widen_pattern p) = true.
Proof.
  intros Hw (pre & post & ->).
  pose proof (has_wildcard_false p Hw) as Hl.
  unfold has_wildcard in Hw.
  apply orb_false_iff in Hw as [Hw _]. apply orb_false_iff in Hw as [H42 _].
  unfold widen_pattern. rewrite H42. simpl negb. cbv iota.
  unfold fnmatchcase, translate.
  change (lit "*" ++ p ++ lit "*") with (42 :: (p ++ [42])).
  change (translate_from 0 false (42 :: p ++ [42]))
    with (TStar :: translate_from 0 true (p ++ [42])).
  rewrite (translate_literals p [42] true Hl).
  destruct p as [|c p].
  - simpl. apply re_match_star_all.
  - change (translate_from 0 false [42]) with [TStar].
    apply re_match_star_skip. rewrite re_match_literals. apply re_match_star_all.
Qed.

Lemma matcher_is_fnmatchcase (cs : bool) (name pat : str) :
  matcher cs name pat = fnmatchcase name pat.
Proof. destruct cs; reflexivity. Qed.

(** ** Walking the tree *)

Lemma entry_at_nonempty top p child : entry_at top p child -> p <> [].
Proof. intros []; discriminate. Qed.

Lemma entry_at_dir top p child : entry_at top p child -> is_dir_node top = true.
Proof. intros []; reflexivity. Qed.

Lemma os_walk_dir keep rel es :
  os_walk keep rel (Dir es)
  = (rel, dir_names es, file_names es)
    :: flat_map (fun e => if is_dir_node (snd e) && keep rel (fst e)
                          then os_walk keep (rel ++ [fst e]) (snd e)
                          else []) es.
Proof.
  simpl. f_equal.
  induction es as [|[name child] es IH]; [reflexivity|].
  simpl. now rewrite IH.
Qed.

Lemma names_of_entry es name child :
  In (name, child) es ->
  if is_dir_node child then In name (dir_names es) else In name (file_names es).
Proof.
  intro Hin. destruct (is_dir_node child) eqn:Ed.
  - unfold dir_names. apply (in_map fst _ (name, child)).
    apply filter_In. now split.
  - unfold file_names. apply (in_map fst _ (name, child)).
    apply filter_In. split; [assumption|]. simpl. now rewrite Ed.
Qed.

(** The walk reaches the directory of every entry it is allowed to go
    down to. *)
Lemma os_walk_visits keep top p child :
  entry_at top p child ->
  forall rel0,
    (forall q d q', p = q ++ d :: q' -> q' <> [] -> keep (rel0 ++ q) d = true) ->
    exists es,
      In (rel0 ++ removelast p, dir_names es, file_names es) (os_walk keep rel0 top)
      /\ In (last p [], child) es.
Proof.
  induction 1 as [es name child Hin | es name d p child Hin Hsub IH]; intros rel0 Hkeep.
  - exists es. split; [|exact Hin].
    rewrite os_walk_dir. left. simpl. now rewrite app_nil_r.
  - pose proof (entry_at_nonempty _ _ _ Hsub) as Hne.
    destruct (IH (rel0 ++ [name])) as (es' & Hvisit & Hlast).
    { intros q d' q' -> Hq'. rewrite <- app_assoc. simpl.
      apply (Hkeep (name :: q) d' q'); [reflexivity | assumption]. }
    exists es'. split.
    + rewrite os_walk_dir. right. apply in_flat_map.
      exists (name, d). split; [exact Hin|]. simpl.
      rewrite (entry_at_dir _ _ _ Hsub).
      pose proof (Hkeep [] name p eq_refl Hne) as Hk.
      rewrite app_nil_r in Hk. rewrite Hk. simpl.
      destruct p as [|x p]; [contradiction|].
      rewrite <- app_assoc in Hvisit. exact Hvisit.
    + destruct p as [|x p]; [contradiction|]. exact Hlast.
Qed.



Section Matching.
Variable U : unicode_db.
Variable H : host.
Variable self : GrepTools.


End Matching.


(** ** The deny list *)

(** They are matched against absolute paths, which start with a slash:
    none of them ever matches. *)
Lemma directory_patterns_never_match (p : path) (pat : str) :
  In pat directory_patterns ->
  In pat BLACKLIST_PATTERNS /\ fnmatch (path_str p) pat = false.
Proof.
  unfold directory_patterns. simpl.
  intros [<-|[<-|[<-|[<-|[<-|[]]]]]]; (split; [simpl; tauto | reflexivity]).
Qed.

Lemma node_nested_ind (P : node -> Prop) :
  (forall r, P (File r)) ->
  (forall es, Forall (fun e => P (snd e)) es -> P (Dir es)) ->
  forall n, P n.
Proof.
  intros HF HD. fix IH 1. intros [r|es].
  - apply HF.
  - apply HD. induction es as [|[name child] es IHes]; constructor.
    + apply IH.
    + apply IHes.
Qed.

(** Every triple of the walk lists the entries of a directory of the
    tree. *)
Lemma os_walk_triples keep (top : node) :
  forall rel0 rel dirs files,
    In (rel, dirs, files) (os_walk keep rel0 top) ->
    exists q es,
      rel = rel0 ++ q /\ dirs = dir_names es /\ files = file_names es
      /\ forall name child, In (name, child) es -> entry_at top (q ++ [name]) child.
Proof.
  induction top as [r|es IH] using node_nested_ind; intros rel0 rel dirs files Hin.
  - contradiction.
  - rewrite os_walk_dir in Hin. destruct Hin as [E|Hin].
    + injection E as <- <- <-. exists [], es. rewrite app_nil_r.
      repeat split. intros name child Hc. now apply entry_here.
    + apply in_flat_map in Hin as ([name d] & He & Hin). simpl in Hin.
      destruct (is_dir_node d && keep rel0 name); [|contradiction].
      rewrite Forall_forall in IH. specialize (IH (name, d) He). simpl in IH.
      destruct (IH _ _ _ _ Hin) as (q & es' & -> & -> & -> & Hent).
      exists (name :: q), es'. rewrite <- app_assoc. repeat split.
      intros n c Hc. simpl. apply entry_below with d; auto.
Qed.

Lemma flat_map_nil {A B} (f : A -> list B) (l : list A) :
  (forall x, In x l -> f x = []) -> flat_map f l = [].
Proof.
  induction l as [|x l IH]; intro Hf; [reflexivity|].
  simpl. rewrite Hf by now left. apply IH. intros y Hy. apply Hf. now right.
Qed.

Lemma names_have_entries (es : list (str * node)) (name : str) :
  In name (dir_names es) \/ In name (file_names es) ->
  exists child, In (name, child) es.
Proof.
  unfold dir_names, file_names.
  intros [Hin|Hin]; apply in_map_iff in Hin as ([n c] & <- & Hf);
    apply filter_In in Hf as [Hf _]; now exists c.
Qed.

(** What does hold of the deny list: when every entry of the searched
    tree is skipped by [should_skip_path] on its absolute path or has a
    dot-prefixed part, nothing is listed, whatever the pattern. *)
Lemma skipped_tree_lists_nothing
    (resolved_path : path) (depth : Z) (is_case_sensitive : bool)
    (unix_pattern : str) (top : node) :
  (forall p child, entry_at top p child ->
     should_skip_path (resolved_path ++ p) = true \/ dot_part p = true) ->
  find_files_hits resolved_path depth is_case_sensitive unix_pattern top = []
  /\ find_files_render
       (find_files_hits resolved_path depth is_case_sensitive unix_pattern top)
     = lit "    Files:" ++ [10] ++ lit "  No files found" ++ [10; 10]
       ++ lit "    Directories:" ++ [10] ++ lit "  No directories found"
       ++ [10; 10] ++ lit "    ".
Proof.
  intro Hall.
  assert (E : find_files_hits resolved_path depth is_case_sensitive unix_pattern top = []).
  { unfold find_files_hits. apply flat_map_nil. intros [[rel dirs] files] Hin.
    destruct (os_walk_triples _ top [] rel dirs files Hin) as (q & es & -> & -> & -> & Hent).
    simpl. unfold find_files_visit.
    destruct (Z.of_nat (length q) >? depth)%Z; [reflexivity|].
    apply flat_map_nil. intros [name isf] He.
    assert (Hname : In name (dir_names es) \/ In name (file_names es)).
    { apply in_app_or in He as [He|He]; apply in_map_iff in He as (n & E & Hn);
        injection E as <- _.
      - left. now apply filter_In in Hn as [Hn _].
      - now right. }
    destruct (names_have_entries es name Hname) as (child & Hc).
    unfold find_files_entry.
    destruct (Hall _ _ (Hent name child Hc)) as [Hs|Hd].
    - now rewrite Hs.
    - rewrite Hd. now destruct (should_skip_path _). }
  split; [exact E | now rewrite E].
Qed.

Lemma re_match_star_prefix (ts : list tok) (pre s : str) :
  re_match (TStar :: ts) s = true -> re_match (TStar :: ts) (pre ++ s) = true.
Proof.
  intro Hm. induction pre as [|c pre IH]; [exact Hm|].
  simpl app. rewrite re_match_star, IH. apply orb_true_r.
Qed.

(** A pattern that starts with [*] and matches a name matches the name
    behind any prefix. *)
Lemma fnmatch_star_prefix (pat : str) (ts : list tok) (pre s : str) :
  translate pat = TStar :: ts ->
  fnmatch s pat = true -> fnmatch (pre ++ s) pat = true.
Proof.
  unfold fnmatch, fnmatchcase, normcase. intros ->. apply re_match_star_prefix.
Qed.

Lemma re_match_literal_prefix (ts : list tok) (s : str) :
  re_match ts s = true -> exists s', s = literal_prefix ts ++ s'.
Proof.
  revert s; induction ts as [|t ts IH]; intros s Hm.
  - now exists s.
  - destruct t; try (now exists s).
    destruct s as [|d s]; [discriminate|]. simpl in Hm.
    apply andb_true_iff in Hm as [Hc Hm]. apply N.eqb_eq in Hc. subst d.
    destruct (IH s Hm) as (s' & ->). now exists s'.
Qed.

(** A name matched by a pattern holds the characters the pattern starts
    with. *)
Lemma fnmatch_literal_char (pat s : str) (c : N) :
  fnmatch s pat = true ->
  has_char c (literal_prefix (translate pat)) = true ->
  In c s.
Proof.
  unfold fnmatch, fnmatchcase, normcase. intros Hm Hc.
  apply re_match_literal_prefix in Hm as (s' & ->).
  apply in_or_app. left. now apply has_char_In.
Qed.

Lemma join_snoc (p : list str) (name : str) :
  exists pre, join [47] (p ++ [name]) = pre ++ name.
Proof.
  induction p as [|x p (pre & IH)].
  - now exists [].
  - exists (x ++ [47] ++ pre). simpl app at 1.
    destruct (p ++ [name]) as [|y l] eqn:E; [now destruct p|].
    change (join [47] (x :: y :: l)) with (x ++ [47] ++ join [47] (y :: l)).
    rewrite IH. now rewrite <- !app_assoc.
Qed.

Lemma path_str_snoc (p : path) (name : str) :
  exists pre, path_str (p ++ [name]) = pre ++ name.
Proof.
  destruct (join_snoc p name) as (pre & E).
  exists (47 :: pre). unfold path_str. now rewrite E.
Qed.

(** A file whose name (without slash) is deny-listed is skipped where it
    lies: its name can only match a pattern that starts with [*]. *)
Lemma deny_listed_name_is_skipped (p : path) (name : str) :
  ~ In 47 name -> deny_listed_name name = true -> should_skip_path (p ++ [name]) = true.
Proof.
  unfold deny_listed_name, should_skip_path. intros Hslash Hd.
  apply existsb_exists in Hd as (pat & Hin & Hm).
  apply existsb_exists. exists pat. split; [exact Hin|].
  destruct (path_str_snoc p name) as (pre & ->).
  unfold BLACKLIST_PATTERNS in Hin. simpl map in Hin.
  repeat (destruct Hin as [<-|Hin];
          [first [ eapply fnmatch_star_prefix; [reflexivity | exact Hm]
                 | exfalso; apply Hslash;
                   apply (fnmatch_literal_char _ _ 47 Hm); reflexivity ]|]).
  contradiction.
Qed.

(** The deny list does what it is meant to for a directory that holds
    nothing but dot-prefixed entries and files with deny-listed names:
    [find_files] prints both markers, whatever the pattern. *)
Lemma artifact_files_and_dot_entries_list_nothing
    (U : unicode_db) (H : host) (self : GrepTools)
    (path unix_pattern : str) (depth : Z) (is_case_sensitive : bool)
    (es : list (str * node)) :
  confined self (resolve (cwd H) path) = true ->
  lookup (fsroot H) (resolve (cwd H) path) = Some (Dir es) ->
  (forall name child, In (name, child) es ->
     startswith name (lit ".") = true
     \/ (is_dir_node child = false /\ ~ In 47 name /\ deny_listed_name name = true)) ->
  snd (find_files U H self path unix_pattern depth is_case_sensitive [])
  = lit "    Files:" ++ [10] ++ lit "  No files found" ++ [10; 10]
    ++ lit "    Directories:" ++ [10] ++ lit "  No directories found"
    ++ [10; 10] ++ lit "    ".
Proof.
  intros Hconf Hlook Hes.
  unfold find_files. rewrite Hconf, Hlook. simpl snd.
  apply skipped_tree_lists_nothing.
  intros p child Hentry. inversion Hentry as [es' name c Hin | es' name d p' c Hin Hsub]; subst.
  - destruct (Hes name child Hin) as [Hdot | (_ & Hslash & Hd)].
    + right. unfold dot_part. simpl. now rewrite Hdot.
    + left. now apply deny_listed_name_is_skipped.
  - destruct (Hes name d Hin) as [Hdot | (Hfile & _)].
    + right. unfold dot_part. simpl. now rewrite Hdot.
    + apply entry_at_dir in Hsub. congruence.
Qed.

(** C8 on a tree that holds nothing but artifacts.  Each file of
    [artifacts_only] below [/w] matches a pattern of the deny list when
    taken relative to the searched directory, and the rest is
    dot-prefixed; [find_files] lists the two build caches and the file
    inside one of them, and prints neither marker. *)
Theorem artifacts_only_tree_is_listed :
  let out := snd (find_files ascii_only host_w tools_w (lit ".") (lit "*") 1%Z false []) in
  forallb (fun rel => existsb (fnmatch rel) BLACKLIST_PATTERNS)
          (map lit [".git/HEAD"; "__pycache__/m.pyc"; "node_modules/index.js";
                    "logo.png"]%string) = true
  /\ out = find_files_render [ (false, lit "__pycache__");
                               (false, lit "node_modules");
                               (true, lit "node_modules/index.js") ]
  /\ has_sub (lit "No files found") out = false
  /\ has_sub (lit "No directories found") out = false.
Proof. repeat split; vm_compute; reflexivity. Qed.

End GrepToolFacts.

(* ================================================================== *)
(** * Properties: the review workflow *)
(* ================================================================== *)

Module AgentFacts.
Import Agent AgentSpec RunSpec.

(** ** Splitting and joining *)

Lemma split_nonempty (c : N) (s : str) : split c s <> [].
Proof.
  induction s as [|x s IH]; simpl; [discriminate|].
  destruct (x =? c); [discriminate|].
  destruct (split c s); discriminate.
Qed.

Lemma join_split (c : N) (s : str) : join [c] (split c s) = s.
Proof.
  induction s as [|x s IH]; [reflexivity|]. simpl split.
  destruct (N.eqb_spec x c) as [->|Hx].
  - destruct (split c s) as [|w ws] eqn:E; [now apply split_nonempty in E|].
    change (join [c] ([] :: w :: ws)) with (c :: join [c] (w :: ws)).
    now rewrite IH.
  - destruct (split c s) as [|w ws] eqn:E; [now apply split_nonempty in E|].
    destruct ws as [|w' ws'].
    + simpl in *. now rewrite IH.
    + change (join [c] ((x :: w) :: w' :: ws'))
        with (x :: join [c] (w :: w' :: ws')).
      now rewrite IH.
Qed.

Lemma split_pieces (c : N) (s : str) : Forall (fun w => ~ In c w) (split c s).
Proof.
  induction s as [|x s IH]; simpl.
  - constructor; [intros [] | constructor].
  - destruct (N.eqb_spec x c) as [->|Hx].
    + constructor; [intros [] | assumption].
    + destruct (split c s) as [|w ws]; [constructor; [|constructor]|].
      * intros [E|[]]. now apply Hx.
      * inversion IH as [|? ? Hw Hws]; subst. constructor; [|assumption].
        intros [E|Hin]; [now apply Hx | now apply Hw].
Qed.

Lemma split_app_sep (c : N) (w t : str) :
  ~ In c w -> split c (w ++ c :: t) = w :: split c t.
Proof.
  induction w as [|x w IH]; intro Hw; simpl.
  - now rewrite N.eqb_refl.
  - destruct (N.eqb_spec x c) as [->|Hx]; [exfalso; apply Hw; now left|].
    rewrite IH; [reflexivity|]. intro Hin. apply Hw. now right.
Qed.

Lemma split_one (c : N) (w : str) : ~ In c w -> split c w = [w].
Proof.
  induction w as [|x w IH]; intro Hw; [reflexivity|]. simpl.
  destruct (N.eqb_spec x c) as [->|Hx]; [exfalso; apply Hw; now left|].
  rewrite IH; [reflexivity|]. intro Hin. apply Hw. now right.
Qed.

Lemma split_join (c : N) (l : list str) :
  l <> [] -> Forall (fun w => ~ In c w) l -> split c (join [c] l) = l.
Proof.
  induction l as [|w l IH]; [contradiction|]. intros _ HF.
  inversion HF as [|? ? Hw Hl]; subst.
  destruct l as [|w' l'].
  - now apply split_one.
  - change (join [c] (w :: w' :: l')) with (w ++ c :: join [c] (w' :: l')).
    rewrite split_app_sep by assumption. f_equal. apply IH; [discriminate | assumption].
Qed.

(** ** The shape the validator accepts *)

Section Shape.
Variable U : unicode_db.

Lemma validate_pr_url_str_spec (pr_url : str) :
  validate_pr_url_str U pr_url = true <-> pr_url <> [] /\ pr_url_shape U pr_url.
Proof.
  unfold validate_pr_url_str. split.
  - intro Hv. destruct pr_url as [|c0 u]; [discriminate|]. split; [discriminate|].
    destruct (urlparse (c0 :: u)) as [parsed|] eqn:Hparse; [|discriminate].
    destruct (str_eqb (netloc parsed) (lit "github.com")) eqn:En; [|discriminate].
    simpl negb in Hv. cbv beta iota zeta in Hv.
    pose proof (join_split 47 (strip (N.eqb 47) (path parsed))) as Hj.
    pose proof (split_pieces 47 (strip (N.eqb 47) (path parsed))) as Hp.
    destruct (split 47 (strip (N.eqb 47) (path parsed)))
      as [|a [|b [|p2 [|p3 [|? ?]]]]]; try discriminate.
    destruct (str_eqb p2 (lit "pull")) eqn:E2; [|discriminate].
    apply str_eqb_eq in En, E2. subst p2.
    inversion Hp as [|? ? Ha Hp1]; subst. inversion Hp1 as [|? ? Hb Hp2]; subst.
    inversion Hp2 as [|? ? _ Hp3]; subst. inversion Hp3 as [|? ? Hn _]; subst.
    exists parsed, a, b, p3.
    split; [exact Hparse|]. split; [assumption|]. split; [|auto].
    rewrite <- Hj. reflexivity.
  - intros [Hne (parsed & owner & repo & number & Hparse & Hnet & Hpath & Ho & Hr & Hn & Hint)].
    destruct pr_url as [|c0 u]; [contradiction|].
    rewrite Hparse, Hnet, str_eqb_refl. simpl negb. cbv beta iota zeta.
    rewrite Hpath.
    change (owner ++ lit "/" ++ repo ++ lit "/pull/" ++ number)
      with (join [47] [owner; repo; lit "pull"; number]).
    rewrite split_join.
    + rewrite str_eqb_refl. exact Hint.
    + discriminate.
    + repeat constructor; try assumption.
      simpl. intuition discriminate.
Qed.

End Shape.

(** ** The monad of the workflow *)

Section Runs.
Variable U : unicode_db.
Variable ev : Type.
Variable run_async : stage -> state -> outcome ev.
Variable json_loads : str -> option json.
Variable validation_error_text : run_result -> str.

Lemma post_bind {A B} (N1 : A -> ctx ev -> Prop) (N2 : B -> ctx ev -> Prop)
    (R : ctx ev -> Prop) (E : exn -> ctx ev -> Prop)
    (m : M ev A) (k : A -> M ev B) (c : ctx ev) :
  post N1 R E (m c) ->
  (forall a c', N1 a c' -> post N2 R E (k a c')) ->
  post N2 R E (bind m k c).
Proof.
  unfold bind. intros Hm Hk. destruct (m c); simpl in *; auto.
Qed.

Lemma chained_snoc (s : stage) (cs : list (stage * outcome ev)) :
  forall st0,
    chained run_async st0 cs ->
    chained run_async st0 (cs ++ [(s, run_async s (final_state st0 cs))]).
Proof.
  induction cs as [|[s1 o1] cs IH]; intros st0 Hc; simpl.
  - split; [reflexivity | exact I].
  - destruct Hc as [Ho Hc]. split; [exact Ho|]. now apply IH.
Qed.

Lemma final_state_snoc (st0 : state) (cs : list (stage * outcome ev))
    (call : stage * outcome ev) :
  final_state st0 (cs ++ [call]) = state_after (snd call).
Proof. unfold final_state. now rewrite fold_left_app. Qed.

Lemma forwarded_snoc (cs : list (stage * outcome ev)) (call : stage * outcome ev) :
  forwarded (cs ++ [call]) = forwarded cs ++ map Forwarded (yielded (snd call)).
Proof. unfold forwarded. rewrite flat_map_app. simpl. now rewrite app_nil_r. Qed.

Lemma review_loop_cons (i : nat) (cluster : json) (rest all_reviews : list json) :
  review_loop run_async json_loads i (cluster :: rest) all_reviews
  = bind (make_review_agent i cluster) (fun review_agent =>
    bind (run_stage run_async review_agent) (fun _ =>
    bind (get (lit "review_" ++ of_nat i)) (fun review_result =>
      if truthy review_result then
        match decode json_loads review_result with
        | Some review_data =>
            review_loop run_async json_loads (S i) rest (all_reviews ++ [review_data])
        | None => fail (lit "Review failed for cluster " ++ of_nat i)
        end
      else fail (lit "Review failed for cluster " ++ of_nat i)))).
Proof. reflexivity. Qed.

Lemma parse_clusters_dict (base_clusters cd cl : json) :
  parse_clusters json_loads base_clusters = Some (cd, cl) -> clusters_of cd = Some cl.
Proof.
  unfold parse_clusters.
  destruct (decode json_loads base_clusters) as [d|]; [|discriminate].
  destruct (has_clusters d) as [[|]|]; try discriminate.
  destruct (clusters_of d) as [x|] eqn:E; [|discriminate].
  intro Hp. injection Hp as <- <-. exact E.
Qed.

Lemma collected_length (os : list (outcome ev)) :
  forall i revs, collected json_loads i os revs -> length revs = length os.
Proof.
  induction os as [|o os IH]; intros i [|r revs] Hc; simpl in *;
    try reflexivity; try contradiction.
  destruct Hc as (_ & _ & Hc). f_equal. exact (IH _ _ Hc).
Qed.



(** ** How the body of the workflow stops *)

Section Walk.
Variable st : state.

Local Abbreviation going := (RunSpec.going run_async st).
Local Abbreviation stops := (RunSpec.stops run_async json_loads st).
Local Abbreviation never := (fun _ : ctx ev => False).

Lemma stops_fail {A} (N : A -> ctx ev -> Prop) (msg : str) (c : ctx ev) :
  going c -> blames msg (calls c) -> post N never stops (fail msg c).
Proof.
  intros (Hc & Hs & He & Hq & Hb) Hbl. simpl.
  repeat split; simpl; try assumption.
  - now rewrite Hb.
  - left. now exists msg.
Qed.

Lemma stops_raise {A} (N : A -> ctx ev -> Prop) (msg : str) (c : ctx ev) :
  going c -> post N never stops (raise msg c).
Proof.
  intros (Hc & Hs & He & Hq & Hb). simpl. repeat split; try assumption. now left.
Qed.

Lemma ran_stage (s : stage) (c : ctx ev) :
  going c ->
  post (fun _ c' => going c'
                    /\ exists o, completed o = true
                                 /\ calls c' = calls c ++ [(s, o)]
                                 /\ session c' = state_after o)
       never stops (run_stage run_async s c).
Proof.
  intros (Hc & Hs & He & Hq & Hb). unfold run_stage.
  pose proof (chained_snoc s (calls c) st Hc) as Hc'. rewrite <- Hs in Hc'.
  destruct (run_async s (session c)) as [evs st'|evs st' msg] eqn:Ho; simpl.
  - split.
    + repeat split; simpl.
      * exact Hc'.
      * now rewrite final_state_snoc.
      * now rewrite forwarded_snoc, He.
      * apply Forall_app. split; [exact Hq | now repeat constructor].
      * exact Hb.
    + now exists (Completed evs st').
  - repeat split; simpl.
    + exact Hc'.
    + now rewrite final_state_snoc.
    + now rewrite forwarded_snoc, He.
    + exact Hb.
    + right. now exists (calls c), s, evs, st'.
Qed.

Lemma ran_reviews (clusters : list json) :
  forall i all_reviews c,
    going c ->
    post (fun revs c' =>
            going c'
            /\ exists os new,
                 calls c' = calls c ++ combine (review_stages i clusters) os
                 /\ length os = length clusters
                 /\ forallb completed os = true
                 /\ collected json_loads i os new
                 /\ revs = all_reviews ++ new)
         never stops
         (review_loop run_async json_loads i clusters all_reviews c).
Proof.
  induction clusters as [|cluster rest IH]; intros i acc c Hg.
  - simpl. split; [exact Hg|]. exists [], []. simpl. now rewrite !app_nil_r.
  - rewrite review_loop_cons.
    eapply post_bind.
    { instantiate (1 := fun agent c' => agent = ReviewCluster i cluster /\ c' = c).
      destruct cluster; try (now apply stops_raise). simpl. auto. }
    intros agent c1 [-> ->].
    eapply post_bind; [now apply ran_stage|].
    intros ? c2 (Hg2 & o & Ho & Hcalls & Hsess).
    unfold bind at 1. unfold get at 1. rewrite Hsess.
    assert (Hbl : blames (lit "Review failed for cluster " ++ of_nat i) (calls c2)).
    { right. right. left. exists i, cluster, o, (calls c). now split. }
    destruct (truthy (state_get (state_after o) (lit "review_" ++ of_nat i))) eqn:Ht;
      [|now apply stops_fail].
    destruct (decode json_loads (state_get (state_after o) (lit "review_" ++ of_nat i)))
      as [d|] eqn:Hd; [|now apply stops_fail].
    specialize (IH (S i) (acc ++ [d]) c2 Hg2).
    destruct (review_loop run_async json_loads (S i) rest (acc ++ [d]) c2)
      as [revs c3|c3|e c3]; simpl in *; auto.
    destruct IH as (Hg3 & os & new & Hc3 & Hlen & Hall & Hcol & Hrevs).
    split; [exact Hg3|].
    exists (o :: os), (d :: new). repeat split.
    + rewrite Hc3, Hcalls, <- app_assoc. reflexivity.
    + simpl. now rewrite Hlen.
    + simpl. now rewrite Ho.
    + exact Ht.
    + exact Hd.
    + exact Hcol.
    + rewrite Hrevs, <- app_assoc. reflexivity.
Qed.

(** The body never ends of itself: an exception leaves it, and [stops]
    says what has been done by then. *)
Lemma workflow_ends :
  post (fun _ _ => False) never stops
       (workflow U run_async json_loads
          {| events := []; calls := []; built := []; session := st |}).
Proof.
  set (c0 := {| events := []; calls := []; built := []; session := st |}).
  assert (H0 : going c0) by (repeat split; simpl; auto; constructor).
  unfold workflow.
  unfold bind at 1. unfold get at 1. cbn [session c0].
  set (pr_url := state_get st (lit "pr_url")).
  destruct (truthy pr_url); simpl negb; cbv iota.
  2:{ apply stops_fail; [exact H0|]. left. split; [now left | reflexivity]. }
  destruct (_validate_pr_url U pr_url); simpl negb; cbv iota.
  2:{ apply stops_fail; [exact H0|]. left. split; [now right | reflexivity]. }
  eapply post_bind; [now apply ran_stage|].
  intros ? c2 (Hg2 & o1 & Ho1 & Hc2 & Hs2). simpl in Hc2.
  unfold bind at 1. unfold get at 1. rewrite Hs2.
  destruct (truthy (state_get (state_after o1) (lit "base_clusters"))) eqn:Hbase;
    simpl negb; cbv iota.
  2:{ apply stops_fail; [exact Hg2|]. right. left. split; [now left|].
      now exists pr_url, o1. }
  destruct (parse_clusters json_loads (state_get (state_after o1) (lit "base_clusters")))
    as [[cd cl]|] eqn:Ep.
  2:{ apply stops_fail; [exact Hg2|]. right. left. split; [now right|].
      now exists pr_url, o1. }
  eapply post_bind.
  { instantiate (1 := fun items c' => items_of cl = Some items /\ c' = c2).
    unfold iterate. destruct (items_of cl); [simpl; auto | now apply stops_raise]. }
  intros items c3 [Hitems ->].
  eapply post_bind; [now apply ran_reviews|].
  intros revs c5 (Hg5 & os & new & Hc5 & Hlen & Hall & Hcol & Hrevs).
  simpl in Hrevs. subst revs.
  eapply post_bind; [now apply ran_stage|].
  intros ? c6 (Hg6 & o3 & Ho3 & Hc6 & Hs6).
  unfold bind at 1. unfold get at 1. rewrite Hs6.
  destruct (truthy (state_get (state_after o3) (lit "reviewed_review"))) eqn:Hsm;
    simpl negb; cbv iota.
  2:{ apply stops_fail; [exact Hg6|]. right. right. right. left.
      split; [reflexivity|]. now exists new, o3, (calls c5). }
  eapply post_bind; [now apply ran_stage|].
  intros ? c8 (Hg8 & o4 & Ho4 & Hc8 & Hs8).
  unfold bind at 1. unfold get at 1. rewrite Hs8.
  destruct (truthy (state_get (state_after o4) (lit "output"))) eqn:Hout;
    simpl negb; cbv iota.
  2:{ apply stops_fail; [exact Hg8|]. right. right. right. right.
      split; [reflexivity|].
      now exists pr_url, (state_get (state_after o3) (lit "reviewed_review")),
                 o4, (calls c6). }
  destruct Hg8 as (Hch & Hs & He & Hq & Hb). simpl.
  repeat split; simpl; try assumption.
  - now rewrite Hb.
  - right.
    exists o1, cd, cl, items, os, new, o3,
           (state_get (state_after o3) (lit "reviewed_review")), o4.
    repeat split; try assumption.
    + rewrite Hc8, Hc6, Hc5, Hc2. simpl. rewrite <- !app_assoc. reflexivity.
    + simpl. rewrite Ho1. simpl. rewrite forallb_app, Hall. simpl.
      now rewrite Ho3, Ho4.
Qed.

(** How a run ends: the exception that stops the body is caught, and the
    failure built for it is refused in turn. *)
Lemma run_ends :
  exists e c,
    stops e c
    /\ _run_async_impl U run_async json_loads validation_error_text st
       = Raised (ValidationError (unexpected (str_of_exn validation_error_text e)))
                {| events := events c; calls := calls c;
                   built := built c ++ [unexpected (str_of_exn validation_error_text e)];
                   session := session c |}.
Proof.
  pose proof workflow_ends as Hw. unfold _run_async_impl.
  destruct (workflow U run_async json_loads
              {| events := []; calls := []; built := []; session := st |})
    as [[] c|c|e c]; simpl in Hw; try contradiction.
  exists e, c. split; [exact Hw | reflexivity].
Qed.

End Walk.

Local Notation "'run'" :=
  (_run_async_impl U run_async json_loads validation_error_text).

(** ** The entry URL *)

(** C2, as amended.  When the entry is truthy and is not a string of the
    shape the validator accepts (network location [github.com], path
    [owner/repo/pull/number] with an integer number), the run invokes no
    stage and the result it builds is the failure "Invalid pr_url
    format".  When the entry is missing or falsy (the empty text, null,
    zero, false, an empty list or dictionary) the result it builds is the
    failure "No pr_url provided", again without invoking a stage. *)
Theorem invalid_pr_url_stops_the_run (st : state) :
  (truthy (state_get st (lit "pr_url")) = true ->
   (forall u, state_get st (lit "pr_url") = JStr u -> ~ pr_url_shape U u) ->
   calls (ended (run st)) = []
   /\ hd_error (built (ended (run st)))
      = Some {| success := false;
                error := Some (lit "Invalid pr_url format");
                clusters := None; reviews := None; summary := None |})
  /\ (truthy (state_get st (lit "pr_url")) = false ->
      calls (ended (run st)) = []
      /\ hd_error (built (ended (run st)))
         = Some {| success := false;
                   error := Some (lit "No pr_url provided");
                   clusters := None; reviews := None; summary := None |}).
Proof.
  split.
  - intros Ht Hshape.
    assert (Hv : _validate_pr_url U (state_get st (lit "pr_url")) = false).
    { unfold _validate_pr_url. rewrite Ht. simpl.
      destruct (state_get st (lit "pr_url")) as [| | | |u| |]; try reflexivity.
      destruct (validate_pr_url_str U u) eqn:Ev; [|reflexivity].
      apply validate_pr_url_str_spec in Ev as [_ Hs].
      exfalso. now apply (Hshape u). }
    unfold _run_async_impl, workflow, bind, get. cbn [session].
    rewrite Ht, Hv. split; reflexivity.
  - intro Hf.
    unfold _run_async_impl, workflow, bind, get. cbn [session].
    rewrite Hf. split; reflexivity.
Qed.

(** ** The results a run builds *)

(** C5.  Every result of a run, be it one the run has handed to [Event]
    or one found among the events it yielded, has the shape of the
    invariant: if [success] is false, [clusters], [reviews] and [summary]
    are null and [error] holds the message; if [success] is true,
    [clusters] (the decoded data with its [clusters] entry), [reviews] (a
    list with one review for each cluster) and [summary] (not empty) are
    set and [error] is null. *)
Theorem run_result_invariant (st : state) (r : run_result) :
  In r (built (ended (run st))) \/ In (Emitted r) (events (ended (run st))) ->
  result_shape r.
Proof.
  destruct (run_ends st) as (e & c & (_ & _ & Hev & He) & ->). cbn [ended built events].
  assert (Hfail : forall msg, result_shape (_create_error_response msg)).
  { intro msg. split; [|discriminate]. intros _. simpl. eauto. }
  intros [Hin|Hin].
  - apply in_app_or in Hin as [Hin|[<-|[]]]; [|apply (Hfail _)].
    destruct e as [msg|r0].
    + destruct He as [Hb _]. rewrite Hb in Hin. contradiction.
    + destruct He as (Hb & _ & Htold). rewrite Hb in Hin.
      destruct Hin as [<-|[]].
      destruct Htold as [(msg & -> & _)|Hp]; [apply Hfail|].
      destruct Hp as (o1 & cd & cl & items & os & revs & o3 & sm & o4
                      & _ & Hlen & _ & _ & Hparse & Hitems & Hcol & _ & Hsm & _ & ->).
      split; [discriminate|]. intros _. simpl. repeat split.
      * exists cd, cl, items, revs. repeat split; try assumption.
        -- exact (parse_clusters_dict _ _ _ Hparse).
        -- rewrite (collected_length _ _ _ Hcol). exact Hlen.
      * now exists sm.
  - exfalso. rewrite Hev in Hin. unfold forwarded in Hin.
    apply in_flat_map in Hin as (call & _ & Hin).
    apply in_map_iff in Hin as (x & Hx & _). discriminate Hx.
Qed.

(** ** Failure of one review *)

Lemma aborts_no_call {A} (c : ctx ev) (f : flow ev A) :
  calls (ctx_of f) = calls c -> aborts_on_failure json_loads c f.
Proof.
  intro E. exists []. split; [now rewrite app_nil_r|].
  intros [|? ?] e post i Hd; discriminate.
Qed.

Lemma aborts_bind {A B} (m : M ev A) (k : A -> M ev B) (c : ctx ev) :
  aborts_on_failure json_loads c (m c) ->
  (forall a c', m c = Next a c' -> aborts_on_failure json_loads c' (k a c')) ->
  aborts_on_failure json_loads c (bind m k c).
Proof.
  unfold bind. intros (new1 & E1 & H1) Hk.
  destruct (m c) as [a c1|c1|e1 c1] eqn:Em.
  - destruct (Hk a c1 eq_refl) as (new2 & E2 & H2). simpl in E1.
    exists (new1 ++ new2). split; [now rewrite E2, E1, app_assoc|].
    intros pre e post i Hd Hf.
    apply app_eq_app in Hd as [l [[Hl Hr] | [Hl Hr]]].
    + destruct l as [|x l].
      * simpl in Hr. apply (H2 [] e post i); [now rewrite <- Hr | exact Hf].
      * injection Hr as <- Hr.
        destruct (H1 pre e l i Hl Hf) as (_ & c' & Habs). discriminate.
    + apply (H2 l e post i); assumption.
  - exists new1. split; [exact E1|]. intros pre e post i Hd Hf.
    destruct (H1 pre e post i Hd Hf) as (_ & c' & Habs). discriminate.
  - exists new1. split; [exact E1|]. intros pre e post i Hd Hf.
    destruct (H1 pre e post i Hd Hf) as (Hp & c' & Hret).
    split; [exact Hp|]. exists c'. injection Hret as -> ->. reflexivity.
Qed.

Lemma aborts_run_stage (s : stage) (c : ctx ev) :
  (forall i cluster, s <> ReviewCluster i cluster) ->
  aborts_on_failure json_loads c (run_stage run_async s c).
Proof.
  intro Hs. unfold run_stage.
  exists [(s, run_async s (session c))]. split.
  - destruct (run_async s (session c)); reflexivity.
  - intros pre e post i Hd (cluster & evs & st' & He & _).
    destruct pre as [|? [|? ?]]; try discriminate.
    injection Hd as <- _. injection He as -> _. now elim (Hs i cluster).
Qed.

Lemma review_failed_stops (st' : state) (i : nat) :
  review_failed json_loads st' i ->
  truthy (state_get st' (lit "review_" ++ of_nat i)) = false
  \/ decode json_loads (state_get st' (lit "review_" ++ of_nat i)) = None.
Proof.
  unfold state_get. intros [-> | (s & -> & Hs)].
  - now left.
  - right. exact Hs.
Qed.

Lemma aborts_review_loop (clusters : list json) :
  forall i all_reviews c,
    aborts_on_failure json_loads c (review_loop run_async json_loads i clusters all_reviews c).
Proof.
  induction clusters as [|cluster rest IH]; intros i acc c.
  - now apply aborts_no_call.
  - rewrite review_loop_cons.
    destruct cluster as [| | | | | |d];
      try (apply aborts_no_call; reflexivity).
    unfold bind at 1. simpl make_review_agent. unfold ret at 1.
    unfold bind at 1. unfold run_stage.
    destruct (run_async (ReviewCluster i (JDict d)) (session c)) as [evs st'|evs st' msg] eqn:Ho.
    + unfold bind at 1. unfold get at 1. cbn [session calls events built].
      set (c1 := {| events := events c ++ map Forwarded evs;
                    calls := calls c ++ [(ReviewCluster i (JDict d), Completed evs st')];
                    built := built c;
                    session := st' |}).
      destruct (truthy (state_get st' (lit "review_" ++ of_nat i))) eqn:Et.
      * destruct (decode json_loads (state_get st' (lit "review_" ++ of_nat i)))
          as [data|] eqn:Ed.
        -- destruct (IH (S i) (acc ++ [data]) c1) as (new & E & Hn).
           exists ((ReviewCluster i (JDict d), Completed evs st') :: new). split.
           ++ rewrite E. unfold c1. simpl. now rewrite <- app_assoc.
           ++ intros pre e post j Hd Hf. destruct pre as [|x pre].
              ** injection Hd as <- _.
                 destruct Hf as (cl & evs' & st'' & He & Hfail).
                 injection He as <- _ _ <-.
                 apply review_failed_stops in Hfail as [Hfail|Hfail]; congruence.
              ** injection Hd as _ Hd. apply (Hn pre e post j); assumption.
        -- exists [(ReviewCluster i (JDict d), Completed evs st')]. split; [reflexivity|].
           intros pre e post j Hd Hf. destruct pre as [|? [|? ?]]; try discriminate.
           injection Hd as <- <-. split; [reflexivity|].
           destruct Hf as (cl & evs' & st'' & He & _). injection He as <- _ _ _.
           eexists. reflexivity.
      * exists [(ReviewCluster i (JDict d), Completed evs st')]. split; [reflexivity|].
        intros pre e post j Hd Hf. destruct pre as [|? [|? ?]]; try discriminate.
        injection Hd as <- <-. split; [reflexivity|].
        destruct Hf as (cl & evs' & st'' & He & _). injection He as <- _ _ _.
        eexists. reflexivity.
    + exists [(ReviewCluster i (JDict d), Raises evs st' msg)]. split; [reflexivity|].
      intros pre e post j Hd (cl & evs' & st'' & He & _).
      destruct pre as [|? [|? ?]]; try discriminate.
      injection Hd as <- _. discriminate.
Qed.

Lemma aborts_workflow (c : ctx ev) :
  aborts_on_failure json_loads c (workflow U run_async json_loads c).
Proof.
  unfold workflow.
  apply aborts_bind; [now apply aborts_no_call|]. intros pr_url c1 _.
  destruct (truthy pr_url); simpl negb; cbv iota; [|now apply aborts_no_call].
  destruct (_validate_pr_url U pr_url); simpl negb; cbv iota; [|now apply aborts_no_call].
  apply aborts_bind; [apply aborts_run_stage; discriminate|]. intros ? c2 _.
  apply aborts_bind; [now apply aborts_no_call|]. intros base_clusters c3 _.
  destruct (truthy base_clusters); simpl negb; cbv iota; [|now apply aborts_no_call].
  destruct (parse_clusters json_loads base_clusters) as [[cd cl]|];
    [|now apply aborts_no_call].
  apply aborts_bind;
    [unfold iterate; destruct (items_of cl); now apply aborts_no_call|].
  intros items c4 _.
  apply aborts_bind; [apply aborts_review_loop|]. intros revs c5 _.
  apply aborts_bind; [apply aborts_run_stage; discriminate|]. intros ? c6 _.
  apply aborts_bind; [now apply aborts_no_call|]. intros filtered c7 _.
  destruct (truthy filtered); simpl negb; cbv iota; [|now apply aborts_no_call].
  apply aborts_bind; [apply aborts_run_stage; discriminate|]. intros ? c8 _.
  apply aborts_bind; [now apply aborts_no_call|]. intros post_output c9 _.
  destruct (truthy post_output); simpl negb; cbv iota; now apply aborts_no_call.
Qed.

(** *** Which cluster a review is for *)

Lemma calls_satisfy_none {A} (P : stage * outcome ev -> Prop) (c : ctx ev) (f : flow ev A) :
  calls (ctx_of f) = calls c -> calls_satisfy P c f.
Proof. intro E. exists []. split; [now rewrite app_nil_r | constructor]. Qed.

Lemma calls_satisfy_bind {A B} (P : stage * outcome ev -> Prop)
    (m : M ev A) (k : A -> M ev B) (c : ctx ev) :
  calls_satisfy P c (m c) ->
  (forall a c', m c = Next a c' -> calls_satisfy P c' (k a c')) ->
  calls_satisfy P c (bind m k c).
Proof.
  unfold bind. intros (new1 & E1 & H1) Hk.
  destruct (m c) as [a c1|c1|e1 c1] eqn:Em; try (exists new1; now split).
  destruct (Hk a c1 eq_refl) as (new2 & E2 & H2). simpl in E1.
  exists (new1 ++ new2). split; [now rewrite E2, E1, app_assoc|].
  apply Forall_app. now split.
Qed.

Lemma calls_satisfy_run_stage (P : stage * outcome ev -> Prop) (s : stage) (c : ctx ev) :
  P (s, run_async s (session c)) -> calls_satisfy P c (run_stage run_async s c).
Proof.
  intro Hp. unfold run_stage. exists [(s, run_async s (session c))]. split.
  - destruct (run_async s (session c)); reflexivity.
  - now constructor.
Qed.

Lemma calls_satisfy_impl {A} (P Q : stage * outcome ev -> Prop) (c : ctx ev) (f : flow ev A) :
  (forall e, P e -> Q e) -> calls_satisfy P c f -> calls_satisfy Q c f.
Proof.
  intros Hpq (new & E & Hn). exists new. split; [exact E|].
  eapply Forall_impl; eauto.
Qed.

Lemma review_loop_is_indexed (clusters : list json) :
  forall i all_reviews c,
    calls_satisfy (indexed_from i clusters) c
      (review_loop run_async json_loads i clusters all_reviews c).
Proof.
  induction clusters as [|cluster rest IH]; intros i acc c.
  - now apply calls_satisfy_none.
  - rewrite review_loop_cons.
    apply calls_satisfy_bind.
    { destruct cluster; now apply calls_satisfy_none. }
    intros agent c1 Hagent.
    assert (agent = ReviewCluster i cluster) as ->.
    { destruct cluster; try discriminate. now injection Hagent as <- _. }
    apply calls_satisfy_bind.
    { apply calls_satisfy_run_stage. intros j cl E. simpl in E. injection E as <- <-.
      exists 0%nat. split; [lia | reflexivity]. }
    intros ? c2 _.
    apply calls_satisfy_bind; [now apply calls_satisfy_none|]. intros rr c3 _.
    destruct (truthy rr); [|now apply calls_satisfy_none].
    destruct (decode json_loads rr) as [d|]; [|now apply calls_satisfy_none].
    eapply calls_satisfy_impl; [|apply IH].
    intros e He j cl E. destruct (He j cl E) as (k & -> & Hk).
    exists (S k). split; [lia | exact Hk].
Qed.

(** The invocations of a run are those of the body of the workflow. *)
Lemma calls_of_run (st : state) :
  calls (ended (run st))
  = calls (ctx_of (workflow U run_async json_loads
                     {| events := []; calls := []; built := []; session := st |})).
Proof.
  unfold _run_async_impl.
  destruct (workflow U run_async json_loads
              {| events := []; calls := []; built := []; session := st |});
    reflexivity.
Qed.

(** Every review a run invokes is for the cluster at its index in the
    clusters the first stage delivered. *)
Lemma reviews_follow_the_clusters (st : state) (i : nat) (cluster : json)
    (o : outcome ev) :
  In (ReviewCluster i cluster, o) (calls (ended (run st))) ->
  exists evs1 st1 cd cl items,
    run_async (FetchCluster (state_get st (lit "pr_url"))) st = Completed evs1 st1
    /\ parse_clusters json_loads (state_get st1 (lit "base_clusters")) = Some (cd, cl)
    /\ items_of cl = Some items
    /\ nth_error items i = Some cluster.
Proof.
  set (P := fun e : stage * outcome ev =>
              forall i cluster, fst e = ReviewCluster i cluster ->
                exists evs1 st1 cd cl items,
                  run_async (FetchCluster (state_get st (lit "pr_url"))) st
                  = Completed evs1 st1
                  /\ parse_clusters json_loads (state_get st1 (lit "base_clusters"))
                     = Some (cd, cl)
                  /\ items_of cl = Some items
                  /\ nth_error items i = Some cluster).
  assert (Hall : calls_satisfy P {| events := []; calls := []; built := []; session := st |}
                   (workflow U run_async json_loads
                      {| events := []; calls := []; built := []; session := st |})).
  { unfold workflow.
    apply calls_satisfy_bind; [now apply calls_satisfy_none|]. intros pr_url c1 Hget.
    injection Hget as Hurl Hc1. subst pr_url c1. cbn [session].
    destruct (truthy _); cbn [negb]; [|now apply calls_satisfy_none].
    destruct (_validate_pr_url U _); cbn [negb]; [|now apply calls_satisfy_none].
    apply calls_satisfy_bind.
    { apply calls_satisfy_run_stage. intros j cl E. discriminate E. }
    intros ? c2 Hrun. unfold run_stage in Hrun. cbn [session] in Hrun.
    destruct (run_async (FetchCluster (state_get st (lit "pr_url"))) st)
      as [evs1 st1|] eqn:Hfetch; [|discriminate].
    injection Hrun as Hc2. subst c2.
    apply calls_satisfy_bind; [now apply calls_satisfy_none|]. intros base c3 Hget.
    injection Hget as Hbase Hc3. subst base c3. cbn [session].
    destruct (truthy _); cbn [negb]; [|now apply calls_satisfy_none].
    destruct (parse_clusters json_loads (state_get st1 (lit "base_clusters")))
      as [[cd cl]|] eqn:Ep; [|now apply calls_satisfy_none].
    apply calls_satisfy_bind.
    { unfold iterate. destruct (items_of cl); now apply calls_satisfy_none. }
    intros items c4 Hit. unfold iterate in Hit.
    destruct (items_of cl) as [items'|] eqn:Ei; [|discriminate].
    injection Hit as Hitems Hc4. subst items c4.
    apply calls_satisfy_bind.
    { eapply calls_satisfy_impl; [|apply review_loop_is_indexed].
      intros e He j c E. destruct (He j c E) as (k & -> & Hk).
      exists evs1, st1, cd, cl, items'. now repeat split. }
    intros revs c5 _.
    apply calls_satisfy_bind.
    { apply calls_satisfy_run_stage. intros j c E. discriminate E. }
    intros ? c6 _.
    apply calls_satisfy_bind; [now apply calls_satisfy_none|]. intros filtered c7 _.
    destruct (truthy filtered); simpl negb; cbv iota; [|now apply calls_satisfy_none].
    apply calls_satisfy_bind.
    { apply calls_satisfy_run_stage. intros j c E. discriminate E. }
    intros ? c8 _.
    apply calls_satisfy_bind; [now apply calls_satisfy_none|]. intros post c9 _.
    destruct (truthy post); simpl negb; cbv iota; now apply calls_satisfy_none. }
  intro Hin. rewrite calls_of_run in Hin.
  destruct Hall as (new & E & Hnew). simpl in E.
  rewrite Forall_forall in Hnew.
  apply (Hnew (ReviewCluster i cluster, o)); [|reflexivity].
  now rewrite <- E.
Qed.

(** C6, what the code does.  If the invocation that reviews cluster [i]
    completes and leaves [review_i] absent, or holding a text that does
    not decode, it is the last invocation of the run: no later cluster is
    reviewed and no later stage runs.  The run builds the failure that
    names the cluster, with [success] false, the error
    "Review failed for cluster i" and no reviews, but it does not yield
    it: [Event] refuses it, the handler builds the failure
    "Unexpected error: ..." for that refusal, which is refused too, and
    the run ends by raising, having yielded only what the stages
    yielded. *)
Theorem failed_review_aborts_the_run
    (st : state) (pre post : list (stage * outcome ev))
    (i : nat) (cluster : json) (evs : list ev) (st' : state) :
  calls (ended (run st))
  = pre ++ (ReviewCluster i cluster, Completed evs st') :: post ->
  review_failed json_loads st' i ->
  post = []
  /\ built (ended (run st))
     = [ {| success := false;
            error := Some (lit "Review failed for cluster " ++ of_nat i);
            clusters := None; reviews := None; summary := None |};
         unexpected (validation_error_text (review_failure i)) ]
  /\ events (ended (run st)) = forwarded (calls (ended (run st)))
  /\ exists c,
       run st = Raised (ValidationError
                          (unexpected (validation_error_text (review_failure i)))) c.
Proof.
  intros Hcalls Hfail.
  pose proof (workflow_ends st) as Hw.
  destruct (aborts_workflow {| events := []; calls := []; built := []; session := st |})
    as (new & Enew & Hnew).
  unfold _run_async_impl in *.
  destruct (workflow U run_async json_loads
              {| events := []; calls := []; built := []; session := st |})
    as [[] c1|c1|e c1]; simpl in Hw; try contradiction.
  cbn [emit ended calls built events] in *. simpl in Enew. rewrite Enew in Hcalls.
  assert (Hf : failing_call json_loads (ReviewCluster i cluster, Completed evs st') i)
    by (exists cluster, evs, st'; now split).
  destruct (Hnew pre _ post i Hcalls Hf) as (Hpost & c' & Hret).
  injection Hret as -> _.
  destruct Hw as (_ & _ & Hev & Hb & _).
  rewrite Hb. repeat split; try assumption.
  eexists. reflexivity.
Qed.

End Runs.

Lemma invalid_pr_url_stops_the_run_witness :
  calls (ended (_run_async_impl ascii_only idle no_json pydantic_says
                  [(lit "pr_url", JStr (lit "https://example.org/acme/widgets/pull/42"))]))
  = []
  /\ hd_error
       (built (ended (_run_async_impl ascii_only idle no_json pydantic_says
                        [(lit "pr_url",
                          JStr (lit "https://example.org/acme/widgets/pull/42"))])))
     = Some {| success := false;
               error := Some (lit "Invalid pr_url format");
               clusters := None; reviews := None; summary := None |}.
Proof.
  refine (proj1 (invalid_pr_url_stops_the_run ascii_only unit idle no_json pydantic_says
                   [(lit "pr_url", JStr (lit "https://example.org/acme/widgets/pull/42"))])
                eq_refl _).
  intros u Hu Hs. injection Hu as <-.
  assert (Hv : validate_pr_url_str ascii_only
                 (lit "https://example.org/acme/widgets/pull/42") = true).
  { apply validate_pr_url_str_spec. split; [discriminate | exact Hs]. }
  discriminate Hv.
Defined.

(** C2 as stated does not hold.  An empty URL does not have the required
    shape, and the failure the run builds is "No pr_url provided", not
    "Invalid pr_url format".  The URL of the scenario with the scheme
    [ftp] passes the validator, and the first stage is invoked. *)
Lemma other_outcomes_of_a_wrong_url :
  hd_error (built (ended (_run_async_impl ascii_only idle no_json pydantic_says
                            [(lit "pr_url", JStr [])])))
  = Some (_create_error_response (lit "No pr_url provided"))
  /\ _validate_pr_url ascii_only (JStr (lit "ftp://github.com/acme/widgets/pull/42")) = true
  /\ calls (ended (_run_async_impl ascii_only idle no_json pydantic_says
                     [(lit "pr_url", JStr (lit "ftp://github.com/acme/widgets/pull/42"))]))
     = [(FetchCluster (JStr (lit "ftp://github.com/acme/widgets/pull/42")),
         Completed [] [(lit "pr_url",
                        JStr (lit "ftp://github.com/acme/widgets/pull/42"))])].
Proof. repeat split; reflexivity. Qed.

(** Every stage delivers: the success the run builds has the shape. *)
Lemma run_result_invariant_witness :
  result_shape {| success := true;
                  error := None;
                  clusters := Some two_clusters;
                  reviews := Some [review_of "core"; review_of "docs"];
                  summary := Some (JStr (lit "## Code Review Summary")) |}.
Proof.
  apply (run_result_invariant ascii_only nat (scripted false) no_json pydantic_says st0).
  left. left. reflexivity.
Defined.

(** *** The scenarios of the specification *)

(** Scenario A: every stage delivers, and the success is refused. *)
Example scenario_a :
  _run_async_impl ascii_only (scripted false) no_json pydantic_says st0
  = Raised (ValidationError (unexpected (lit "validation errors for Event")))
      {| events := map Forwarded [1; 2; 3; 4; 5]%nat;
         calls := calls (ended (_run_async_impl ascii_only (scripted false) no_json
                                  pydantic_says st0));
         built := [ {| success := true;
                       error := None;
                       clusters := Some two_clusters;
                       reviews := Some [review_of "core"; review_of "docs"];
                       summary := Some (JStr (lit "## Code Review Summary")) |};
                    unexpected (lit "validation errors for Event") ];
         session := session (ended (_run_async_impl ascii_only (scripted false) no_json
                                      pydantic_says st0)) |}.
Proof. reflexivity. Qed.

(** Scenario B: the second review is garbled. *)
Lemma failed_review_aborts_the_run_witness :
  built (ended (_run_async_impl ascii_only (scripted true) no_json pydantic_says st0))
  = [ {| success := false;
         error := Some (lit "Review failed for cluster 1");
         clusters := None; reviews := None; summary := None |};
      unexpected (lit "validation errors for Event") ]
  /\ events (ended (_run_async_impl ascii_only (scripted true) no_json pydantic_says st0))
     = map Forwarded [1; 2; 3]%nat.
Proof.
  destruct (failed_review_aborts_the_run ascii_only nat (scripted true) no_json
              pydantic_says st0
              [(FetchCluster pr_42, Completed [1%nat] st1);
               (ReviewCluster 0 (JDict [(lit "name", JStr (lit "core"))]),
                Completed [2%nat] st2)]
              [] 1 (JDict [(lit "name", JStr (lit "docs"))]) [3%nat] st3
              eq_refl
              (or_intror (ex_intro _ (lit "<<not json>>") (conj eq_refl eq_refl))))
    as (_ & Hb & He & _).
  split; [exact Hb | exact He].
Defined.

End AgentFacts.

(* ================================================================== *)
(** * The models on small inputs *)
(* ================================================================== *)

Module Examples.
Import GrepTool Agent BashTool Sample GrepSpec.

Example fnmatch_suffix : fnmatch (lit "/w/a.pyc") (lit "*.pyc") = true.
Proof. reflexivity. Qed.

Example fnmatch_directory_pattern :
  fnmatch (lit "node_modules/x.js") (lit "node_modules/*") = true
  /\ fnmatch (lit "/w/node_modules/x.js") (lit "node_modules/*") = false.
Proof. split; reflexivity. Qed.

Example fnmatch_class : fnmatch (lit "image7.png") (lit "image[0-9].p?g") = true.
Proof. reflexivity. Qed.

Example fnmatch_negated_class : fnmatch (lit "a.c") (lit "*.[!ch]") = false.
Proof. reflexivity. Qed.

Example fnmatch_open_bracket : fnmatch (lit "a[b") (lit "a[b") = true.
Proof. reflexivity. Qed.

Example fnmatch_whole_name : fnmatch (lit "class Team:") (lit "Team") = false.
Proof. reflexivity. Qed.

Example resolve_relative :
  resolve [lit "srv"; lit "app"] (lit "pkg/../../x/./y") = [lit "srv"; lit "x"; lit "y"].
Proof. reflexivity. Qed.

Example resolve_above_root : resolve [lit "srv"] (lit "../../etc") = [lit "etc"].
Proof. reflexivity. Qed.

Example should_skip_compiled :
  should_skip_path [lit "w"; lit "__pycache__"; lit "m.pyc"] = true.
Proof. reflexivity. Qed.

Example should_skip_not_build_cache :
  should_skip_path [lit "w"; lit "node_modules"] = false
  /\ should_skip_path [lit "w"; lit "node_modules"; lit "index.js"] = false.
Proof. split; reflexivity. Qed.

Example find_files_small_project :
  find_files ascii_only host_app tools_app (lit ".") (lit "*.py") 1%Z false []
  = ([OpResolve (lit "."); OpExists [lit "srv"; lit "app"];
      OpIsFile [lit "srv"; lit "app"]; OpWalk [lit "srv"; lit "app"]],
     find_files_render [(true, lit "main.py"); (true, lit "pkg/mod1.py")]).
Proof. reflexivity. Qed.

Example find_files_depth_zero :
  snd (find_files ascii_only host_app tools_app (lit ".") (lit "*") 0%Z false [])
  = find_files_render [(false, lit "pkg"); (true, lit "main.py"); (true, lit "notes")].
Proof. reflexivity. Qed.

Example find_files_unexpected_argument :
  find_files ascii_only host_app tools_app (lit ".") (lit "x") 1%Z false
    [(lit "limit", lit "3")]
  = ([], lit "Error: Unexpected arguments: {'limit': 3}" ++ [10]
         ++ lit "Supported args: path, pattern, depth, is_case_sensitive").
Proof. reflexivity. Qed.

Example find_text_in_small_project :
  find_text_in_files ascii_only 100%Z host_app tools_app
    (lit "import") (lit ".") true false []
  = ([OpResolve (lit "."); OpExists [lit "srv"; lit "app"];
      OpIsFile [lit "srv"; lit "app"]; OpRglob [lit "srv"; lit "app"];
      OpOpen [lit "srv"; lit "app"; lit "main.py"]; OpResolve (lit ".");
      OpOpen [lit "srv"; lit "app"; lit "notes"];
      OpOpen [lit "srv"; lit "app"; lit "pkg"; lit "mod1.py"]],
     [10] ++ lit "Pattern matches found in 'main.py':" ++ [10] ++ lit "Line 1: import pkg").
Proof. reflexivity. Qed.

Example find_text_nothing :
  snd (find_text_in_files ascii_only 100%Z host_app tools_app
         (lit "class") (lit ".") true false [])
  = lit "Error: No matches found.".
Proof. reflexivity. Qed.

Example read_file_lines :
  read_file
    {| cwd := []; fsroot := Dir [(lit "f", File (Text (lit "one" ++ [10] ++ lit "two" ++ [10] ++ lit "three")))] |}
    {| working_dir := [] |} (lit "f") (Some 2%Z) (Some 3%Z)
  = ([OpResolve (lit "f"); OpIsFile [lit "f"]; OpOpen [lit "f"]],
     lit "two" ++ [10] ++ lit "three").
Proof. reflexivity. Qed.

Example read_file_directory :
  read_file host_app tools_app (lit "pkg") None None
  = ([OpResolve (lit "pkg"); OpIsFile [lit "srv"; lit "app"; lit "pkg"]],
     lit "Error: /srv/app/pkg is not a file").
Proof. reflexivity. Qed.

Example decode_euro : decode_utf8 [226; 130; 172] = Some [8364].
Proof. reflexivity. Qed.

Example decode_overlong : decode_utf8 [192; 128] = None.
Proof. reflexivity. Qed.

Example decode_surrogate : decode_utf8 [237; 160; 128] = None.
Proof. reflexivity. Qed.

Example repr_arguments :
  repr_list ascii_only [lit "pr"; lit "a\b"; [10]] = lit "['pr', 'a\\b', '\n']".
Proof. reflexivity. Qed.

Example tools_for_gh_and_git :
  get_bash_tool ascii_only (Some [lit "gh"; lit "git"]) (Some 10000%Z)
  = Returned [ {| command := lit "gh"; truncate_length := Some 10000%Z |};
               {| command := lit "git"; truncate_length := Some 10000%Z |} ].
Proof. reflexivity. Qed.

Example tool_name_must_be_an_identifier :
  get_bash_tool ascii_only (Some [lit "gh"; lit "docker-compose"]) None = Raised SyntaxError.
Proof. reflexivity. Qed.

Example negative_budget_always_cuts :
  cli_call ascii_only (lit "...") BashSample.gh_prints
    {| command := lit "gh"; truncate_length := Some (-6)%Z |} []
  = Returned (lit "hello...").
Proof. reflexivity. Qed.

Example urlparse_pull_request :
  urlparse (lit "https://github.com/acme/widgets/pull/42?diff=split#top")
  = Some {| scheme := lit "https"; netloc := lit "github.com";
            path := lit "/acme/widgets/pull/42"; params := [];
            query := lit "diff=split"; fragment := lit "top" |}.
Proof. reflexivity. Qed.

Example urlparse_no_scheme :
  urlparse (lit "github.com/acme/widgets/pull/42")
  = Some {| scheme := []; netloc := [];
            path := lit "github.com/acme/widgets/pull/42"; params := [];
            query := []; fragment := [] |}.
Proof. reflexivity. Qed.

Example int_accepts :
  map (int_ok ascii_only) (map lit ["42"; " 42 "; "+4_2"; "-0"; "007"]%string)
  = [true; true; true; true; true].
Proof. reflexivity. Qed.

Example int_rejects :
  map (int_ok ascii_only) (map lit [EmptyString; "4__2"; "_4"; "4_"; "+ 5"; "4.0"; "x"]%string)
  = [false; false; false; false; false; false; false].
Proof. reflexivity. Qed.

Example validate_accepts :
  map (validate_pr_url_str ascii_only)
      (map lit ["https://github.com/acme/widgets/pull/42";
                "http://github.com/acme/widgets/pull/42/";
                "//github.com/acme/widgets/pull/42"]%string)
  = [true; true; true].
Proof. reflexivity. Qed.

Example validate_rejects :
  map (validate_pr_url_str ascii_only)
      (map lit ["https://github.com/acme/widgets/pull/x";
                "https://github.com/acme/widgets/issues/42";
                "https://gitlab.com/acme/widgets/pull/42";
                "https://github.com/acme/pull/42";
                "github.com/acme/widgets/pull/42"]%string)
  = [false; false; false; false; false].
Proof. reflexivity. Qed.

Example missing_pr_url :
  _run_async_impl ascii_only AgentSpec.idle AgentSpec.no_json AgentSpec.pydantic_says []
  = Agent.Raised
      (ValidationError (AgentSpec.unexpected (lit "validation errors for Event")))
      {| events := [];
         calls := [];
         built := [_create_error_response (lit "No pr_url provided");
                   AgentSpec.unexpected (lit "validation errors for Event")];
         session := [] |}.
Proof. reflexivity. Qed.

End Examples.

(* ================================================================== *)
(** * Further properties: the file-system search tools *)
(* ================================================================== *)

Module GrepToolMore.
Import GrepTool Sample GrepSpec MoreSpec GrepToolFacts.

(** ** [read_file] *)

Lemma concat_lines_of (s : str) : concat (lines_of s) = s.
Proof.
  induction s as [|x s IH]; [reflexivity|]. simpl.
  destruct (x =? 10) eqn:E.
  - apply N.eqb_eq in E. subst. simpl. now rewrite IH.
  - destruct (lines_of s) as [|l ls]; simpl in *; now rewrite <- IH.
Qed.

Lemma read_lines_spec (start_line end_line : option Z) (ls : list str) :
  forall i,
    read_lines start_line end_line (enumerate i ls)
    = let lo := match start_line with Some a => Z.max a i | None => i end in
      match end_line with
      | Some b => firstn (Z.to_nat (b - lo + 1)) (skipn (Z.to_nat (lo - i)) ls)
      | None => skipn (Z.to_nat (lo - i)) ls
      end.
Proof.
  induction ls as [|line ls IH]; intro i; cbv zeta.
  - destruct end_line; cbn [enumerate read_lines];
      now rewrite ?skipn_nil, ?firstn_nil.
  - specialize (IH (i + 1)%Z). cbv zeta in IH.
    cbn [enumerate read_lines]. rewrite IH. clear IH.
    destruct start_line as [a|].
    + destruct (Z.ltb_spec i a) as [Hlt|Hge].
      * replace (Z.max a (i + 1)) with a by lia.
        replace (Z.max a i) with a by lia.
        replace (Z.to_nat (a - i)) with (S (Z.to_nat (a - (i + 1)))) by lia.
        reflexivity.
      * replace (Z.max a i) with i by lia.
        replace (Z.max a (i + 1)) with (i + 1)%Z by lia.
        replace (Z.to_nat (i - i)) with 0%nat by lia.
        replace (Z.to_nat (i + 1 - (i + 1))) with 0%nat by lia.
        cbn [skipn].
        destruct end_line as [b|]; [|reflexivity].
        destruct (Z.gtb_spec i b) as [Hgt|Hle].
        -- replace (Z.to_nat (b - i + 1)) with 0%nat by lia. reflexivity.
        -- replace (Z.to_nat (b - i + 1)) with (S (Z.to_nat (b - (i + 1) + 1))) by lia.
           reflexivity.
    + replace (Z.to_nat (i - i)) with 0%nat by lia.
      replace (Z.to_nat (i + 1 - (i + 1))) with 0%nat by lia.
      cbn [skipn].
      destruct end_line as [b|]; [|reflexivity].
      destruct (Z.gtb_spec i b) as [Hgt|Hle].
      * replace (Z.to_nat (b - i + 1)) with 0%nat by lia. reflexivity.
      * replace (Z.to_nat (b - i + 1)) with (S (Z.to_nat (b - (i + 1) + 1))) by lia.
        reflexivity.
Qed.


Section ReadFile.
Variable H : host.
Variable self : GrepTools.


(** X2.  For a readable file inside the working root, reading from a
    start line of 1 or less, without an end, is reading the whole file:
    the text returned is the same. *)
Theorem read_file_from_the_first_line (path content : str) (a : Z) :
  confined self (resolve (cwd H) path) = true ->
  lookup (fsroot H) (resolve (cwd H) path) = Some (File (Text content)) ->
  (a <= 1)%Z ->
  read_file H self path (Some a) None = read_file H self path None None.
Proof.
  intros Hconf Hlook Ha. unfold read_file. rewrite Hconf, Hlook. simpl.
  rewrite (read_lines_spec (Some a) None). simpl.
  replace (Z.max a 1) with 1%Z by lia. simpl. now rewrite concat_lines_of.
Qed.


End ReadFile.


Lemma read_file_from_the_first_line_witness :
  read_file host_app tools_app (lit "main.py") (Some (-3)%Z) None
  = read_file host_app tools_app (lit "main.py") None None.
Proof.
  apply (read_file_from_the_first_line host_app tools_app (lit "main.py")
           (lit "import pkg") (-3)%Z eq_refl eq_refl).
  lia.
Defined.


(** ** Where the tools go *)

Lemma path_eqb_is_prefix (a b : path) : path_eqb a b = true -> is_prefix a b = true.
Proof.
  revert b; induction a as [|x a IH]; intros [|y b] E; simpl in *;
    try reflexivity; try discriminate.
  apply andb_true_iff in E as [-> E]. now apply IH.
Qed.

Lemma is_prefix_app (a b c : path) : is_prefix a b = true -> is_prefix a (b ++ c) = true.
Proof.
  revert b; induction a as [|x a IH]; intros [|y b] E; simpl in *;
    try reflexivity; try discriminate.
  apply andb_true_iff in E as [-> E]. now apply IH.
Qed.

Lemma confined_is_prefix (self : GrepTools) (p : path) :
  confined self p = true -> is_prefix (working_dir self) p = true.
Proof.
  unfold confined, in_parents. intro E. apply orb_true_iff in E as [E|E].
  - now apply andb_true_iff in E as [E _].
  - now apply path_eqb_is_prefix.
Qed.

Lemma find_text_search_stays_below
    (U : unicode_db) (limit : Z) (self : GrepTools)
    (path : str) (resolved_path : list str) (recursive cs : bool) (pat : str) (n : node) :
  is_prefix (working_dir self) resolved_path = true ->
  Forall (op_within path self)
         (fst (find_text_search U limit path resolved_path recursive cs pat n)).
Proof.
  intro Hp. unfold find_text_search.
  match goal with
  | |- context [fold_left ?f ?l ?a] =>
      assert (Hinv : forall l0 acc,
                 Forall (op_within path self) (fst acc) ->
                 Forall (op_within path self) (fst (fold_left f l0 acc)));
        [| specialize (Hinv l a (Forall_nil _)); destruct (fold_left f l a) as [reads fm] ]
  end.
  - induction l0 as [|[rel r] l0 IH]; intros [ops d] Hacc; [exact Hacc|].
    simpl fold_left. apply IH. simpl in Hacc.
    assert (Ho : Forall (op_within path self) (ops ++ [OpOpen (resolved_path ++ rel)])).
    { apply Forall_app. split; [exact Hacc|]. constructor; [|constructor].
      simpl. now apply is_prefix_app. }
    simpl fst. simpl snd. destruct r as [t|e]; [|exact Ho].
    destruct (matches_in_text U limit cs pat t); [exact Ho|].
    simpl. apply Forall_app. split; [exact Ho|]. constructor; [reflexivity | constructor].
  - simpl in Hinv.
    assert (Hall : Forall (op_within path self)
                     ([OpResolve path; OpExists resolved_path; OpIsFile resolved_path]
                      ++ match n with
                         | File _ => []
                         | Dir _ => if recursive then [OpRglob resolved_path]
                                    else [OpIterdir resolved_path]
                         end ++ reads)).
    { apply Forall_app. split.
      - repeat constructor; assumption.
      - apply Forall_app. split; [|exact Hinv].
        destruct n; [constructor|]. destruct recursive; repeat constructor; assumption. }
    match goal with |- context [match ?x with [] => _ | _ :: _ => _ end] => destruct x end;
      exact Hall.
Qed.

Section Confinement.
Variable U : unicode_db.
Variable find_text_char_limit : Z.
Variable H : host.
Variable self : GrepTools.

(** X4.  None of the three tools looks outside the working root: each
    file-system call it makes resolves the path it was given, or tests,
    lists, walks or opens a path that is the working root or lies below
    it.  (The file system of the model has no symbolic links.) *)
Theorem tools_stay_below_the_working_root
    (path unix_pattern : str) (depth : Z) (recursive is_case_sensitive : bool)
    (kwargs : list (str * str)) (start_line end_line : option Z) :
  Forall (op_within path self)
         (fst (find_files U H self path unix_pattern depth is_case_sensitive kwargs))
  /\ Forall (op_within path self)
            (fst (find_text_in_files U find_text_char_limit H self
                    unix_pattern path recursive is_case_sensitive kwargs))
  /\ Forall (op_within path self)
            (fst (read_file H self path start_line end_line)).
Proof.
  split; [|split].
  - unfold find_files. destruct kwargs; [|constructor].
    destruct (confined self (resolve (cwd H) path)) eqn:Hc; simpl.
    + apply confined_is_prefix in Hc.
      destruct (lookup (fsroot H) (resolve (cwd H) path)) as [[r|es]|];
        repeat constructor; assumption.
    + repeat constructor.
  - unfold find_text_in_files. destruct kwargs; [|constructor].
    destruct (str_eqb unix_pattern (lit "*")); [constructor|].
    destruct (confined self (resolve (cwd H) path)) eqn:Hc; simpl.
    + apply confined_is_prefix in Hc.
      destruct (lookup (fsroot H) (resolve (cwd H) path)) as [n|].
      * now apply find_text_search_stays_below.
      * repeat constructor; assumption.
    + repeat constructor.
  - unfold read_file.
    destruct (confined self (resolve (cwd H) path)) eqn:Hc; simpl.
    + apply confined_is_prefix in Hc.
      destruct (lookup (fsroot H) (resolve (cwd H) path)) as [[r|es]|];
        repeat constructor; assumption.
    + repeat constructor.
Qed.

(** X5.  On a POSIX host [is_case_sensitive] changes nothing: there
    [fnmatch.fnmatch] normalises neither the name nor the pattern, so both
    search tools answer the same with the flag set and unset. *)
Theorem case_flag_has_no_effect
    (path unix_pattern : str) (depth : Z) (recursive : bool)
    (kwargs : list (str * str)) (cs cs' : bool) :
  find_files U H self path unix_pattern depth cs kwargs
  = find_files U H self path unix_pattern depth cs' kwargs
  /\ find_text_in_files U find_text_char_limit H self unix_pattern path recursive cs kwargs
     = find_text_in_files U find_text_char_limit H self unix_pattern path recursive cs' kwargs.
Proof.
  assert (Em : matcher cs = matcher cs') by (destruct cs, cs'; reflexivity).
  split.
  - unfold find_files, find_files_hits, find_files_visit, find_files_entry.
    now rewrite Em.
  - unfold find_text_in_files, find_text_search, matches_in_text.
    now rewrite Em.
Qed.

End Confinement.

(** ** What [find_files] lists *)

(** Every triple of the walk lists a directory the walk was allowed to go
    down to. *)
Lemma os_walk_kept keep (top : node) :
  forall rel0 rel dirs files,
    In (rel, dirs, files) (os_walk keep rel0 top) ->
    exists q es,
      rel = rel0 ++ q /\ dirs = dir_names es /\ files = file_names es
      /\ (forall name child, In (name, child) es -> entry_at top (q ++ [name]) child)
      /\ (forall q1 d q2, q = q1 ++ d :: q2 -> keep (rel0 ++ q1) d = true).
Proof.
  induction top as [r|es IH] using node_nested_ind; intros rel0 rel dirs files Hin.
  - contradiction.
  - rewrite os_walk_dir in Hin. destruct Hin as [E|Hin].
    + injection E as <- <- <-. exists [], es. rewrite app_nil_r.
      repeat split.
      * intros name child Hc. now apply entry_here.
      * intros q1 d q2 E. destruct q1; discriminate.
    + apply in_flat_map in Hin as ([name d] & He & Hin). simpl in Hin.
      destruct (is_dir_node d && keep rel0 name) eqn:Ek; [|contradiction].
      apply andb_true_iff in Ek as [_ Ek].
      rewrite Forall_forall in IH. specialize (IH (name, d) He). simpl in IH.
      destruct (IH _ _ _ _ Hin) as (q & es' & -> & -> & -> & Hent & Hkept).
      exists (name :: q), es'. rewrite <- app_assoc. repeat split.
      * intros n c Hc. simpl. apply entry_below with d; auto.
      * intros q1 d' q2 E. destruct q1 as [|x q1].
        -- injection E as <- _. now rewrite app_nil_r.
        -- injection E as <- E. specialize (Hkept q1 d' q2 E).
           now rewrite <- app_assoc in Hkept.
Qed.

Lemma dir_names_entry es name :
  In name (dir_names es) -> exists child, In (name, child) es /\ is_dir_node child = true.
Proof.
  unfold dir_names. intro Hin.
  apply in_map_iff in Hin as ([n c] & <- & Hf).
  apply filter_In in Hf as [Hf Hd]. now exists c.
Qed.

Lemma file_names_entry es name :
  In name (file_names es) -> exists child, In (name, child) es /\ is_dir_node child = false.
Proof.
  unfold file_names. intro Hin.
  apply in_map_iff in Hin as ([n c] & <- & Hf).
  apply filter_In in Hf as [Hf Hd]. exists c. split; [exact Hf|].
  simpl in Hd. now apply negb_true_iff in Hd.
Qed.

Lemma firstn_succ_skipn {A} (k : nat) (l : list A) (d : A) (l2 : list A) :
  skipn k l = d :: l2 -> firstn (S k) l = firstn k l ++ [d].
Proof.
  revert l; induction k as [|k IH]; intros l E.
  - simpl in E. subst l. reflexivity.
  - destruct l as [|x l]; [discriminate|]. simpl in E.
    change (firstn (S (S k)) (x :: l)) with (x :: firstn (S k) l).
    rewrite (IH l E). reflexivity.
Qed.

(** X6.  What [find_files] lists, exactly.  An entry is listed, as a file
    or as a directory according to what it is and under its path relative
    to the searched directory, if and only if: the directory holding it is
    at most [depth] levels down, neither the entry nor a directory on the
    way to it is skipped by [should_skip_path], no part of its relative
    path starts with a dot, and the pattern matches its absolute path. *)
Theorem find_files_lists_exactly
    (resolved_path : path) (depth : Z) (is_case_sensitive : bool)
    (unix_pattern : str) (top : node) (is_file : bool) (listed : str) :
  In (is_file, listed)
     (find_files_hits resolved_path depth is_case_sensitive unix_pattern top)
  <-> exists p child,
        entry_at top p child
        /\ is_file = negb (is_dir_node child)
        /\ listed = rel_str p
        /\ within_depth depth p
        /\ not_deny_listed resolved_path p
        /\ dot_part p = false
        /\ fnmatchcase (path_str (resolved_path ++ p)) unix_pattern = true.
Proof.
  set (rp := resolved_path). split.
  - intro Hin. unfold find_files_hits in Hin.
    apply in_flat_map in Hin as ([[rel dirs] files] & Hw & Hin).
    apply os_walk_kept in Hw as (q & es & Hrel & -> & -> & Hent & Hkept).
    simpl in Hrel. subst rel.
    unfold find_files_visit in Hin.
    destruct (Z.of_nat (length q) >? depth)%Z eqn:Hd; [contradiction|].
    rewrite Z.gtb_ltb in Hd. apply Z.ltb_ge in Hd.
    apply in_flat_map in Hin as ([name isf] & Hname & Hin).
    unfold find_files_entry in Hin.
    destruct (should_skip_path (rp ++ q ++ [name])) eqn:Hskip; [contradiction|].
    destruct (dot_part (q ++ [name])) eqn:Hdot; [contradiction|].
    rewrite matcher_is_fnmatchcase in Hin.
    destruct (fnmatchcase (path_str (rp ++ q ++ [name])) unix_pattern) eqn:Hm;
      [|contradiction].
    destruct Hin as [Hin|[]]. injection Hin as <- <-.
    assert (Hchild : exists child, In (name, child) es
                                   /\ isf = negb (is_dir_node child)).
    { apply in_app_or in Hname as [Hn|Hn].
      - apply in_map_iff in Hn as (d & E & Hn). injection E as <- <-.
        apply filter_In in Hn as [Hn _].
        apply dir_names_entry in Hn as (child & Hc & Hdir).
        exists child. now rewrite Hdir.
      - apply in_map_iff in Hn as (f & E & Hn). injection E as <- <-.
        apply file_names_entry in Hn as (child & Hc & Hdir).
        exists child. now rewrite Hdir. }
    destruct Hchild as (child & Hc & ->).
    exists (q ++ [name]), child. repeat split; auto.
    + unfold within_depth. rewrite length_app. simpl. lia.
    + intros k Hk. rewrite length_app in Hk. simpl in Hk.
      destruct (Nat.eq_dec k (length q + 1)) as [->|Hne].
      * rewrite firstn_all2 by (rewrite length_app; simpl; lia). exact Hskip.
      * assert (Hk' : (k <= length q)%nat) by lia.
        rewrite firstn_app. replace (k - length q)%nat with 0%nat by lia.
        simpl firstn. rewrite app_nil_r.
        destruct k as [|k]; [lia|].
        assert (Hsplit : exists d q2, skipn k q = d :: q2).
        { destruct (skipn k q) as [|d q2] eqn:E; [|now exists d, q2].
          apply (f_equal (@length _)) in E. rewrite length_skipn in E. simpl in E. lia. }
        destruct Hsplit as (d & q2 & Es).
        assert (Eq : q = firstn k q ++ d :: q2) by (now rewrite <- Es, firstn_skipn).
        specialize (Hkept (firstn k q) d q2 Eq).
        unfold find_files_keep in Hkept. simpl in Hkept.
        assert (Hlen : (Z.of_nat (length (firstn k q)) >? depth)%Z = false).
        { rewrite Z.gtb_ltb. apply Z.ltb_ge. rewrite length_firstn. lia. }
        rewrite Hlen in Hkept. apply negb_true_iff in Hkept.
        rewrite (firstn_succ_skipn _ _ _ _ Es). exact Hkept.
  - intros (p & child & Hentry & -> & -> & Hdepth & Hdeny & Hdot & Hm).
    pose proof (entry_at_nonempty _ _ _ Hentry) as Hne.
    destruct (os_walk_visits (find_files_keep rp depth) top p child Hentry [])
      as (es & Hvisit & Hlast).
    { intros q d q' -> Hq'. unfold find_files_keep. simpl.
      destruct (Z.of_nat (length q) >? depth)%Z; [reflexivity|].
      specialize (Hdeny (S (length q))).
      rewrite firstn_app, firstn_all2 in Hdeny by lia.
      replace (S (length q) - length q)%nat with 1%nat in Hdeny by lia.
      simpl in Hdeny. rewrite Hdeny; [reflexivity|].
      rewrite length_app. simpl. lia. }
    simpl in Hvisit.
    unfold find_files_hits. apply in_flat_map.
    eexists. split; [exact Hvisit|].
    assert (Hp : p = removelast p ++ [last p []]) by now apply app_removelast_last.
    assert (Hskip : should_skip_path (rp ++ removelast p ++ [last p []]) = false).
    { rewrite <- Hp. specialize (Hdeny (length p)).
      rewrite firstn_all in Hdeny. apply Hdeny.
      destruct p; [contradiction | simpl; lia]. }
    unfold find_files_visit.
    assert (Hlen : (Z.of_nat (length (removelast p)) >? depth)%Z = false).
    { unfold within_depth in Hdepth. rewrite Hp, length_app in Hdepth.
      simpl in Hdepth. rewrite Z.gtb_ltb. apply Z.ltb_ge. lia. }
    rewrite Hlen. apply in_flat_map.
    exists (last p [], negb (is_dir_node child)). split.
    + apply in_or_app. pose proof (names_of_entry _ _ _ Hlast) as Hn.
      destruct (is_dir_node child); simpl.
      * left. apply (in_map (fun d => (d, false))).
        apply filter_In. split; [exact Hn|]. now rewrite Hskip.
      * right. now apply (in_map (fun f => (f, true))).
    + unfold find_files_entry. rewrite Hskip. rewrite <- Hp. rewrite Hdot.
      rewrite matcher_is_fnmatchcase, Hm. left. reflexivity.
Qed.



(** ** The deny list, on absolute paths *)

Lemma startswith_spec (s p : str) : startswith s p = true <-> exists t, s = p ++ t.
Proof.
  revert s; induction p as [|y p IH]; intros [|x s].
  - split; [intros _; now exists [] | reflexivity].
  - split; [intros _; now exists (x :: s) | reflexivity].
  - split; [discriminate | intros (t & E); discriminate].
  - change (startswith (x :: s) (y :: p)) with ((x =? y) && startswith s p).
    rewrite andb_true_iff, IH, N.eqb_eq. split.
    + intros (-> & t & ->). now exists t.
    + intros (t & E). injection E as -> ->. split; [reflexivity | now exists t].
Qed.

Lemma endswith_spec (s suffix : str) :
  endswith s suffix = true <-> exists pre, s = pre ++ suffix.
Proof.
  unfold endswith. rewrite startswith_spec. split.
  - intros (t & E). exists (rev t).
    apply (f_equal (@rev N)) in E. rewrite rev_involutive, rev_app_distr in E.
    now rewrite rev_involutive in E.
  - intros (pre & ->). exists (rev pre). apply rev_app_distr.
Qed.

Lemma startswith_before_slash (a r q : str) :
  ~ In 47 q -> startswith (a ++ 47 :: r) q = startswith a q.
Proof.
  revert q; induction a as [|x a IH]; intros [|y q] Hq; try reflexivity.
  - change (startswith ([] ++ 47 :: r) (y :: q)) with ((47 =? y) && startswith r q).
    destruct (N.eqb_spec 47 y) as [<-|_]; [|reflexivity].
    exfalso. apply Hq. now left.
  - change (startswith ((x :: a) ++ 47 :: r) (y :: q))
      with ((x =? y) && startswith (a ++ 47 :: r) q).
    rewrite IH; [reflexivity|]. intro Hin. apply Hq. now right.
Qed.

Lemma path_str_last (p : path) (name : str) :
  exists pre, path_str (p ++ [name]) = pre ++ 47 :: name.
Proof.
  induction p as [|x p (pre & IH)].
  - now exists [].
  - exists ((47 :: x) ++ pre). unfold path_str in *. simpl app at 1.
    destruct (p ++ [name]) as [|y l] eqn:E; [now destruct p|].
    change (join [47] (x :: y :: l)) with (x ++ 47 :: join [47] (y :: l)).
    rewrite IH. now rewrite <- app_assoc.
Qed.

Lemma endswith_last_name (p : path) (name suffix : str) :
  has_char 47 suffix = false ->
  endswith (path_str (p ++ [name])) suffix = endswith name suffix.
Proof.
  intro Hs. destruct (path_str_last p name) as (pre & ->).
  unfold endswith. rewrite rev_app_distr. simpl rev. rewrite <- app_assoc. simpl app.
  apply startswith_before_slash.
  rewrite <- in_rev. now apply has_char_false.
Qed.

Lemma re_match_only_literals (p s : str) : re_match (map TLit p) s = true -> s = p.
Proof.
  intro Hm. pose proof (re_match_literal_prefix _ _ Hm) as (s' & E).
  assert (El : literal_prefix (map TLit p) = p).
  { clear. induction p as [|c p IH]; [reflexivity|]. simpl. now rewrite IH. }
  rewrite El in E. subst s.
  rewrite <- (app_nil_r (map TLit p)) in Hm. rewrite re_match_literals in Hm.
  destruct s'; [apply app_nil_r | discriminate].
Qed.

Lemma re_match_literals_refl (p : str) : re_match (map TLit p) p = true.
Proof.
  pose proof (re_match_literals p [] []) as E.
  rewrite !app_nil_r in E. exact E.
Qed.

Lemma re_match_star_literals (suffix s : str) :
  re_match (TStar :: map TLit suffix) s = endswith s suffix.
Proof.
  apply eq_true_iff_eq. rewrite endswith_spec. split.
  - induction s as [|d s IH]; rewrite re_match_star; intro Hm.
    + rewrite orb_false_r in Hm. apply re_match_only_literals in Hm. now exists [].
    + apply orb_true_iff in Hm as [Hm|Hm].
      * apply re_match_only_literals in Hm. now exists [].
      * destruct (IH Hm) as (pre & ->). now exists (d :: pre).
  - intros (pre & ->). apply re_match_star_skip, re_match_literals_refl.
Qed.

Lemma translate_star_literals (suffix : str) :
  forallb literal_char suffix = true ->
  translate (42 :: suffix) = TStar :: map TLit suffix.
Proof.
  intro Hl. unfold translate.
  change (translate_from 0 false (42 :: suffix))
    with (TStar :: translate_from 0 true suffix).
  rewrite <- (app_nil_r suffix) at 1. rewrite translate_literals by assumption.
  simpl. now rewrite app_nil_r.
Qed.

Lemma plain_pattern_on_a_path (pat : str) (p : path) (name : str) :
  plain_pattern pat = true ->
  fnmatch (path_str (p ++ [name])) pat = existsb (endswith name) (suffix_of pat).
Proof.
  unfold plain_pattern, suffix_of. destruct pat as [|c rest]; [discriminate|].
  destruct (N.eqb_spec c 42) as [->|Hc]; intro Hp.
  - apply andb_true_iff in Hp as [Hl Hs]. apply negb_true_iff in Hs.
    unfold fnmatch, fnmatchcase, normcase.
    rewrite translate_star_literals by assumption.
    rewrite re_match_star_literals. simpl. rewrite orb_false_r.
    now apply endswith_last_name.
  - apply andb_true_iff in Hp as [Hl Hs]. apply negb_true_iff in Hs.
    unfold fnmatch, fnmatchcase, normcase, translate.
    change (c :: rest) with ([c] ++ rest).
    rewrite translate_literals by (simpl; now rewrite Hl).
    unfold path_str. simpl. now rewrite Hs.
Qed.

Lemma plain_patterns_on_a_path (l : list str) (p : path) (name : str) :
  forallb plain_pattern l = true ->
  existsb (fnmatch (path_str (p ++ [name]))) l
  = existsb (endswith name) (flat_map suffix_of l).
Proof.
  induction l as [|pat l IH]; intro Hl; [reflexivity|].
  simpl in Hl. apply andb_true_iff in Hl as [Hp Hl].
  simpl. rewrite existsb_app, (plain_pattern_on_a_path _ _ _ Hp), IH by assumption.
  reflexivity.
Qed.

(** X8.  On the absolute paths it is given, [should_skip_path] is a test
    of the ending of the last name: a path is skipped if and only if its
    last component ends with what follows the [*] in one of the patterns
    [*.ext] of the deny list.  The other patterns of the list never
    decide, and the root itself is never skipped. *)
Theorem skipping_is_by_suffix (p : path) (name : str) :
  should_skip_path (p ++ [name]) = existsb (endswith name) skipped_suffixes
  /\ should_skip_path [] = false.
Proof.
  split; [|reflexivity].
  unfold should_skip_path, skipped_suffixes.
  apply plain_patterns_on_a_path. reflexivity.
Qed.

(** ** Patterns without and with wildcards *)

Lemma re_match_literals_star (p s : str) :
  re_match (map TLit p ++ [TStar]) s = true -> exists post, s = p ++ post.
Proof.
  intro Hm. apply re_match_literal_prefix in Hm as (s' & E).
  assert (El : literal_prefix (map TLit p ++ [TStar]) = p).
  { clear. induction p as [|c p IH]; [reflexivity|]. simpl. now rewrite IH. }
  rewrite El in E. now exists s'.
Qed.

Lemma re_match_star_literals_star (p s : str) :
  re_match (TStar :: map TLit p ++ [TStar]) s = true -> contains s p.
Proof.
  induction s as [|d s IH]; rewrite re_match_star; intro Hm.
  - rewrite orb_false_r in Hm. apply re_match_literals_star in Hm as (post & E).
    now exists [], post.
  - apply orb_true_iff in Hm as [Hm|Hm].
    + apply re_match_literals_star in Hm as (post & E). now exists [], post.
    + destruct (IH Hm) as (pre & post & ->). now exists (d :: pre), post.
Qed.

(** X9.  A pattern without [*], [?] and [[] is a substring test: after
    the implicit widening it matches a text if and only if the pattern
    occurs in the text, with the case flag set or not.  This is the test
    [find_files] makes on absolute paths and [find_text_in_files] on the
    lines. *)
Theorem wildcard_free_pattern_is_a_substring_test
    (unix_pattern s : str) (is_case_sensitive : bool) :
  has_wildcard unix_pattern = false ->
  matcher is_case_sensitive s (widen_pattern unix_pattern) = true
  <-> contains s unix_pattern.
Proof.
  intro Hw. rewrite matcher_is_fnmatchcase. split.
  - pose proof (has_wildcard_false unix_pattern Hw) as Hl.
    unfold has_wildcard in Hw.
    apply orb_false_iff in Hw as [Hw _]. apply orb_false_iff in Hw as [H42 _].
    unfold widen_pattern. rewrite H42. simpl negb. cbv iota.
    unfold fnmatchcase, translate.
    change (lit "*" ++ unix_pattern ++ lit "*") with (42 :: (unix_pattern ++ [42])).
    change (translate_from 0 false (42 :: unix_pattern ++ [42]))
      with (TStar :: translate_from 0 true (unix_pattern ++ [42])).
    rewrite translate_literals by assumption.
    assert (Et : translate_from 0 (match unix_pattern with [] => true | _ => false end) [42]
                 = match unix_pattern with [] => [] | _ => [TStar] end).
    { destruct unix_pattern; reflexivity. }
    rewrite Et. destruct unix_pattern as [|c q].
    + intros _. now exists [], s.
    + apply re_match_star_literals_star.
  - now apply widened_literal_matches.
Qed.

Lemma wildcard_free_pattern_is_a_substring_test_witness :
  matcher false (lit "def main():") (widen_pattern (lit "main")) = true.
Proof.
  refine (proj2 (wildcard_free_pattern_is_a_substring_test
                   (lit "main") (lit "def main():") false eq_refl) _).
  exists (lit "def "), (lit "():"). reflexivity.
Defined.

(** ** The end of a pattern is the end of the line *)









Section Anchoring.
Variable U : unicode_db.
Variable find_text_char_limit : Z.
Variable H : host.
Variable self : GrepTools.


End Anchoring.


(** ** Searching one file *)


Section OneFile.
Variable U : unicode_db.
Variable find_text_char_limit : Z.
Variable H : host.
Variable self : GrepTools.


End OneFile.


(** ** Paths that stay inside *)

Lemma is_prefix_refl (a : path) : is_prefix a a = true.
Proof. induction a as [|x a IH]; [reflexivity|]. simpl. now rewrite str_eqb_refl. Qed.

Lemma is_prefix_confined (self : GrepTools) (p : path) :
  is_prefix (working_dir self) p = true -> confined self p = true.
Proof.
  unfold confined, in_parents. intros ->.
  now destruct (path_eqb (working_dir self) p).
Qed.

Lemma resolve_steps_stay_below (w : path) (parts : list str) :
  forall acc,
    (forall part, In part parts -> part <> lit "..") ->
    is_prefix w acc = true ->
    is_prefix w (fold_left resolve_step parts acc) = true.
Proof.
  induction parts as [|part parts IH]; intros acc Hparts Hacc; [exact Hacc|].
  simpl. apply IH.
  - intros q Hq. apply Hparts. now right.
  - unfold resolve_step.
    destruct (str_eqb part [] || str_eqb part (lit ".")); [exact Hacc|].
    destruct (str_eqb part (lit "..")) eqn:E.
    + apply str_eqb_eq in E. exfalso. apply (Hparts part); [now left | exact E].
    + now apply is_prefix_app.
Qed.

(** X12.  On a file system without symbolic links, tools made without
    a working directory are confined to the current directory, and they
    accept every relative path that can be resolved (no NUL character, no
    surrogate the file-system encoding refuses) and has no [..] part: the
    path resolves to the current directory or below it, and each tool
    passes its confinement check with the resolved path ([find_files]
    when it is given no unknown argument, [find_text_in_files] when,
    besides, its pattern is not the bare [*]). *)
Theorem relative_paths_are_accepted (U : unicode_db) (H : host) (path : str) :
  let self := GrepToolsInit.__init__ H None in
  fs_encodable path = true ->
  startswith path [47] = false ->
  (forall part, In part (split 47 path) -> part <> lit "..") ->
  confined self (resolve (cwd H) path) = true
  /\ enter_read_file H self path = Passes (resolve (cwd H) path)
  /\ enter_find_files U H self path [] = Passes (resolve (cwd H) path)
  /\ (forall unix_pattern,
        unix_pattern <> lit "*" ->
        enter_find_text_in_files U H self unix_pattern path []
        = Passes (resolve (cwd H) path)).
Proof.
  intros self Henc Hrel Hparts.
  assert (Hc : confined self (resolve (cwd H) path) = true).
  { apply is_prefix_confined. unfold resolve. rewrite Hrel.
    apply resolve_steps_stay_below; [exact Hparts | apply is_prefix_refl]. }
  split; [exact Hc|]. split; [|split].
  - unfold enter_read_file. now rewrite Henc, Hc.
  - unfold enter_find_files. now rewrite Henc, Hc.
  - intros pat Hne. unfold enter_find_text_in_files.
    apply str_eqb_neq in Hne. now rewrite Hne, Henc, Hc.
Qed.

Lemma relative_paths_are_accepted_witness :
  enter_read_file host_app (GrepToolsInit.__init__ host_app None) (lit "pkg/./mod1.py")
  = Passes (map lit ["srv"; "app"; "pkg"; "mod1.py"]%string).
Proof.
  refine (proj1 (proj2 (relative_paths_are_accepted ascii_only host_app (lit "pkg/./mod1.py")
                          eq_refl eq_refl _))).
  intros part Hin. simpl in Hin.
  destruct Hin as [<-|[<-|[<-|[]]]]; discriminate.
Defined.

End GrepToolMore.

(* ================================================================== *)
(** * Further properties: the command-line tools *)
(* ================================================================== *)

Module BashToolMore.
Import BashTool BashSample.

Section Facts.
Variable U : unicode_db.
Variable truncate_str : str.
Variable subprocess_exec : str -> list str -> child.

(** X13.  The text a tool returns for a program that exits with status
    zero is bounded by a positive budget: it has at most [n] characters
    and the marker.  A negative budget cuts always: the text is the
    output without its last [-n] characters, followed by the marker, even
    when the output is shorter than that. *)
Theorem budget_bounds_the_output
    (tool : cli_tool) (args : list str) (n : Z) (stdout stderr : list N) (text : str) :
  truncate_length tool = Some n ->
  subprocess_exec (command tool) args = Exits 0 stdout stderr ->
  cli_call U truncate_str subprocess_exec tool args = Returned text ->
  ((0 < n)%Z -> (len text <= n + len truncate_str)%Z)
  /\ ((n < 0)%Z ->
      exists s, decode_utf8 stdout = Some s
                /\ text = firstn (length s - Z.to_nat (- n)) s ++ truncate_str).
Proof.
  intros Hb Hrun Hcall. unfold cli_call in Hcall. rewrite Hrun, Hb in Hcall.
  simpl in Hcall. destruct (decode_utf8 stdout) as [s|]; [|discriminate].
  injection Hcall as <-. split; intro Hn.
  - destruct (Z.eqb_spec n 0); [lia|]. simpl.
    destruct (Z.gtb_spec (len s) n) as [Hgt|Hle].
    + unfold slice_to. destruct (Z.ltb_spec n 0); [lia|].
      unfold len in *. rewrite length_app, length_firstn. lia.
    + unfold len in *. lia.
  - exists s. split; [reflexivity|].
    destruct (Z.eqb_spec n 0); [lia|]. simpl.
    destruct (Z.gtb_spec (len s) n) as [Hgt|Hle]; [|unfold len in Hle; lia].
    unfold slice_to. destruct (Z.ltb_spec n 0); [|lia].
    unfold len. do 2 f_equal. lia.
Qed.

(** X14.  A call raises in two cases only: no process came to be, and
    then the exception of [asyncio.create_subprocess_exec] comes up as it
    is (an [OSError] when the program cannot be run, a [ValueError] when
    the program or an argument holds a NUL character); or the stream the
    call reports (standard output after status zero, standard error
    otherwise) is not valid UTF-8, and the exception is
    [UnicodeDecodeError].  What the other stream holds never makes a call
    raise. *)
Theorem a_call_raises_only_for (tool : cli_tool) (args : list str) (e : exn) :
  cli_call U truncate_str subprocess_exec tool args = Raised e
  <-> subprocess_exec (command tool) args = SpawnFails e
      \/ (exists returncode stdout stderr,
            subprocess_exec (command tool) args = Exits returncode stdout stderr
            /\ decode_utf8 (if (returncode =? 0)%Z then stdout else stderr) = None
            /\ e = UnicodeDecodeError).
Proof.
  unfold cli_call.
  destruct (subprocess_exec (command tool) args) as [e0|rc out err]; split.
  - intro E. injection E as <-. now left.
  - intros [E|(rc & out & err & E & _)]; [|discriminate].
    now injection E as ->.
  - intro E. right. exists rc, out, err. split; [reflexivity|].
    destruct (rc =? 0)%Z; simpl in E.
    + destruct (decode_utf8 out); [discriminate|]. now injection E as <-.
    + destruct (decode_utf8 err); [discriminate|]. now injection E as <-.
  - intros [E|(rc' & out' & err' & E & Hd & ->)]; [discriminate|].
    injection E as <- <- <-.
    destruct (rc =? 0)%Z; simpl; now rewrite Hd.
Qed.

(** X15.  When every command gives a function name that is an
    identifier, [get_bash_tool] returns one tool for each command, in the
    order of the commands, each made for its command and the common
    budget; the commands may repeat. *)
Theorem tools_follow_the_commands (commands : list str) (b : option Z) :
  forallb (fun c => is_identifier U (c ++ lit "_cli")) commands = true ->
  get_bash_tool U (Some commands) b
  = Returned (map (fun c => {| command := c; truncate_length := b |}) commands).
Proof.
  simpl. induction commands as [|c rest IH]; intro Hid; [reflexivity|].
  simpl in Hid. apply andb_true_iff in Hid as [Hc Hrest].
  simpl. unfold create_runtime_cli_tool. rewrite Hc, (IH Hrest). reflexivity.
Qed.

End Facts.

Lemma budget_bounds_the_output_witness :
  (len (lit "hello...") <= 5 + len (lit "..."))%Z.
Proof.
  exact (proj1 (budget_bounds_the_output ascii_only (lit "...") gh_prints
                  {| command := lit "gh"; truncate_length := Some 5%Z |}
                  [lit "pr"; lit "diff"] 5%Z (lit "hello world") [] (lit "hello...")
                  eq_refl eq_refl eq_refl)
               ltac:(lia)).
Defined.

Lemma tools_follow_the_commands_witness :
  get_bash_tool ascii_only (Some [lit "gh"; lit "git"]) (Some 10000%Z)
  = Returned [ {| command := lit "gh"; truncate_length := Some 10000%Z |};
               {| command := lit "git"; truncate_length := Some 10000%Z |} ].
Proof.
  exact (tools_follow_the_commands ascii_only [lit "gh"; lit "git"] (Some 10000%Z) eq_refl).
Defined.

End BashToolMore.

(* ================================================================== *)
(** * Further properties: the review workflow *)
(* ================================================================== *)

Module AgentMore.
Import Agent AgentSpec RunSpec AgentFacts.

(** ** The validator *)

(** X16.  [_validate_pr_url] accepts exactly the strings that are not
    empty and have the shape [//github.com/owner/repo/pull/number] after
    any scheme or none: values that are not strings are refused, and so
    is every string whose network location is not [github.com], whose
    path has not four parts with [pull] as the third, or whose last part
    [int] refuses. *)
Theorem validator_accepts_exactly (U : unicode_db) (pr_url : json) :
  _validate_pr_url U pr_url = true
  <-> exists u, pr_url = JStr u /\ u <> [] /\ pr_url_shape U u.
Proof.
  unfold _validate_pr_url. split.
  - destruct (truthy pr_url) eqn:Ht; simpl; [|discriminate].
    destruct pr_url as [| | | |u| |]; try discriminate.
    intro Hv. apply validate_pr_url_str_spec in Hv as [Hne Hs]. now exists u.
  - intros (u & -> & Hne & Hs).
    destruct u as [|c u]; [contradiction|]. simpl truthy. simpl negb. cbv iota.
    apply validate_pr_url_str_spec. split; [discriminate | exact Hs].
Qed.

(** ** URLs as they are written *)

Section WellFormed.
Import UrlSpec.
Variable U : unicode_db.

Lemma filter_id {A} (f : A -> bool) (l : list A) : forallb f l = true -> filter f l = l.
Proof.
  induction l as [|x l IH]; [reflexivity|]. simpl. intro Hf.
  apply andb_true_iff in Hf as [-> Hf]. now rewrite IH.
Qed.

Lemma forallb_impl {A} (f g : A -> bool) (l : list A) :
  (forall x, f x = true -> g x = true) -> forallb f l = true -> forallb g l = true.
Proof.
  intros Hfg. induction l as [|x l IH]; [reflexivity|]. simpl. intro Hf.
  apply andb_true_iff in Hf as [Hx Hf]. now rewrite (Hfg x Hx), IH.
Qed.

Lemma forallb_none {A} (f g : A -> bool) (l : list A) :
  (forall x, f x = true -> g x = false) -> forallb f l = true -> existsb g l = false.
Proof.
  intros Hfg. induction l as [|x l IH]; [reflexivity|]. simpl. intro Hf.
  apply andb_true_iff in Hf as [Hx Hf]. now rewrite (Hfg x Hx), IH.
Qed.

(** A character of a name is none of the characters the parser and the
    validator give a meaning to. *)
Lemma name_char_is_not (k : N) :
  name_char k = false -> forall c, name_char c = true -> (k =? c) = false.
Proof.
  intros Hk c Hc. destruct (N.eqb_spec k c) as [->|]; [|reflexivity]. congruence.
Qed.

Lemma digit_is_name_char (c : N) : ascii_digit c = true -> name_char c = true.
Proof. unfold name_char. intros ->. now rewrite orb_true_r. Qed.

Lemma digit_is_ascii (c : N) : ascii_digit c = true -> (c <? 127) = true.
Proof.
  unfold ascii_digit. intro H. apply andb_true_iff in H as [_ H].
  apply N.leb_le in H. apply N.ltb_lt. lia.
Qed.

Lemma digit_is_not_space (c : N) :
  ascii_digit c = true -> ((9 <=? c) && (c <=? 13)) || (c =? 32) = false.
Proof.
  unfold ascii_digit. intro H. apply andb_true_iff in H as [H _].
  apply N.leb_le in H. apply orb_false_iff. split.
  - apply andb_false_iff. right. apply N.leb_gt. lia.
  - apply N.eqb_neq. lia.
Qed.

Lemma digit_is_not_sign (c : N) : ascii_digit c = true -> (c =? 43) || (c =? 45) = false.
Proof.
  unfold ascii_digit. intro H. apply andb_true_iff in H as [H _].
  apply N.leb_le in H. apply orb_false_iff. split; apply N.eqb_neq; lia.
Qed.

Lemma rstrip_stop (drop : N -> bool) (s : str) (x : N) :
  drop x = false -> rstrip drop (s ++ [x]) = s ++ [x].
Proof.
  intro Hx. unfold rstrip. rewrite rev_app_distr. simpl. rewrite Hx.
  simpl. now rewrite rev_involutive.
Qed.

Lemma to_ascii_number_digits (s : str) :
  forallb ascii_digit s = true -> to_ascii_number U s = Some s.
Proof.
  induction s as [|c s IH]; [reflexivity|]. simpl. intro H.
  apply andb_true_iff in H as [Hc H].
  now rewrite (digit_is_ascii c Hc), (IH H).
Qed.

Lemma digits_tail_digits (s : str) :
  forallb ascii_digit s = true -> digits_tail true s = true.
Proof.
  induction s as [|c s IH]; [reflexivity|]. simpl. intro H.
  apply andb_true_iff in H as [-> H]. now apply IH.
Qed.

(** [int] takes every number written in decimal digits, up to the limit
    on their count. *)
Lemma int_ok_decimal (number : str) :
  decimal number = true -> (length number <= int_max_str_digits)%nat ->
  int_ok U number = true.
Proof.
  unfold decimal. intros Hd Hlen.
  destruct number as [|c0 rest]; [discriminate|].
  assert (Hc0 : ascii_digit c0 = true)
    by (simpl in Hd; now apply andb_true_iff in Hd as [? _]).
  assert (Hrest : forallb ascii_digit rest = true)
    by (simpl in Hd; now apply andb_true_iff in Hd as [_ ?]).
  assert (Hs : strip (fun c => ((9 <=? c) && (c <=? 13)) || (c =? 32)) (c0 :: rest)
               = c0 :: rest).
  { unfold strip.
    assert (Hl : lstrip (fun c => ((9 <=? c) && (c <=? 13)) || (c =? 32)) (c0 :: rest)
                 = c0 :: rest)
      by (simpl; now rewrite (digit_is_not_space c0 Hc0)).
    rewrite Hl.
    destruct (exists_last (l := c0 :: rest)) as (init & d & El); [discriminate|].
    rewrite El. apply rstrip_stop. apply digit_is_not_space.
    rewrite El, forallb_app in Hd. apply andb_true_iff in Hd as [_ Hd].
    simpl in Hd. now rewrite andb_true_r in Hd. }
  unfold int_ok. rewrite (to_ascii_number_digits _ Hd). cbv zeta. rewrite Hs.
  cbv beta iota. rewrite (digit_is_not_sign c0 Hc0).
  apply andb_true_iff. split.
  - simpl. rewrite Hc0. now apply digits_tail_digits.
  - rewrite (filter_id _ _ Hd). now apply Nat.leb_le.
Qed.

Lemma urlparse_https_github (T : str) :
  forallb (fun c => negb ((c =? 9) || (c =? 13) || (c =? 10))) T = true ->
  has_char 35 T = false -> has_char 63 T = false -> has_char 59 T = false ->
  urlparse (lit "https://github.com/" ++ T)
  = Some {| scheme := lit "https"; netloc := lit "github.com"; path := 47 :: T;
            params := []; query := []; fragment := [] |}.
Proof.
  intros Hf H35 H63 H59.
  unfold urlparse.
  change (lit "https://github.com/" ++ T)
    with (104 :: 116 :: 116 :: 112 :: 115 :: 58 :: 47 :: 47 :: 103 :: 105 :: 116 :: 104
          :: 117 :: 98 :: 46 :: 99 :: 111 :: 109 :: 47 :: T).
  change (lstrip (fun c => c <=? 32) (104 :: ?r)) with (104 :: r).
  rewrite filter_id by (simpl; exact Hf).
  unfold has_char in *.
  cbn. rewrite H35. cbn. rewrite H63. cbn. rewrite H59. reflexivity.
Qed.

(** X17.  The validator accepts every URL written
    [https://github.com/<owner>/<repo>/pull/<number>], where owner and
    repository are names of letters, digits, hyphens, underscores and
    dots, and the number is in decimal digits, at most 4300 of them. *)
Theorem well_formed_urls_are_accepted (owner repo number : str) :
  plain_name owner = true ->
  plain_name repo = true ->
  decimal number = true ->
  (length number <= int_max_str_digits)%nat ->
  _validate_pr_url U (JStr (pr_url_of owner repo number)) = true.
Proof.
  intros Ho Hr Hn Hlen.
  assert (Ho' : forallb name_char owner = true) by (destruct owner; [discriminate | exact Ho]).
  assert (Hr' : forallb name_char repo = true) by (destruct repo; [discriminate | exact Hr]).
  assert (Hn' : forallb name_char number = true).
  { destruct number; [discriminate|].
    apply (forallb_impl ascii_digit); [apply digit_is_name_char | exact Hn]. }
  set (T := owner ++ lit "/" ++ repo ++ lit "/pull/" ++ number).
  assert (Hno : forall k, name_char k = false ->
                  k <> 47 -> existsb (N.eqb k) T = false).
  { intros k Hk H47. unfold T. rewrite !existsb_app.
    rewrite (forallb_none name_char (N.eqb k) owner (name_char_is_not k Hk) Ho').
    rewrite (forallb_none name_char (N.eqb k) repo (name_char_is_not k Hk) Hr').
    rewrite (forallb_none name_char (N.eqb k) number (name_char_is_not k Hk) Hn').
    simpl. rewrite !orb_false_r.
    apply N.eqb_neq in H47. rewrite H47. simpl.
    destruct (N.eqb_spec k 112) as [->|]; [discriminate Hk|].
    destruct (N.eqb_spec k 117) as [->|]; [discriminate Hk|].
    destruct (N.eqb_spec k 108) as [->|]; [discriminate Hk|]. reflexivity. }
  unfold _validate_pr_url.
  change (truthy (JStr (pr_url_of owner repo number))) with true.
  simpl negb. cbv iota.
  apply validate_pr_url_str_spec. split; [discriminate|].
  exists {| scheme := lit "https"; netloc := lit "github.com"; path := 47 :: T;
            params := []; query := []; fragment := [] |}, owner, repo, number.
  split; [|split; [reflexivity|split; [|split; [|split; [|split]]]]].
  - apply urlparse_https_github.
    + unfold T. rewrite !forallb_app.
      assert (Hw : forall s, forallb name_char s = true ->
                     forallb (fun c => negb ((c =? 9) || (c =? 13) || (c =? 10))) s = true).
      { intro s. apply forallb_impl. intros c Hc.
        rewrite !(N.eqb_sym c).
        now rewrite (name_char_is_not 9 eq_refl c Hc), (name_char_is_not 13 eq_refl c Hc),
          (name_char_is_not 10 eq_refl c Hc). }
      now rewrite (Hw _ Ho'), (Hw _ Hr'), (Hw _ Hn').
    + apply Hno; [reflexivity | discriminate].
    + apply Hno; [reflexivity | discriminate].
    + apply Hno; [reflexivity | discriminate].
  - cbn [path]. unfold strip.
    assert (Hl : lstrip (N.eqb 47) (47 :: T) = T).
    { destruct owner as [|c0 o]; [discriminate|].
      simpl in Ho'. apply andb_true_iff in Ho' as [Hc0 _].
      unfold T. cbn [app lstrip]. rewrite N.eqb_refl.
      now rewrite (name_char_is_not 47 eq_refl c0 Hc0). }
    rewrite Hl.
    destruct (exists_last (l := number)) as (init & d & El);
      [destruct number; [discriminate Hn | discriminate]|].
    assert (Hd : name_char d = true).
    { rewrite El, forallb_app in Hn'. apply andb_true_iff in Hn' as [_ Hn'].
      simpl in Hn'. now rewrite andb_true_r in Hn'. }
    unfold T. rewrite El. rewrite !app_assoc.
    apply rstrip_stop. now apply (name_char_is_not 47 eq_refl).
  - apply has_char_false. apply (forallb_none name_char); [|exact Ho'].
    now apply (name_char_is_not 47).
  - apply has_char_false. apply (forallb_none name_char); [|exact Hr'].
    now apply (name_char_is_not 47).
  - apply has_char_false. apply (forallb_none name_char); [|exact Hn'].
    now apply (name_char_is_not 47).
  - now apply int_ok_decimal.
Qed.

End WellFormed.

Lemma well_formed_urls_are_accepted_witness :
  _validate_pr_url ascii_only (JStr (lit "https://github.com/acme/widgets/pull/42")) = true.
Proof.
  apply (well_formed_urls_are_accepted ascii_only (lit "acme") (lit "widgets") (lit "42"));
    [reflexivity | reflexivity | reflexivity | simpl; unfold int_max_str_digits; lia].
Defined.

(** ** Invariants of a run *)

Section Invariants.
Variable U : unicode_db.
Variable ev : Type.
Variable run_async : stage -> state -> outcome ev.
Variable json_loads : str -> option json.
Variable validation_error_text : run_result -> str.
Variable st : state.

Local Notation "'run'" :=
  (ended (_run_async_impl U run_async json_loads validation_error_text st)).

(** X18.  A run forwards every event its stages yield, each once and in
    the order of the invocations, those of a stage that raised included,
    and yields nothing else: the events of a run are the events of its
    invocations.  No result is among them. *)
Theorem events_are_forwarded_in_order :
  events run = forwarded (calls run)
  /\ forall r, ~ In (Emitted r) (events run).
Proof.
  destruct (run_ends U ev run_async json_loads validation_error_text st)
    as (e & c & (_ & _ & Hev & _) & ->).
  cbn [ended events calls]. split; [exact Hev|].
  intros r Hin. rewrite Hev in Hin. unfold forwarded in Hin.
  apply in_flat_map in Hin as (call & _ & Hin).
  apply in_map_iff in Hin as (x & Hx & _). discriminate Hx.
Qed.

(** X19.  The workflow never writes the session state itself: every
    stage is invoked on the state the stage before it left, the first on
    the state the run was given, and the state at the end of the run is
    the one the last invocation left. *)
Theorem stages_run_on_the_state_left :
  chained run_async st (calls run)
  /\ session run = final_state st (calls run).
Proof.
  destruct (run_ends U ev run_async json_loads validation_error_text st)
    as (e & c & (Hc & Hs & _) & ->).
  cbn [ended session calls]. now split.
Qed.


(** X21.  A success is built only by a run of the whole pipeline: its
    invocations are the fetch, one review for each cluster in order, the
    filter on the reviews collected and the posting of the summary, none
    of them raising; and the result holds what they left (the decoded
    cluster data, the reviews decoded from [review_0], [review_1], ...,
    the summary found under [reviewed_review]). *)
Theorem success_means_the_whole_pipeline_ran (r : run_result) :
  In r (built run) ->
  success r = true ->
  pipeline json_loads (state_get st (lit "pr_url")) r (calls run).
Proof.
  destruct (run_ends U ev run_async json_loads validation_error_text st)
    as (e & c & (_ & _ & _ & He) & ->).
  cbn [ended calls built]. intros Hin Hs.
  apply in_app_or in Hin as [Hin|[<-|[]]]; [|discriminate Hs].
  destruct e as [msg|r0].
  - destruct He as [Hb _]. rewrite Hb in Hin. contradiction.
  - destruct He as (Hb & _ & Htold). rewrite Hb in Hin. destruct Hin as [<-|[]].
    destruct Htold as [(msg & -> & _)|Hp]; [discriminate Hs | exact Hp].
Qed.

(** X22.  A failure names the stage that failed.  The message of a
    failure a run builds is "Unexpected error: ..." for an exception, or
    it blames the last invocation: no invocation was made for the two
    messages about the URL; the fetch is the only one for the two about
    the clusters; the review of cluster [i] is the last for "Review failed
    for cluster i", the filter for "Review filtering failed", the posting
    for "Comment posting failed". *)
Theorem a_failure_names_the_stage (msg : str) :
  In {| success := false; error := Some msg;
        clusters := None; reviews := None; summary := None |} (built run) ->
  blames msg (calls run)
  \/ exists what, msg = lit "Unexpected error: " ++ what.
Proof.
  destruct (run_ends U ev run_async json_loads validation_error_text st)
    as (e & c & (_ & _ & _ & He) & ->).
  cbn [ended calls built]. intros Hin.
  apply in_app_or in Hin as [Hin|[Hin|[]]].
  - destruct e as [what|r0].
    + destruct He as [Hb _]. rewrite Hb in Hin. contradiction.
    + destruct He as (Hb & _ & Htold). rewrite Hb in Hin. destruct Hin as [->|[]].
      destruct Htold as [(msg' & Hr & Hbl)|Hp].
      * injection Hr as ->. now left.
      * destruct Hp as (? & ? & ? & ? & ? & ? & ? & ? & ? & Hp).
        destruct Hp as (_ & _ & _ & _ & _ & _ & _ & _ & _ & _ & Hr0).
        discriminate Hr0.
  - injection Hin as <-. right. eexists. reflexivity.
Qed.

End Invariants.


(** Every stage delivers: the success comes from a whole pipeline. *)
Lemma success_means_the_whole_pipeline_ran_witness :
  pipeline no_json pr_42
    {| success := true;
       error := None;
       clusters := Some two_clusters;
       reviews := Some [review_of "core"; review_of "docs"];
       summary := Some (JStr (lit "## Code Review Summary")) |}
    (calls (ended (_run_async_impl ascii_only (scripted false) no_json pydantic_says st0))).
Proof.
  exact (success_means_the_whole_pipeline_ran ascii_only nat (scripted false) no_json
           pydantic_says st0 _ (or_introl eq_refl) eq_refl).
Defined.

(** The second review is garbled: the failure blames it. *)
Lemma a_failure_names_the_stage_witness :
  blames (lit "Review failed for cluster 1")
         (calls (ended (_run_async_impl ascii_only (scripted true) no_json
                          pydantic_says st0)))
  \/ exists what, lit "Review failed for cluster 1" = lit "Unexpected error: " ++ what.
Proof.
  exact (a_failure_names_the_stage ascii_only nat (scripted true) no_json pydantic_says
           st0 (lit "Review failed for cluster 1") (or_introl eq_refl)).
Defined.

End AgentMore.

(* ================================================================== *)
(** * Properties: the workflow that resolves an issue *)
(* ================================================================== *)

Module ResolveIssueFacts.
Import Agent ResolveIssue ResolveIssueSpec.

(** Every way a run can end, one goal for each. *)
Ltac walk run_async part_refuses :=
  unfold run, _run_async_impl, invoke, say; cbn [session calls events branch];
  repeat
    (cbn [session calls events branch negb ctx_of];
     match goal with
     | |- context [truthy ?v] => destruct (truthy v) eqn:?
     | |- context [run_async ?s ?st0] =>
         let Ho := fresh "Ho" in
         destruct (run_async s st0) as [? ?|? ? ?] eqn:Ho
     | |- context [has_key ?st0 ?k] => destruct (has_key st0 k) eqn:?
     | |- context [dict_get ?st0 (lit "pr_output")] =>
         destruct (dict_get st0 (lit "pr_output")) eqn:?
     | |- context [part_refuses ?v] => destruct (part_refuses v) eqn:?
     end);
  cbn [session calls events branch negb ctx_of app map last fst snd].

(** Where in a list of invocations written out an invocation is. *)
Ltac peel H pre :=
  repeat (destruct pre as [|? pre]; cbn [app] in H;
          [ try discriminate H
          | first [discriminate H | injection H as ? H] ]).

Section Facts.
Variable ev : Type.
Variable run_async : stage -> state -> outcome ev.
Variable part_refuses : json -> option str.

Local Notation "'go'" := (run run_async part_refuses).

(** X23.  The stages of a run are an initial part of the sequence
    [get_issue_details], [analyze_issue], [implement_changes],
    [create_pr], each invoked at most once, and the branch of the context
    is the name of the last stage invoked (it is unchanged when none
    was). *)
Theorem stages_run_in_order (b : option str) (st : state) :
  (exists n, map fst (calls (ctx_of (go b st))) = firstn n pipeline_stages)
  /\ branch (ctx_of (go b st))
     = last (map (fun call => Some (name (fst call))) (calls (ctx_of (go b st)))) b.
Proof.
  walk run_async part_refuses; (split; [|reflexivity]);
    first [ now exists 0%nat | now exists 1%nat | now exists 2%nat
          | now exists 3%nat | now exists 4%nat ].
Qed.

(** X24.  No exception is caught: when a stage raises, it is the last
    one invoked, the exception leaves the workflow with its message, and
    the workflow has yielded nothing of its own, only what the stages
    yielded. *)
Theorem exceptions_leave_the_workflow
    (b : option str) (st : state) (pre post : list (stage * outcome ev))
    (s : stage) (evs : list ev) (st' : state) (msg : str) :
  calls (ctx_of (go b st)) = pre ++ (s, Raises evs st' msg) :: post ->
  post = []
  /\ exists c, go b st = Raised msg c
               /\ events c = forwarded (calls c).
Proof.
  walk run_async part_refuses; intro H; peel H pre;
    try discriminate H; injection H; intros; subst;
    (split; [reflexivity|]); eexists; (split; [reflexivity|]);
    unfold forwarded; simpl; now rewrite ?app_nil_r, <- ?app_assoc.
Qed.

(** X25.  Before it goes on, the workflow looks for the output of the
    first two stages, and only for its presence.  When [get_issue_details]
    or [analyze_issue] completes and its key is absent from the state it
    left, it is the last stage invoked and the run ends with the event
    "No <key> found in the session state"; when the key is there, whatever
    its value (null and the empty text included), the next stage is
    invoked on that state. *)
Theorem only_presence_is_checked
    (b : option str) (st : state) (pre post : list (stage * outcome ev))
    (s next : stage) (key : str) (evs : list ev) (st' : state) :
  checked_key s = Some key ->
  successor s = Some next ->
  calls (ctx_of (go b st)) = pre ++ (s, Completed evs st') :: post ->
  (dict_get st' key = None ->
   post = []
   /\ exists c,
        go b st = Finished c
        /\ events c
           = forwarded (calls c)
             ++ [Said (lit "system")
                      (JStr (lit "No " ++ key ++ lit " found in the session state"))])
  /\ (dict_get st' key <> None ->
      exists post', post = (next, run_async next st') :: post').
Proof.
  intros Hkey Hnext.
  pose (invoked := run_async).
  change (run_async next st') with (invoked next st').
  destruct s; try discriminate Hkey;
    injection Hkey as <-; injection Hnext as <-;
    walk run_async part_refuses; intro H; peel H pre;
    try discriminate H; injection H; intros; subst;
    repeat match goal with
           | Hk : has_key _ _ = _ |- _ => unfold has_key in Hk
           end;
    (split; [intro Hnone | intro Hsome]);
    try (rewrite Hnone in *; discriminate);
    try (exfalso; apply Hsome;
         match goal with
         | Hk : match dict_get ?a ?k with _ => _ end = false |- _ =>
             destruct (dict_get a k); [discriminate Hk | reflexivity]
         end);
    try (split; [reflexivity|]; eexists; split; [reflexivity|];
         unfold forwarded; simpl; now rewrite ?app_nil_r, <- ?app_assoc);
    try (unfold invoked; eexists;
         match goal with
         | Ho : run_async ?n ?a = _ |- context [run_async ?n ?a] =>
             rewrite Ho; reflexivity
         end).
Qed.

(** X26.  What [implement_changes] leaves is not looked at: when it
    completes, [create_pr] is invoked next, on the state it left,
    whatever that state holds. *)
Theorem implementation_is_not_checked
    (b : option str) (st : state) (pre post : list (stage * outcome ev))
    (evs : list ev) (st' : state) :
  calls (ctx_of (go b st)) = pre ++ (ImplementChanges, Completed evs st') :: post ->
  post = [(CreatePr, run_async CreatePr st')].
Proof.
  pose (invoked := run_async).
  change (run_async CreatePr st') with (invoked CreatePr st').
  walk run_async part_refuses; intro H; peel H pre;
    try discriminate H; injection H; intros; subst;
    unfold invoked;
    match goal with
    | Ho : run_async CreatePr ?a = _ |- context [run_async CreatePr ?a] =>
        now rewrite Ho
    end.
Qed.

(** X27.  The workflow speaks as [user] once at most, at the very end:
    when it does, the four stages have been invoked and have completed,
    the text is what the state holds under [pr_output], and the run is
    finished. *)
Theorem the_pull_request_is_announced
    (b : option str) (st : state) (text : json) :
  In (Said (lit "user") text) (events (ctx_of (go b st))) ->
  map fst (calls (ctx_of (go b st))) = pipeline_stages
  /\ forallb (fun call => RunSpec.completed (snd call)) (calls (ctx_of (go b st))) = true
  /\ dict_get (session (ctx_of (go b st))) (lit "pr_output") = Some text
  /\ part_refuses text = None
  /\ exists c, go b st = Finished c
               /\ events c = forwarded (calls c) ++ [Said (lit "user") text].
Proof.
  assert (Hfw : forall (l : list ev) (l' : list (event ev)),
             In (Said (lit "user") text) (map Forwarded l ++ l') ->
             In (Said (lit "user") text) l').
  { intros l l' Hin. apply in_app_or in Hin as [Hin|Hin]; [|exact Hin].
    apply in_map_iff in Hin as (x & E & _). discriminate E. }
  pose (held := dict_get). pose (refuses := part_refuses).
  change (dict_get (session (ctx_of (go b st))) (lit "pr_output"))
    with (held (session (ctx_of (go b st))) (lit "pr_output")).
  change (part_refuses text) with (refuses text).
  walk run_async part_refuses; intro Hin;
    rewrite <- ?app_assoc in Hin;
    repeat (apply Hfw in Hin);
    try (rewrite <- (app_nil_r (map Forwarded _)) in Hin; apply Hfw in Hin);
    try contradiction;
    try (destruct Hin as [Hin|[]]; discriminate Hin).
  destruct Hin as [Hin|[]]. injection Hin as ->.
  unfold held, refuses. repeat split; try assumption.
  eexists. split; [reflexivity|].
  unfold forwarded. simpl. now rewrite ?app_nil_r, <- ?app_assoc.
Qed.

End Facts.

(** The analysis raises: the exception leaves the workflow. *)
Lemma exceptions_leave_the_workflow_witness :
  exists c, run analysis_breaks texts_only None issue_7 = Raised (lit "model overloaded") c
            /\ events c = forwarded (calls c).
Proof.
  exact (proj2 (exceptions_leave_the_workflow nat analysis_breaks texts_only None issue_7
                  [(GetIssueDetails,
                    Completed [1%nat] ((lit "issue_details", JNull) :: issue_7))]
                  [] AnalyzeIssue [2%nat] ((lit "issue_details", JNull) :: issue_7)
                  (lit "model overloaded") eq_refl)).
Defined.

(** The first agent stores nothing: the run stops after it. *)
Lemma only_presence_is_checked_witness :
  exists c,
    run mute texts_only None issue_7 = Finished c
    /\ events c
       = forwarded (calls c)
         ++ [Said (lit "system") (JStr (lit "No issue_details found in the session state"))].
Proof.
  exact (proj2 (proj1 (only_presence_is_checked nat mute texts_only None issue_7
                         [] [] GetIssueDetails AnalyzeIssue (lit "issue_details")
                         [1%nat] issue_7 eq_refl eq_refl eq_refl)
                      eq_refl)).
Defined.

(** Null under the keys of the first two agents, nothing from the third:
    the pull request is created all the same. *)
Lemma implementation_is_not_checked_witness :
  [(CreatePr,
    Completed [4%nat]
      ((lit "pr_output", JStr (lit "opened #7"))
         :: (lit "analysis", JNull) :: (lit "issue_details", JNull) :: issue_7))]
  = [(CreatePr,
      terse CreatePr ((lit "analysis", JNull) :: (lit "issue_details", JNull) :: issue_7))].
Proof.
  exact (implementation_is_not_checked nat terse texts_only None issue_7
           [(GetIssueDetails,
             Completed [1%nat] ((lit "issue_details", JNull) :: issue_7));
            (AnalyzeIssue,
             Completed [2%nat]
               ((lit "analysis", JNull) :: (lit "issue_details", JNull) :: issue_7))]
           _ [3%nat]
           ((lit "analysis", JNull) :: (lit "issue_details", JNull) :: issue_7)
           eq_refl).
Defined.

Lemma the_pull_request_is_announced_witness :
  map fst (calls (ctx_of (run terse texts_only None issue_7))) = pipeline_stages
  /\ dict_get (session (ctx_of (run terse texts_only None issue_7))) (lit "pr_output")
     = Some (JStr (lit "opened #7")).
Proof.
  destruct (the_pull_request_is_announced nat terse texts_only None issue_7
              (JStr (lit "opened #7"))
              (or_intror (or_intror (or_intror (or_intror (or_introl eq_refl))))))
    as (Hs & _ & Hd & _).
  split; [exact Hs | exact Hd].
Defined.

End ResolveIssueFacts.
